(** * eternalportal: authentication and access control

    A shallow embedding of the security-relevant server code of the game
    portal (server/rbac, server/passwordPolicy, server/auth, server/security,
    server/routes and server/storage) together with the properties its
    design document states about it.

    Conventions.
    - Strings that are only compared (role names, tokens, user names) are
      [string].  Passwords, whose characters are inspected, are [list ascii]:
      one [ascii] per UTF-16 code unit, which covers every password whose
      code units are below 256.
    - Points in time are [Z], milliseconds since the epoch, as
      [Date.getTime()] and [Date.now()] give them.
    - A JavaScript call that may end in an exception returns a
      [Completion].
    - The outcomes of [Math.random], [crypto.randomBytes], the argon2
      library and the token library are arguments of the functions that
      use them. *)

From Stdlib Require Import ZArith List String Ascii Bool Lia DecimalString.
From stdpp Require Import gmap strings.
Import ListNotations.

Local Open Scope string_scope.
Local Open Scope list_scope.
Local Open Scope Z_scope.

(** ** JavaScript preliminaries *)

Inductive JsError :=
| TypeError (message : string)
| Error (message : string).

Inductive Completion (A : Type) :=
| Normal (value : A)
| Throw (error : JsError).
Arguments Normal {A} value.
Arguments Throw {A} error.

(** [Array.prototype.includes] on an array of strings. *)
Definition includes (l : list string) (x : string) : bool :=
  existsb (String.eqb x) l.

(** [s || d] for a possibly missing string: the empty string is falsy. *)
Definition orDefault (s : option string) (d : string) : string :=
  match s with
  | Some v => if String.eqb v "" then d else v
  | None => d
  end.

(** ** shared/schema: the users table *)

Module Schema.

Inductive AccountStatus := active | locked | suspended | inactive.

(** A row of [users].  [role] is declared [notNull] with the values
    ['user'] and ['admin'] in the schema, and as [VARCHAR(255)] in the
    table that [migrate.ts] creates; the request user that reaches the
    permission check is a decoded token payload whose role is an unchecked
    string that the check itself guards with [|| 'user'], hence the
    option. *)
Record User := mkUser {
  id : Z;
  username : string;
  password : string;
  email : string;
  bio : option string;
  role : option string;
  createdAt : option Z;
  lastLogin : option Z;
  failedLoginAttempts : option Z;
  accountStatus : AccountStatus;
  passwordResetToken : option string;
  passwordResetExpires : option Z;
  lastPasswordReset : option Z
}.

End Schema.

(** ** server/rbac: roles and permissions *)

Module Rbac.
Import Schema.

Inductive Resource :=
| USERS | GAMES | CATEGORIES | DOWNLOAD_LINKS | SYSTEM_SETTINGS.

Inductive Operation :=
| CREATE | READ | UPDATE | DELETE | APPROVE | REJECT | PUBLISH | MANAGE.

Definition resourceValue (r : Resource) : string :=
  match r with
  | USERS => "users"
  | GAMES => "games"
  | CATEGORIES => "categories"
  | DOWNLOAD_LINKS => "download_links"
  | SYSTEM_SETTINGS => "system_settings"
  end.

Definition operationValue (o : Operation) : string :=
  match o with
  | CREATE => "create"
  | READ => "read"
  | UPDATE => "update"
  | DELETE => "delete"
  | APPROVE => "approve"
  | REJECT => "reject"
  | PUBLISH => "publish"
  | MANAGE => "manage"
  end.

(** The template literal [`${Resource}.${Operation}`]. *)
Definition Permission := string.

Definition perm (r : Resource) (o : Operation) : Permission :=
  String.append (resourceValue r) (String.append "." (operationValue o)).

Definition adminPermissions : list Permission :=
  [ perm USERS CREATE; perm USERS READ; perm USERS UPDATE;
    perm USERS DELETE; perm USERS MANAGE;
    perm GAMES CREATE; perm GAMES READ; perm GAMES UPDATE;
    perm GAMES DELETE; perm GAMES APPROVE; perm GAMES REJECT;
    perm GAMES PUBLISH; perm GAMES MANAGE;
    perm CATEGORIES CREATE; perm CATEGORIES READ; perm CATEGORIES UPDATE;
    perm CATEGORIES DELETE; perm CATEGORIES MANAGE;
    perm DOWNLOAD_LINKS CREATE; perm DOWNLOAD_LINKS READ;
    perm DOWNLOAD_LINKS UPDATE; perm DOWNLOAD_LINKS DELETE;
    perm DOWNLOAD_LINKS MANAGE;
    perm SYSTEM_SETTINGS READ; perm SYSTEM_SETTINGS UPDATE;
    perm SYSTEM_SETTINGS MANAGE ].

Definition userPermissions : list Permission :=
  [ perm USERS READ;
    perm GAMES CREATE; perm GAMES READ; perm GAMES UPDATE;
    perm GAMES DELETE; perm GAMES PUBLISH;
    perm CATEGORIES READ;
    perm DOWNLOAD_LINKS CREATE; perm DOWNLOAD_LINKS READ;
    perm DOWNLOAD_LINKS UPDATE; perm DOWNLOAD_LINKS DELETE ].

(** What reading [obj[key]] on an object literal can give.  The literal
    [rolePermissions] has the own keys [admin] and [user]; any other key
    is looked up on [Object.prototype], whose members are functions (or,
    for [__proto__], the prototype object itself): truthy values that are
    not arrays. *)
Inductive PropertyValue :=
| OwnArray (items : list Permission)
| Inherited
| Undefined.

Definition objectPrototypeKeys : list string :=
  [ "constructor"; "hasOwnProperty"; "isPrototypeOf";
    "propertyIsEnumerable"; "toLocaleString"; "toString"; "valueOf";
    "__proto__"; "__defineGetter__"; "__defineSetter__";
    "__lookupGetter__"; "__lookupSetter__" ].

Definition rolePermissions (key : string) : PropertyValue :=
  if String.eqb key "admin" then OwnArray adminPermissions
  else if String.eqb key "user" then OwnArray userPermissions
  else if includes objectPrototypeKeys key then Inherited
  else Undefined.

(** [hasPermission(user, permission)].  [rolePermissions[userRole] || []]
    keeps whatever truthy value the lookup found; calling [.includes] on
    a value that has no such method raises a [TypeError]. *)
Definition hasPermission (user : option User) (permission : Permission)
  : Completion bool :=
  match user with
  | None => Normal false
  | Some u =>
      let userRole := orDefault (role u) "user" in
      match rolePermissions userRole with
      | OwnArray permissions => Normal (includes permissions permission)
      | Undefined => Normal (includes [] permission)
      | Inherited => Throw (TypeError "permissions.includes is not a function")
      end
  end.

End Rbac.

(** ** server/passwordPolicy: password strength rules *)

Module PasswordPolicy.

(** A string literal as the sequence of its characters. *)
Definition chars (s : string) : list ascii := list_ascii_of_string s.

Definition charCode (c : ascii) : Z := Z.of_N (N_of_ascii c).

Definition inRange (lo hi : Z) (c : ascii) : bool :=
  (lo <=? charCode c) && (charCode c <=? hi).

(** The character classes of the regular expressions [/[A-Z]/], [/[a-z]/],
    [/[0-9]/] and [/[^A-Za-z0-9]/]. *)
Definition isUpper (c : ascii) : bool := inRange 65 90 c.
Definition isLower (c : ascii) : bool := inRange 97 122 c.
Definition isDigit (c : ascii) : bool := inRange 48 57 c.
Definition isSymbol (c : ascii) : bool :=
  negb (isUpper c || isLower c || isDigit c).

(** [regex.test(s)] for a one-character class. *)
Definition test (class : ascii -> bool) (s : list ascii) : bool :=
  existsb class s.

(** [String.prototype.toLowerCase] on code units below 256: the letters
    A-Z and the Latin-1 capitals U+00C0-U+00DE (the multiplication sign
    U+00D7 apart) move up by 32, every other unit is kept. *)
Definition lowerChar (c : ascii) : ascii :=
  if isUpper c || (inRange 192 222 c && negb (charCode c =? 215))
  then ascii_of_N (N_of_ascii c + 32)
  else c.

Definition toLowerCase (s : list ascii) : list ascii := map lowerChar s.

(** [a === b] on strings. *)
Fixpoint strEqb (a b : list ascii) : bool :=
  match a, b with
  | [], [] => true
  | x :: a', y :: b' => Ascii.eqb x y && strEqb a' b'
  | _, _ => false
  end.

(** [s.startsWith(pat)] and [s.includes(pat)]. *)
Fixpoint startsWith (s pat : list ascii) : bool :=
  match pat, s with
  | [], _ => true
  | _ :: _, [] => false
  | p :: pat', c :: s' => Ascii.eqb c p && startsWith s' pat'
  end.

Fixpoint strIncludes (s pat : list ascii) : bool :=
  startsWith s pat ||
  match s with
  | [] => false
  | _ :: s' => strIncludes s' pat
  end.

(** [s.substring(i, j)] for [0 <= i <= j]. *)
Definition substring (s : list ascii) (i j : nat) : list ascii :=
  firstn (j - i) (skipn i s).

(** [s[i]], [undefined] out of range; [s.charCodeAt(i)], [NaN] out of
    range. *)
Definition charAt (s : list ascii) (i : nat) : option ascii := nth_error s i.

Definition charCodeAt (s : list ascii) (i : nat) : option Z :=
  option_map charCode (nth_error s i).

(** [a === b] on numbers, [None] standing for [NaN]. *)
Definition numEq (a b : option Z) : bool :=
  match a, b with
  | Some x, Some y => x =? y
  | _, _ => false
  end.

Definition numAdd (a : option Z) (k : Z) : option Z :=
  option_map (fun x => x + k) a.

(** [a === b] on characters that may be [undefined]. *)
Definition charEq (a b : option ascii) : bool :=
  match a, b with
  | Some x, Some y => Ascii.eqb x y
  | None, None => true
  | _, _ => false
  end.

(** The indices [0, 1, ..., n - 3] visited by
    [for (let i = 0; i < n - 2; i++)]. *)
Definition windows (n : nat) : list nat := seq 0 (n - 2).

Record Policy := mkPolicy {
  minLength : Z;
  maxLength : Z;
  commonPasswords : list (list ascii)
}.

Definition has (set : list (list ascii)) (s : list ascii) : bool :=
  existsb (strEqb s) set.

Definition defaultCommonPasswords : list (list ascii) :=
  map chars
    [ "123456"; "123456789"; "qwerty"; "password"; "12345"; "qwerty123";
      "1q2w3e"; "12345678"; "111111"; "1234567890"; "senha"; "admin";
      "welcome"; "monkey"; "login"; "abc123"; "starwars"; "123123";
      "dragon"; "passw0rd"; "master"; "hello"; "freedom"; "whatever";
      "senha123"; "administrador"; "123mudar"; "adminadmin"; "usuario";
      "controle"; "futebol"; "flamengo"; "corinthians"; "palmeiras";
      "brasil"; "102030"; "bemvindo"; "portugal"; "mudar123" ].

Record Options := mkOptions {
  optMinLength : option Z;
  optMaxLength : option Z;
  additionalCommonPasswords : option (list (list ascii))
}.

(** [new PasswordPolicy(options)]: a length option replaces the default
    when it is truthy (present and not zero). *)
Definition newPolicy (options : option Options) : Policy :=
  let truthy (o : option Z) (d : Z) :=
    match o with
    | Some v => if v =? 0 then d else v
    | None => d
    end in
  match options with
  | None => mkPolicy 8 100 defaultCommonPasswords
  | Some o =>
      mkPolicy (truthy (optMinLength o) 8) (truthy (optMaxLength o) 100)
        (defaultCommonPasswords ++
         match additionalCommonPasswords o with
         | Some l => map toLowerCase l
         | None => []
         end)
  end.

(** The singleton [passwordPolicy = new PasswordPolicy()]. *)
Definition passwordPolicy : Policy := newPolicy None.

Definition keyboardSequences : list (list ascii) :=
  map chars
    [ "qwertyuiop"; "asdfghjkl"; "zxcvbnm";
      "qazwsx"; "wsxedc"; "edcrfv"; "rfvtgb"; "tgbyhn"; "yhnujm";
      "1qaz"; "2wsx"; "3edc"; "4rfv"; "5tgb"; "6yhn"; "7ujm";
      "123456789"; "987654321"; "abcdefghijklmnopqrstuvwxyz" ].

(** The three loops of [hasSimplePatterns], each returning [true] at the
    first hit. *)
Definition hasKeyboardSequence (lowerPassword : list ascii) : bool :=
  existsb (fun seq =>
    existsb (fun i =>
      let pattern := substring seq i (i + 3) in
      strIncludes lowerPassword pattern) (windows (length seq)))
    keyboardSequences.

Definition hasRepetition (lowerPassword : list ascii) : bool :=
  existsb (fun i =>
    charEq (charAt lowerPassword i) (charAt lowerPassword (i + 1)) &&
    charEq (charAt lowerPassword i) (charAt lowerPassword (i + 2)))
    (windows (length lowerPassword)).

Definition hasRun (lowerPassword : list ascii) : bool :=
  existsb (fun i =>
    let c1 := charCodeAt lowerPassword i in
    let c2 := charCodeAt lowerPassword (i + 1) in
    let c3 := charCodeAt lowerPassword (i + 2) in
    (numEq c2 (numAdd c1 1) && numEq c3 (numAdd c2 1)) ||
    (numEq c2 (numAdd c1 (-1)) && numEq c3 (numAdd c2 (-1))))
    (windows (length lowerPassword)).

Definition hasSimplePatterns (password : list ascii) : bool :=
  let lowerPassword := toLowerCase password in
  hasKeyboardSequence lowerPassword ||
  hasRepetition lowerPassword ||
  hasRun lowerPassword.

Record PasswordValidationResult := mkResult {
  isValid : bool;
  errors : list string
}.

(** A number inside a template literal. *)
Definition numberToString (n : Z) : string :=
  NilZero.string_of_int (Z.to_int n).

Definition msgTooShort (P : Policy) : string :=
  String.append "A senha deve ter pelo menos "
    (String.append (numberToString (minLength P)) " caracteres").

Definition msgTooLong (P : Policy) : string :=
  String.append "A senha não pode ter mais de "
    (String.append (numberToString (maxLength P)) " caracteres").

Definition msgUppercase : string :=
  "A senha deve conter pelo menos uma letra maiúscula".
Definition msgLowercase : string :=
  "A senha deve conter pelo menos uma letra minúscula".
Definition msgDigit : string :=
  "A senha deve conter pelo menos um número".
Definition msgSymbol : string :=
  "A senha deve conter pelo menos um caractere especial".
Definition msgCommon : string :=
  "Esta senha é muito comum e fácil de adivinhar. Escolha uma senha mais única".
Definition msgPattern : string :=
  "Evite usar padrões simples como sequências de teclas ou números".

(** The truthiness of a string: [!password] holds of the empty string. *)
Definition truthy (password : list ascii) : bool :=
  match password with
  | [] => false
  | _ :: _ => true
  end.

(** [errors.push(m)] under a condition. *)
Definition pushIf (cond : bool) (m : string) (errors : list string)
  : list string :=
  if cond then errors ++ [m] else errors.

Definition validate (P : Policy) (password : list ascii)
  : PasswordValidationResult :=
  let len := Z.of_nat (length password) in
  let errors := [] in
  let errors :=
    pushIf (negb (truthy password) || (len <? minLength P))
      (msgTooShort P) errors in
  let errors :=
    pushIf (truthy password && (maxLength P <? len)) (msgTooLong P) errors in
  let errors :=
    pushIf (truthy password && negb (test isUpper password))
      msgUppercase errors in
  let errors :=
    pushIf (truthy password && negb (test isLower password))
      msgLowercase errors in
  let errors :=
    pushIf (truthy password && negb (test isDigit password))
      msgDigit errors in
  let errors :=
    pushIf (truthy password && negb (test isSymbol password))
      msgSymbol errors in
  let errors :=
    pushIf (truthy password && has (commonPasswords P) (toLowerCase password))
      msgCommon errors in
  let errors :=
    pushIf (truthy password && hasSimplePatterns password)
      msgPattern errors in
  mkResult (Nat.eqb (length errors) 0) errors.

(** The size of [new Set(password.split(''))]. *)
Fixpoint distinct (s : list ascii) : nat :=
  match s with
  | [] => 0
  | c :: s' =>
      if existsb (Ascii.eqb c) s' then distinct s' else S (distinct s')
  end.

Definition measureStrength (P : Policy) (password : list ascii) : Z :=
  if negb (truthy password) then 0
  else
    let len := Z.of_nat (length password) in
    let score := 0 in
    let score := score + Z.min 30 (len * 2) in
    let score := if test isUpper password then score + 10 else score in
    let score := if test isLower password then score + 10 else score in
    let score := if test isDigit password then score + 10 else score in
    let score := if test isSymbol password then score + 10 else score in
    let score :=
      if has (commonPasswords P) (toLowerCase password)
      then score - 30 else score in
    let score := if hasSimplePatterns password then score - 20 else score in
    let repetitionPenalty := (len - Z.of_nat (distinct password)) * 2 in
    let score := score - Z.min 10 repetitionPenalty in
    Z.max 0 (Z.min 100 score).

Definition getStrengthLabel (P : Policy) (password : list ascii) : string :=
  let score := measureStrength P password in
  if score <? 30 then "muito fraca"
  else if score <? 50 then "fraca"
  else if score <? 75 then "média"
  else if score <? 90 then "forte"
  else "muito forte".

(** *** The password generator

    Every [Math.floor(Math.random() * n)] of [generateStrongPassword]
    yields some index below [n].  The outcomes of the successive calls are
    supplied as a list of numbers; a number is reduced modulo [n], and a
    list that has run out keeps yielding 0, so that every list denotes one
    run of the generator and every run is denoted by some list. *)
Definition randomBelow (n : nat) (rnd : list nat) : nat * list nat :=
  match rnd with
  | [] => (0%nat, [])
  | r :: rest => ((r mod n)%nat, rest)
  end.

(** [s[k]] appended to a string: the text [undefined] out of range. *)
Definition indexText (s : list ascii) (k : nat) : list ascii :=
  match nth_error s k with
  | Some c => [c]
  | None => chars "undefined"
  end.

Definition pick (s : list ascii) (rnd : list nat) : list ascii * list nat :=
  let (k, rnd') := randomBelow (length s) rnd in
  (indexText s k, rnd').

(** [for (let i = 4; i < length; i++) password += allChars[...]], [count]
    being the number of iterations. *)
Fixpoint fillRest (count : nat) (allChars password : list ascii)
  (rnd : list nat) : list ascii * list nat :=
  match count with
  | O => (password, rnd)
  | S count' =>
      let (x, rnd') := pick allChars rnd in
      fillRest count' allChars (password ++ x) rnd'
  end.

(** [[arr[i], arr[j]] = [arr[j], arr[i]]]. *)
Definition swap (arr : list ascii) (i j : nat) : list ascii :=
  match arr !! i, arr !! j with
  | Some ai, Some aj => <[j:=ai]> (<[i:=aj]> arr)
  | _, _ => arr
  end.

(** [for (let i = n; i > 0; i--) { j = floor(random() * (i + 1)); swap }]. *)
Fixpoint shuffleFrom (i : nat) (arr : list ascii) (rnd : list nat)
  : list ascii * list nat :=
  match i with
  | O => (arr, rnd)
  | S i' =>
      let (j, rnd') := randomBelow (i + 1) rnd in
      shuffleFrom i' (swap arr i j) rnd'
  end.

Definition lowercase : list ascii := chars "abcdefghijklmnopqrstuvwxyz".
Definition uppercase : list ascii := chars "ABCDEFGHIJKLMNOPQRSTUVWXYZ".
Definition numbers : list ascii := chars "0123456789".
Definition special : list ascii := chars "!@#$%^&*()_+-=[]{}|;:,.<>?".
Definition allChars : list ascii :=
  lowercase ++ uppercase ++ numbers ++ special.

Definition generateStrongPassword (rnd : list nat) : list ascii :=
  let (r, rnd) := randomBelow 5 rnd in
  let length' := (12 + r)%nat in
  let password := [] in
  let (x, rnd) := pick lowercase rnd in
  let password := password ++ x in
  let (x, rnd) := pick uppercase rnd in
  let password := password ++ x in
  let (x, rnd) := pick numbers rnd in
  let password := password ++ x in
  let (x, rnd) := pick special rnd in
  let password := password ++ x in
  let (password, rnd) := fillRest (length' - 4) allChars password rnd in
  let passwordArray := password in
  let (passwordArray, rnd) :=
    shuffleFrom (length passwordArray - 1) passwordArray rnd in
  passwordArray.

(** *** The validity rules as the design document words them

    Written from the document, to be compared with [validate]. *)

(** [t] occurs in [s] as a run of consecutive characters. *)
Definition occursIn (t s : list ascii) : Prop :=
  exists pre post, s = pre ++ t ++ post.

(** A 3-character substring of a keyboard-adjacency sequence. *)
Definition keyboardTriple (t : list ascii) : Prop :=
  length t = 3%nat /\ exists seq, In seq keyboardSequences /\ occursIn t seq.

(** A 3-character ascending or descending run in codepoint order. *)
Definition codepointRun (a b c : ascii) : Prop :=
  (charCode b = charCode a + 1 /\ charCode c = charCode b + 1) \/
  (charCode b = charCode a - 1 /\ charCode c = charCode b - 1).

Definition simplePattern (s : list ascii) : Prop :=
  (exists t, keyboardTriple t /\ occursIn t s) \/
  (exists c, occursIn [c; c; c] s) \/
  (exists a b c, codepointRun a b c /\ occursIn [a; b; c] s).

(** The rules other than the pattern rule. *)
Definition meetsBasicRules (P : Policy) (p : list ascii) : Prop :=
  minLength P <= Z.of_nat (length p) <= maxLength P /\
  (exists c, In c p /\ isUpper c = true) /\
  (exists c, In c p /\ isLower c = true) /\
  (exists c, In c p /\ isDigit c = true) /\
  (exists c, In c p /\ isSymbol c = true) /\
  ~ In (toLowerCase p) (commonPasswords P).

(** Validity with the pattern rule read on the password as typed. *)
Definition statedValid (P : Policy) (p : list ascii) : Prop :=
  meetsBasicRules P p /\ ~ simplePattern p.

(** Validity with the pattern rule read on the lower-cased password. *)
Definition lowerCasedValid (P : Policy) (p : list ascii) : Prop :=
  meetsBasicRules P p /\ ~ simplePattern (toLowerCase p).

(** The rule each message names, for a non-empty password. *)
Definition violated (P : Policy) (p : list ascii) (m : string) : Prop :=
  (m = msgTooShort P /\ Z.of_nat (length p) < minLength P) \/
  (m = msgTooLong P /\ maxLength P < Z.of_nat (length p)) \/
  (m = msgUppercase /\ ~ exists c, In c p /\ isUpper c = true) \/
  (m = msgLowercase /\ ~ exists c, In c p /\ isLower c = true) \/
  (m = msgDigit /\ ~ exists c, In c p /\ isDigit c = true) \/
  (m = msgSymbol /\ ~ exists c, In c p /\ isSymbol c = true) \/
  (m = msgCommon /\ In (toLowerCase p) (commonPasswords P)) \/
  (m = msgPattern /\ simplePattern (toLowerCase p)).

End PasswordPolicy.

(** ** server/storage: [DatabaseStorage] over the users table

    The table is the list of its rows; an [update ... where id = n]
    rewrites every row with that id.  The database promises no order for a
    [select] without [ORDER BY], and an update may change the order it
    returns: the order of the list stands for none of that, and what is
    stated below is stated of rows, found by their columns, never of
    positions.  A statement that the database rejects makes the storage
    method return [false]; that path is not modelled, every update
    succeeds. *)

Module Storage.
Import Schema.

Definition Db := list User.

Definition setFailedLoginAttempts (v : option Z) (u : User) : User :=
  mkUser (id u) (username u) (password u) (email u) (bio u) (role u)
    (createdAt u) (lastLogin u) v (accountStatus u)
    (passwordResetToken u) (passwordResetExpires u) (lastPasswordReset u).

Definition setLastLogin (v : option Z) (u : User) : User :=
  mkUser (id u) (username u) (password u) (email u) (bio u) (role u)
    (createdAt u) v (failedLoginAttempts u) (accountStatus u)
    (passwordResetToken u) (passwordResetExpires u) (lastPasswordReset u).

Definition setAccountStatus (v : AccountStatus) (u : User) : User :=
  mkUser (id u) (username u) (password u) (email u) (bio u) (role u)
    (createdAt u) (lastLogin u) (failedLoginAttempts u) v
    (passwordResetToken u) (passwordResetExpires u) (lastPasswordReset u).

Definition setResetToken (token : option string) (expires : option Z)
  (u : User) : User :=
  mkUser (id u) (username u) (password u) (email u) (bio u) (role u)
    (createdAt u) (lastLogin u) (failedLoginAttempts u) (accountStatus u)
    token expires (lastPasswordReset u).

(** [update(users).set(f).where(eq(users.id, userId))]. *)
Definition updateWhereId (userId : Z) (f : User -> User) (db : Db) : Db :=
  map (fun row => if id row =? userId then f row else row) db.

(** [const [user] = await db.select().from(users).where(cond)]. *)
Definition selectFirst (cond : User -> bool) (db : Db) : option User :=
  List.find cond db.

Definition getUser (db : Db) (userId : Z) : option User :=
  selectFirst (fun row => id row =? userId) db.

Definition getUserByUsername (db : Db) (name : string) : option User :=
  selectFirst (fun row => String.eqb (username row) name) db.

Definition getUserByEmail (db : Db) (mail : string) : option User :=
  selectFirst (fun row => String.eqb (email row) mail) db.

(** [x || 0] and SQL's [COALESCE(x, 0)] on a nullable integer. *)
Definition orZero (x : option Z) : Z :=
  match x with
  | Some v => v
  | None => 0
  end.

Definition incrementLoginAttempt (userId : Z) (db : Db) : Db :=
  updateWhereId userId
    (fun row =>
       setFailedLoginAttempts (Some (orZero (failedLoginAttempts row) + 1)) row)
    db.

Definition resetUserLoginAttempts (userId : Z) (db : Db) : Db :=
  updateWhereId userId (setFailedLoginAttempts (Some 0)) db.

Definition updateUserLastLogin (userId : Z) (date : Z) (db : Db) : Db :=
  updateWhereId userId (setLastLogin (Some date)) db.

Definition updateUserAccountStatus (userId : Z) (status : AccountStatus)
  (db : Db) : Db :=
  updateWhereId userId (setAccountStatus status) db.

Definition setPasswordResetToken (userId : Z) (token : string) (expires : Z)
  (db : Db) : Db :=
  updateWhereId userId (setResetToken (Some token) (Some expires)) db.

(** [eq(users.passwordResetToken, token)]: a [NULL] column matches
    nothing. *)
Definition holdsResetToken (token : string) (row : User) : bool :=
  match passwordResetToken row with
  | Some t => String.eqb t token
  | None => false
  end.

Definition getUserByResetToken (db : Db) (token : string) : option User :=
  selectFirst (holdsResetToken token) db.

(** The row written by [resetPassword]; [now] is the [new Date()] taken
    inside the method. *)
Definition passwordReplaced (newPasswordHash : string) (now : Z) (u : User)
  : User :=
  mkUser (id u) (username u) newPasswordHash (email u) (bio u) (role u)
    (createdAt u) (lastLogin u) (Some 0) active None None (Some now).

Definition resetPassword (now : Z) (userId : Z) (newPasswordHash : string)
  (db : Db) : Db :=
  updateWhereId userId (passwordReplaced newPasswordHash now) db.

(** An update that leaves the columns used to find a row alone. *)
Definition keepsIdentity (f : User -> User) : Prop :=
  forall row,
    id (f row) = id row /\ username (f row) = username row /\
    email (f row) = email row.

End Storage.

(** ** server/auth: session tokens and the login route *)

Module Auth.
Import Schema Storage.

(** The values that occur in the JSON objects built here. *)
Inductive JsValue :=
| JNumber (n : Z)
| JString (s : string)
| JDate (t : Z)
| JNull
| JUndefined.

Definition JsObject := list (string * JsValue).

(** [obj[key]]. *)
Fixpoint field (key : string) (obj : JsObject) : option JsValue :=
  match obj with
  | [] => None
  | (k, v) :: rest => if String.eqb k key then Some v else field key rest
  end.

Definition nullable {A} (f : A -> JsValue) (o : option A) : JsValue :=
  match o with
  | Some v => f v
  | None => JNull
  end.

Definition accountStatusValue (s : AccountStatus) : string :=
  match s with
  | active => "active"
  | locked => "locked"
  | suspended => "suspended"
  | inactive => "inactive"
  end.

(** [const { password, ...userWithoutPassword } = user]. *)
Definition withoutPassword (u : User) : JsObject :=
  [ ("id", JNumber (id u));
    ("username", JString (username u));
    ("email", JString (email u));
    ("bio", nullable JString (bio u));
    ("role", nullable JString (role u));
    ("createdAt", nullable JDate (createdAt u));
    ("lastLogin", nullable JDate (lastLogin u));
    ("failedLoginAttempts", nullable JNumber (failedLoginAttempts u));
    ("accountStatus", JString (accountStatusValue (accountStatus u)));
    ("passwordResetToken", nullable JString (passwordResetToken u));
    ("passwordResetExpires", nullable JDate (passwordResetExpires u));
    ("lastPasswordReset", nullable JDate (lastPasswordReset u)) ].

(** What [parseInt] makes of a string of digits.  Up to 2^53 every
    integer is a number and the result is [Exactly] the value; above, the
    result is a number [Near] the value: the value rounded to a number
    ([Infinity] beyond their range), and for more than 20 digits an
    approximation of the implementation's choosing. *)
Inductive ParsedInt :=
| Exactly (n : Z)
| Near (n : Z).

(** The [expiresIn] option of [jwt.sign]: a number of seconds, or a time
    span in text. *)
Inductive ExpiresIn :=
| Seconds (n : ParsedInt)
| Timespan (s : string).

Definition digitValue (c : ascii) : option Z :=
  let n := Z.of_N (N_of_ascii c) in
  if (48 <=? n) && (n <=? 57) then Some (n - 48) else None.

(** [/^\d+$/.test(s)] and [parseInt(s, 10)] on such a string. *)
Fixpoint allDigits (s : string) : bool :=
  match s with
  | EmptyString => true
  | String c rest =>
      match digitValue c with
      | Some _ => allDigits rest
      | None => false
      end
  end.

Definition isDecimal (s : string) : bool :=
  negb (String.eqb s "") && allDigits s.

Fixpoint parseDigits (acc : Z) (s : string) : Z :=
  match s with
  | EmptyString => acc
  | String c rest => parseDigits (acc * 10 + orZero (digitValue c)) rest
  end.

Definition parseInt (s : string) : ParsedInt :=
  let n := parseDigits 0 s in
  if n <=? 2 ^ 53 then Exactly n else Near n.

(** The length in seconds that the token library gives an [expiresIn]:
    a number counts seconds; of the textual spans only the form
    digits-then-unit with the units [s], [m], [h], [d] and [w] is
    covered here, [None] standing for every other text. *)
Fixpoint spanSeconds (acc : Z) (seenDigit : bool) (s : string) : option Z :=
  match s with
  | EmptyString => None
  | String c rest =>
      match digitValue c with
      | Some d => spanSeconds (acc * 10 + d) true rest
      | None =>
          if seenDigit && String.eqb rest "" then
            if Ascii.eqb c "s" then Some acc
            else if Ascii.eqb c "m" then Some (acc * 60)
            else if Ascii.eqb c "h" then Some (acc * 3600)
            else if Ascii.eqb c "d" then Some (acc * 86400)
            else if Ascii.eqb c "w" then Some (acc * 604800)
            else None
          else None
      end
  end.

Definition lifetimeSeconds (e : ExpiresIn) : option Z :=
  match e with
  | Seconds (Exactly n) => Some n
  | Seconds (Near _) => None
  | Timespan s => spanSeconds 0 false s
  end.

Definition sevenDays : Z := 7 * 24 * 60 * 60.

Definition MAX_LOGIN_ATTEMPTS : Z := 5.
Definition ACCOUNT_LOCK_TIME_MS : Z := 30 * 60 * 1000.

(** [Math.ceil(a / b)] for a positive [b]. *)
Definition ceilDiv (a b : Z) : Z := - ((- a) / b).

(** [s.includes('@')]. *)
Fixpoint containsAt (s : string) : bool :=
  match s with
  | EmptyString => false
  | String c rest => Ascii.eqb c "@" || containsAt rest
  end.

(** The lookup by e-mail address or by user name that opens the login
    handler. *)
Definition findByIdentifier (db : Db) (identifier : string) : option User :=
  if containsAt identifier
  then getUserByEmail db identifier
  else getUserByUsername db identifier.

(** [u] is the row the login handler finds for [identifier], and the row
    its updates by id reach. *)
Definition accountIs (db : Db) (identifier : string) (u : User) : Prop :=
  findByIdentifier db identifier = Some u /\ getUser db (id u) = Some u.

Record LoginBody := mkLoginBody {
  bodyUsername : option string;
  bodyPassword : string
}.

Inductive LoginResponse :=
| InvalidCredentials (remainingAttempts : option Z)
| AccountLocked (remainingMinutes : Z)
| AccountSuspended
| AccountInactive
| LoggedIn (user : JsObject) (token : string)
| InternalError.

Section WithEnvironment.

(** [process.env.JWT_EXPIRES_IN], the rendering [Date.prototype.toString]
    and the outcome of [argon2.verify(stored, supplied)].

    [jwtSign now payload expiresIn] is [jwt.sign(payload, JWT_SECRET,
    { expiresIn })] called at the time [now], which the library stamps the
    token with: the signed token, or nothing when the library throws, as
    it does for an [expiresIn] that it cannot read. *)
Variable envJwtExpiresIn : option string.
Variable dateToString : Z -> string.
Variable jwtSign : Z -> JsObject -> ExpiresIn -> option string.
Variable comparePasswords : string -> string -> bool.

Definition JWT_EXPIRES_IN : string := orDefault envJwtExpiresIn "7d".

(** The [payload] and the [expiresIn] that [generateToken] builds. *)
Definition payload (user : User) : JsObject :=
  [ ("id", JNumber (id user));
    ("username", JString (username user));
    ("email", JString (email user));
    ("role", match role user with
             | Some r => JString r
             | None => JUndefined
             end);
    ("bio", nullable JString (bio user));
    ("createdAt", match createdAt user with
                  | Some t => JString (dateToString t)
                  | None => JUndefined
                  end) ].

Definition expiresIn : ExpiresIn :=
  if isDecimal JWT_EXPIRES_IN
  then Seconds (parseInt JWT_EXPIRES_IN)
  else Timespan JWT_EXPIRES_IN.

(** [generateToken(user)] at the time [now]; whatever is thrown inside is
    caught and thrown again as the error of the function. *)
Definition generateToken (now : Z) (user : User) : Completion string :=
  match jwtSign now (payload user) expiresIn with
  | Some token => Normal token
  | None => Throw (Error "Falha na geração do token de autenticação")
  end.

(** The part of [POST /api/login] after the account-status checks: the
    password check on the handler's copy [user] of the row. *)
Definition checkPassword (now : Z) (db : Db) (user : User) (body : LoginBody)
  : Db * LoginResponse :=
  let validPassword := comparePasswords (bodyPassword body) (password user) in
  if negb validPassword then
    let newAttempts := orZero (failedLoginAttempts user) + 1 in
    let db := incrementLoginAttempt (id user) db in
    if MAX_LOGIN_ATTEMPTS <=? newAttempts then
      let db := updateUserAccountStatus (id user) locked db in
      let db := updateUserLastLogin (id user) now db in
      (db, AccountLocked 30)
    else
      (db, InvalidCredentials (Some (MAX_LOGIN_ATTEMPTS - newAttempts)))
  else
    let db := resetUserLoginAttempts (id user) db in
    let db := updateUserLastLogin (id user) now db in
    match generateToken now user with
    | Normal token => (db, LoggedIn (withoutPassword user) token)
    | Throw _ => (db, InternalError)
    end.

(** [POST /api/login] at time [now].  Reading [getTime()] off a [null]
    [lastLogin] throws, and so may [generateToken]; the handler's [catch]
    passes the error on, which is the answer [InternalError]. *)
Definition login (now : Z) (db : Db) (body : LoginBody) : Db * LoginResponse :=
  let identifier := orDefault (bodyUsername body) "" in
  match findByIdentifier db identifier with
  | None => (db, InvalidCredentials None)
  | Some user =>
      match accountStatus user with
      | locked =>
          match lastLogin user with
          | None => (db, InternalError)
          | Some since =>
              let lockExpireTime := since + ACCOUNT_LOCK_TIME_MS in
              if now <? lockExpireTime then
                let remainingTimeMs := lockExpireTime - now in
                let remainingMinutes := ceilDiv remainingTimeMs (60 * 1000) in
                (db, AccountLocked remainingMinutes)
              else
                let db := updateUserAccountStatus (id user) active db in
                let db := resetUserLoginAttempts (id user) db in
                let user :=
                  setFailedLoginAttempts (Some 0)
                    (setAccountStatus active user) in
                checkPassword now db user body
          end
      | suspended => (db, AccountSuspended)
      | inactive => (db, AccountInactive)
      | active => checkPassword now db user body
      end
  end.

(** A series of login requests, each with the time it arrives at. *)
Fixpoint loginSeries (attempts : list (Z * LoginBody)) (db : Db)
  : Db * list LoginResponse :=
  match attempts with
  | [] => (db, [])
  | (now, body) :: rest =>
      let (db1, response) := login now db body in
      let (db2, responses) := loginSeries rest db1 in
      (db2, response :: responses)
  end.

End WithEnvironment.

End Auth.

(** ** server/routes: the password-reset routes *)

Module Routes.
Import Schema Storage.

Inductive ValidateResponse :=
| TokenParameterInvalid
| TokenInvalidOrExpired
| TokenValid (userId : Z).

(** [GET /api/reset-password/:token] at time [now]. *)
Definition validateResetToken (now : Z) (db : Db) (token : string)
  : ValidateResponse :=
  if String.eqb token "" then TokenParameterInvalid
  else
    match getUserByResetToken db token with
    | None => TokenInvalidOrExpired
    | Some user =>
        match passwordResetExpires user with
        | None => TokenInvalidOrExpired
        | Some expires =>
            if expires <? now then TokenInvalidOrExpired
            else TokenValid (id user)
        end
    end.

Record ResetBody := mkResetBody {
  bodyToken : option string;
  bodyNewPassword : option string
}.

Inductive ResetResponse :=
| ParametersInvalid
| ResetTokenInvalidOrExpired
| PasswordReset.

(** [!x] for a body field that should be a string: absent or empty. *)
Definition missing (x : option string) : bool :=
  match x with
  | Some s => String.eqb s ""
  | None => true
  end.

(** [POST /api/reset-password] at time [now]; [hashPassword] is the
    outcome of [argon2.hash] for this request.  The confirmation mail sent
    afterwards does not touch the table. *)
Definition resetPasswordRoute (hashPassword : string -> string) (now : Z)
  (db : Db) (body : ResetBody) : Db * ResetResponse :=
  match bodyToken body, bodyNewPassword body with
  | Some token, Some newPassword =>
      if missing (Some token) || missing (Some newPassword)
      then (db, ParametersInvalid)
      else
        match getUserByResetToken db token with
        | None => (db, ResetTokenInvalidOrExpired)
        | Some user =>
            match passwordResetExpires user with
            | None => (db, ResetTokenInvalidOrExpired)
            | Some expires =>
                if expires <? now then (db, ResetTokenInvalidOrExpired)
                else
                  let hashedPassword := hashPassword newPassword in
                  let db := resetPassword now (id user) hashedPassword db in
                  (db, PasswordReset)
            end
        end
  | _, _ => (db, ParametersInvalid)
  end.

End Routes.

(** ** server/security: the CSRF token store and its middleware *)

Module Security.

Record CsrfEntry := mkCsrfEntry {
  expires : Z;
  userId : option Z
}.

(** [activeCsrfTokens], a [Map] from token value to entry. *)
Abbreviation TokenStore := (gmap string CsrfEntry).

(** The timer callback that runs every 60000 ms. *)
Definition sweep (now : Z) (tokens : TokenStore) : TokenStore :=
  filter (fun entry : string * CsrfEntry => ¬ (expires (snd entry) < now))
    tokens.

Record Request := mkRequest {
  method : string;
  path : string;
  headerCsrfToken : option string;
  bodyCsrf : option string;
  requestUserId : option Z
}.

(** [a || b] on strings that may be absent. *)
Definition firstTruthy (a b : option string) : option string :=
  match a with
  | Some s => if String.eqb s "" then b else a
  | None => b
  end.

Definition bypassRoutes : list string :=
  [ "/api/login"; "/api/register"; "/api/forgot-password";
    "/api/reset-password" ].

Definition isMethodSafe (req : Request) : bool :=
  includes ["GET"; "HEAD"; "OPTIONS"] (method req).

(** [!csrfToken || !activeCsrfTokens.has(csrfToken)]. *)
Definition tokenRefused (tokens : TokenStore) (csrfToken : option string)
  : bool :=
  match csrfToken with
  | None => true
  | Some t =>
      String.eqb t "" ||
      match tokens !! t with
      | Some _ => false
      | None => true
      end
  end.

Inductive Outcome :=
| CsrfError
| Next (issued : string).

Definition tokenLifetimeMs : Z := 24 * 60 * 60 * 1000.

(** The middleware at time [now]; [fresh] is the value
    [generateSecureToken(16)] returns in this request. *)
Definition csrfMiddleware (now : Z) (fresh : string) (tokens : TokenStore)
  (req : Request) : TokenStore * Outcome :=
  let csrfToken := firstTruthy (headerCsrfToken req) (bodyCsrf req) in
  if String.prefix "/api" (path req) && negb (isMethodSafe req) &&
     (negb (includes bypassRoutes (path req)) && tokenRefused tokens csrfToken)
  then (tokens, CsrfError)
  else
    let entry := mkCsrfEntry (now + tokenLifetimeMs) (requestUserId req) in
    (<[fresh := entry]> tokens, Next fresh).

(** What happens to the store over time: requests and timer ticks. *)
Inductive Event :=
| Incoming (now : Z) (fresh : string) (req : Request)
| SweepTick (now : Z).

Definition eventTime (ev : Event) : Z :=
  match ev with
  | Incoming now _ _ => now
  | SweepTick now => now
  end.

Definition step (tokens : TokenStore) (ev : Event) : TokenStore :=
  match ev with
  | Incoming now fresh req => fst (csrfMiddleware now fresh tokens req)
  | SweepTick now => sweep now tokens
  end.

Definition run (events : list Event) (tokens : TokenStore) : TokenStore :=
  fold_left step events tokens.

(** A request the check applies to: an unsafe method on an [/api] path
    outside the allow-list. *)
Definition guarded (req : Request) : Prop :=
  String.prefix "/api" (path req) = true /\
  isMethodSafe req = false /\
  ~ In (path req) bypassRoutes.

End Security.

(** ** Sample data used by the examples below *)

Module Samples.
Import Schema.

Definition account (n : Z) (name : string) (r : option string) : User :=
  mkUser n name "$argon2id$stored" (String.append name "@example.com") None r
    (Some 0) (Some 0) (Some 0) active None None None.

Definition adminUser : User := account 1 "root" (Some "admin").
Definition regularUser : User := account 2 "maria" (Some "user").
Definition guestUser : User := account 3 "guest" (Some "moderator").
Definition oddUser : User := account 4 "odd" (Some "constructor").

(** Two passwords on which lower-casing changes the pattern rule. *)
Definition mixedCasePassword : list ascii := PasswordPolicy.chars "aAa1!kpw".
Definition bracketPassword : list ascii := PasswordPolicy.chars "YZ[a1kpw".

(** One run of the generator: length 12, the first character of each
    class, eight times the first character of [allChars], and a shuffle
    whose every [j] equals [i]. *)
Definition repeatingDraws : list nat :=
  [0; 0; 0; 0; 0; 0; 0; 0; 0; 0; 0; 0; 0;
   11; 10; 9; 8; 7; 6; 5; 4; 3; 2; 1]%nat.

Definition usersTable : list User := [adminUser; regularUser; guestUser].

Definition lockedUser : User :=
  mkUser 5 "lia" "$argon2id$stored" "lia@example.com" None (Some "user")
    (Some 0) (Some 1000000) (Some 5) locked None None None.

Definition minute : Z := 60 * 1000.

(** Five wrong passwords, the right one ten minutes after the first, and
    the right one again once the half hour is over. *)
Definition lockoutScenario : list (Z * Auth.LoginBody) :=
  [ (1 * minute, Auth.mkLoginBody (Some "maria") "guess1");
    (2 * minute, Auth.mkLoginBody (Some "maria") "guess2");
    (3 * minute, Auth.mkLoginBody (Some "maria") "guess3");
    (4 * minute, Auth.mkLoginBody (Some "maria") "guess4");
    (5 * minute, Auth.mkLoginBody (Some "maria") "guess5");
    (10 * minute, Auth.mkLoginBody (Some "maria") "stored");
    (35 * minute, Auth.mkLoginBody (Some "maria") "stored") ].

(** An account with an outstanding reset token that expires at the end
    of the first hour. *)
Definition resetUser : User :=
  mkUser 6 "nuno" "$argon2id$old" "nuno@example.com" None (Some "user")
    (Some 0) (Some 0) (Some 3) inactive (Some "5f2a9c") (Some (60 * minute))
    None.

Definition resetTable : list User := [adminUser; resetUser; regularUser].

(** A page load that gets a CSRF token issued, the timer tick at the very
    moment the token expires, and a later write that presents the token. *)
Definition pageLoad : Security.Request :=
  Security.mkRequest "GET" "/api/games" None None None.

Definition writeWith (token : string) : Security.Request :=
  Security.mkRequest "POST" "/api/games" (Some token) None (Some 2).

Definition day : Z := 24 * 60 * minute.

Definition csrfHistory : list Security.Event :=
  [ Security.Incoming 0 "c0ffee" pageLoad; Security.SweepTick day ].

(** A stand-in for [argon2.hash]. *)
Definition hashStub (password : string) : string :=
  String.append "$argon2id$" password.

(** A stand-in for [argon2.verify]: the stored record of [secret] is
    [$argon2id$secret]. *)
Definition verifyStub (supplied stored : string) : bool :=
  String.eqb stored (String.append "$argon2id$" supplied).

(** A stand-in for [jwt.sign]: it signs whenever the expiry is a number
    of seconds or a span of digits and one unit, and throws otherwise. *)
Definition signStub (now : Z) (payload : Auth.JsObject)
  (expiresIn : Auth.ExpiresIn) : option string :=
  match Auth.lifetimeSeconds expiresIn with
  | Some _ => Some "eyJhbGciOiJIUzI1NiJ9.e30.c2lnbmVk"
  | None => None
  end.

(** A stand-in for [Date.prototype.toString]. *)
Definition printDate (t : Z) : string := "Thu Jan 01 1970 00:00:00 GMT+0000".

End Samples.

(** ** server/rbac: the route guards *)

Module RbacMiddleware.
Import Schema Rbac.

(** What the guards read of a request: [req.user] and [req.params.id]. *)
Record GuardRequest := mkGuardRequest {
  reqUser : option User;
  paramsId : option string
}.

Inductive GuardResponse :=
| Unauthorized
| Forbidden
| BadRequest
| PassOn.

(** [!resourceId]. *)
Definition absent (x : option string) : bool :=
  match x with
  | Some s => String.eqb s ""
  | None => true
  end.

(** [requirePermission(permission, checkOwnership)] applied to a request.
    The branch on [permission.startsWith(Resource.GAMES)] has an empty
    body; an exception of [hasPermission] leaves the guard. *)
Definition requirePermission (permission : Permission) (checkOwnership : bool)
  (req : GuardRequest) : Completion GuardResponse :=
  match reqUser req with
  | None => Normal Unauthorized
  | Some u =>
      match hasPermission (Some u) permission with
      | Throw e => Throw e
      | Normal false => Normal Forbidden
      | Normal true =>
          if checkOwnership then
            let resourceId := paramsId req in
            if absent resourceId then Normal BadRequest
            else
              if String.prefix (resourceValue GAMES) permission
              then Normal PassOn
              else Normal PassOn
          else Normal PassOn
      end
  end.

(** [req.user.role !== 'admin']. *)
Definition isAdminRole (r : option string) : bool :=
  match r with
  | Some s => String.eqb s "admin"
  | None => false
  end.

Definition requireAdmin (req : GuardRequest) : GuardResponse :=
  match reqUser req with
  | None => Unauthorized
  | Some u => if isAdminRole (role u) then PassOn else Forbidden
  end.

Definition requireAuth (req : GuardRequest) : GuardResponse :=
  match reqUser req with
  | None => Unauthorized
  | Some _ => PassOn
  end.

End RbacMiddleware.

(** ** server/crypto: tokens and salted hashes

    A buffer is the list of its bytes, one [ascii] per byte.  The bytes
    delivered by [crypto.randomBytes] are an argument; the HMAC-SHA256
    digest is a parameter. *)

Module Crypto.

Definition hexDigits : list ascii := list_ascii_of_string "0123456789abcdef".

Definition hexDigit (n : N) : ascii := nth (N.to_nat n) hexDigits "0"%char.

(** [buffer.toString('hex')]: two lower-case digits per byte. *)
Definition hexByte (b : ascii) : list ascii :=
  let n := N_of_ascii b in
  [hexDigit (n / 16); hexDigit (n mod 16)]%N.

Definition toHex (buffer : list ascii) : string :=
  string_of_list_ascii (flat_map hexByte buffer).

(** [generateSecureToken(size)], [randomBytes] being the buffer of [size]
    bytes that [crypto.randomBytes(size)] returned. *)
Definition generateSecureToken (randomBytes : list ascii) : string :=
  toHex randomBytes.

(** [s.split(sep)] for a one-character separator. *)
Fixpoint split (sep : ascii) (s : string) : list string :=
  match s with
  | EmptyString => [EmptyString]
  | String c rest =>
      if Ascii.eqb c sep then EmptyString :: split sep rest
      else
        match split sep rest with
        | piece :: pieces => String c piece :: pieces
        | [] => [String c EmptyString]
        end
  end.

Section WithHmac.

(** [createHmac('sha256', key).update(data).digest()]. *)
Variable hmacSha256 : string -> string -> list ascii.

(** [hashWithSalt(data)], [saltBytes] being the 16 random bytes. *)
Definition hashWithSalt (saltBytes : list ascii) (data : string) : string :=
  let salt := toHex saltBytes in
  let hash := toHex (hmacSha256 salt data) in
  String.append hash (String.append "." salt).

(** [verifyHashWithSalt(data, hashWithSalt)].  Without a second piece the
    salt is [undefined], [createHmac] throws and the [catch] answers
    [false]. *)
Definition verifyHashWithSalt (data : string) (hashAndSalt : string) : bool :=
  match split "." hashAndSalt with
  | storedHash :: salt :: _ =>
      let calculatedHash := toHex (hmacSha256 salt data) in
      String.eqb storedHash calculatedHash
  | _ => false
  end.

End WithHmac.

(** The value of a hexadecimal digit and the byte of a pair of digits, to
    state that [toHex] loses nothing. *)
Definition hexValue (c : ascii) : option N :=
  let n := N_of_ascii c in
  if ((48 <=? n) && (n <=? 57))%N then Some (n - 48)%N
  else if ((97 <=? n) && (n <=? 102))%N then Some (n - 87)%N
  else None.

Fixpoint fromHex (digits : list ascii) : option (list ascii) :=
  match digits with
  | [] => Some []
  | hi :: lo :: rest =>
      match hexValue hi, hexValue lo, fromHex rest with
      | Some h, Some l, Some bytes => Some (ascii_of_N (h * 16 + l) :: bytes)
      | _, _, _ => None
      end
  | [_] => None
  end.

End Crypto.

(** ** server/proxy: the response cache of [ServerProxy]

    A JavaScript [Map] is the list of its entries in insertion order, with
    pairwise distinct keys: [set] on a present key replaces the value where
    it stands, [set] on a new key appends.  The cached [data] is of an
    arbitrary type; the cache key (a SHA-256 digest) is an argument. *)

Module Proxy.

Section WithData.

Variable Data : Type.

Record CacheEntry := mkCacheEntry {
  data : Data;
  timestamp : Z
}.

Definition Cache := list (string * CacheEntry).

Fixpoint mapGet (key : string) (m : Cache) : option CacheEntry :=
  match m with
  | [] => None
  | (k, v) :: rest => if String.eqb k key then Some v else mapGet key rest
  end.

Fixpoint mapSet (key : string) (value : CacheEntry) (m : Cache) : Cache :=
  match m with
  | [] => [(key, value)]
  | (k, v) :: rest =>
      if String.eqb k key then (k, value) :: rest
      else (k, v) :: mapSet key value rest
  end.

Fixpoint mapDelete (key : string) (m : Cache) : Cache :=
  match m with
  | [] => []
  | (k, v) :: rest =>
      if String.eqb k key then rest else (k, v) :: mapDelete key rest
  end.

Definition cacheSize : nat := 100.
Definition cacheTTL : Z := 300.

(** [getFromCache(key)] at time [now]: the data, or [null], and the cache
    it leaves. *)
Definition getFromCache (now : Z) (key : string) (cache : Cache)
  : option Data * Cache :=
  match mapGet key cache with
  | None => (None, cache)
  | Some entry =>
      let maxAge := cacheTTL * 1000 in
      if maxAge <? now - timestamp entry
      then (None, mapDelete key cache)
      else (Some (data entry), cache)
  end.

Definition addToCache (now : Z) (key : string) (d : Data) (cache : Cache)
  : Cache :=
  mapSet key (mkCacheEntry d now) cache.

(** [findOldestCacheEntry()]; [oldestTime] starts at [Infinity], which is
    [None] here. *)
Definition olderThan (t : Z) (oldestTime : option Z) : bool :=
  match oldestTime with
  | None => true
  | Some o => t <? o
  end.

(** One round of the [forEach]: [(oldestKey, oldestTime)] after the
    entry [kv]. *)
Definition scanEntry (acc : option string * option Z)
  (kv : string * CacheEntry) : option string * option Z :=
  if olderThan (timestamp (snd kv)) (snd acc)
  then (Some (fst kv), Some (timestamp (snd kv)))
  else acc.

Definition findOldestCacheEntry (cache : Cache) : option string :=
  match cache with
  | [] => None
  | _ :: _ => fst (fold_left scanEntry cache (None, None))
  end.

(** The end of [proxyRequest] after a successful GET: the response is
    stored, and when the cache then holds more than [cacheSize] entries the
    oldest one is dropped.  [cacheTime || this.cacheTTL] is positive
    whatever [cacheTime] is; [if (oldestKey)] fails for [null] and for the
    empty key. *)
Definition storeResponse (now : Z) (key : string) (d : Data)
  (cacheTime : option Z) (cache : Cache) : Cache :=
  let ttl :=
    match cacheTime with
    | Some t => if t =? 0 then cacheTTL else t
    | None => cacheTTL
    end in
  if 0 <? ttl then
    let cache := addToCache now key d cache in
    if (cacheSize <? length cache)%nat then
      match findOldestCacheEntry cache with
      | Some oldestKey =>
          if String.eqb oldestKey "" then cache else mapDelete oldestKey cache
      | None => cache
      end
    else cache
  else cache.

End WithData.

Arguments mkCacheEntry {Data} data timestamp.
Arguments data {Data} c.
Arguments timestamp {Data} c.
Arguments mapGet {Data} key m.
Arguments mapSet {Data} key value m.
Arguments mapDelete {Data} key m.
Arguments getFromCache {Data} now key cache.
Arguments addToCache {Data} now key d cache.
Arguments scanEntry {Data} acc kv.
Arguments findOldestCacheEntry {Data} cache.
Arguments storeResponse {Data} now key d cacheTime cache.

End Proxy.

(** ** server/security: input sanitising

    The texts are [list ascii] as passwords are; a parsed JSON body is a
    tree. *)

Module Sanitize.
Import PasswordPolicy.

(** [s.replace(/c/g, replacement)] for a single character [c]. *)
Definition replaceAll (target : ascii) (replacement : list ascii)
  (s : list ascii) : list ascii :=
  flat_map (fun c => if Ascii.eqb c target then replacement else [c]) s.

Definition doubleQuote : ascii := "034"%char.
Definition backslash : ascii := "092"%char.

Definition sanitizeInput (input : list ascii) : list ascii :=
  match input with
  | [] => input
  | _ :: _ =>
      let s := replaceAll "<" (chars "&lt;") input in
      let s := replaceAll ">" (chars "&gt;") s in
      let s := replaceAll doubleQuote (chars "&quot;") s in
      let s := replaceAll "'" (chars "&#x27;") s in
      let s := replaceAll "/" (chars "&#x2F;") s in
      let s := replaceAll backslash (chars "&#x5C;") s in
      replaceAll "`" (chars "&#96;") s
  end.

Local Unset Elimination Schemes.

Inductive Json :=
| JsonString (s : list ascii)
| JsonNumber (n : Z)
| JsonBool (b : bool)
| JsonNull
| JsonArray (items : list Json)
| JsonObject (fields : list (string * Json)).

Local Set Elimination Schemes.

(** [sanitizeObject(obj)], returning the object it has rewritten in place.
    Anything but an array or an object is left as it is, a string given at
    the top included; below, string values are replaced by their sanitised
    form and arrays and objects are entered.  Keys are not touched. *)
Fixpoint sanitizeObject (obj : Json) : Json :=
  match obj with
  | JsonArray items =>
      JsonArray
        (map (fun value =>
                match value with
                | JsonString s => JsonString (sanitizeInput s)
                | _ => sanitizeObject value
                end) items)
  | JsonObject fields =>
      JsonObject
        (map (fun kv =>
                (fst kv,
                 match snd kv with
                 | JsonString s => JsonString (sanitizeInput s)
                 | _ => sanitizeObject (snd kv)
                 end)) fields)
  | _ => obj
  end.

(** The characters that [sanitizeInput] escapes, the single pass that
    escapes them, and the string values and the keys of a tree, to state
    what sanitising achieves. *)
Definition escaped : list ascii :=
  ["<"; ">"; doubleQuote; "'"; "/"; backslash; "`"]%char.

Definition escapeChar (c : ascii) : list ascii :=
  if Ascii.eqb c "<" then chars "&lt;"
  else if Ascii.eqb c ">" then chars "&gt;"
  else if Ascii.eqb c doubleQuote then chars "&quot;"
  else if Ascii.eqb c "'" then chars "&#x27;"
  else if Ascii.eqb c "/" then chars "&#x2F;"
  else if Ascii.eqb c backslash then chars "&#x5C;"
  else if Ascii.eqb c "`" then chars "&#96;"
  else [c].

Definition clean (s : list ascii) : Prop :=
  forall c, In c s -> ~ In c escaped.

Fixpoint stringsBelow (j : Json) : list (list ascii) :=
  match j with
  | JsonArray items =>
      flat_map (fun value =>
                  match value with
                  | JsonString s => [s]
                  | _ => stringsBelow value
                  end) items
  | JsonObject fields =>
      flat_map (fun kv =>
                  match snd kv with
                  | JsonString s => [s]
                  | _ => stringsBelow (snd kv)
                  end) fields
  | _ => []
  end.

Fixpoint keysBelow (j : Json) : list string :=
  match j with
  | JsonArray items => flat_map keysBelow items
  | JsonObject fields =>
      flat_map (fun kv => fst kv :: keysBelow (snd kv)) fields
  | _ => []
  end.

End Sanitize.

(** ** server/auth: the token guard and the registration route *)

Module AuthRoutes.
Import Schema Storage Auth.

(** What [authenticateJWT] reads of a request: the [Authorization] header
    and the [token] cookie. *)
Record TokenRequest := mkTokenRequest {
  authorization : option string;
  cookieToken : option string
}.

(** [x] when it is truthy. *)
Definition present (x : option string) : option string :=
  match x with
  | Some s => if String.eqb s "" then None else Some s
  | None => None
  end.

(** [authHeader.split(' ')[1]]. *)
Definition bearerToken (authHeader : string) : option string :=
  nth_error (Crypto.split " " authHeader) 1.

Inductive TokenOutcome (Claims : Type) :=
| Status401
| Status403
| Verified (user : Claims).
Arguments Status401 {Claims}.
Arguments Status403 {Claims}.
Arguments Verified {Claims} user.

Section WithVerify.

(** [jwt.verify(token, JWT_SECRET)]: the decoded payload, or nothing when
    the library reports an error; it reports one for a token that is
    [undefined]. *)
Variable Claims : Type.
Variable verify : string -> option Claims.

Definition verifyToken (token : option string) : option Claims :=
  match token with
  | Some t => verify t
  | None => None
  end.

(** [authenticateJWT]: [Verified user] stands for [req.user = user;
    next()]. *)
Definition authenticateJWT (req : TokenRequest) : TokenOutcome Claims :=
  match present (authorization req) with
  | Some authHeader =>
      match verifyToken (bearerToken authHeader) with
      | Some user => Verified user
      | None => Status403
      end
  | None =>
      match present (cookieToken req) with
      | Some token =>
          match verify token with
          | Some user => Verified user
          | None => Status403
          end
      | None => Status401
      end
  end.

End WithVerify.

Arguments verifyToken {Claims} verify token.
Arguments authenticateJWT {Claims} verify req.

(** A column of the users table in the body of the request: not sent,
    sent with a value that the database refuses for the column (a value of
    the wrong type, a [null] where the column forbids it, a text outside an
    enumeration), or sent and read as the value [v]. *)
Inductive Sent (A : Type) :=
| Missing
| Refused
| Read (v : A).
Arguments Missing {A}.
Arguments Refused {A}.
Arguments Read {A} v.

(** The body of [POST /api/register]: the three fields of the registration
    form and whatever further columns the client adds.  The handler spreads
    the whole body into the values it inserts; a [password], [lastLogin] or
    [failedLoginAttempts] of the body is overwritten there, and a key that
    names no column is ignored by the insert. *)
Record RegisterBody := mkRegisterBody {
  regUsername : string;
  regEmail : string;
  regPassword : string;
  regId : Sent Z;
  regBio : Sent (option string);
  regRole : Sent string;
  regCreatedAt : Sent (option Z);
  regAccountStatus : Sent AccountStatus;
  regPasswordResetToken : Sent (option string);
  regPasswordResetExpires : Sent (option Z);
  regLastPasswordReset : Sent (option Z)
}.

(** A body with the three form fields only. *)
Definition formBody (name mail pass : string) : RegisterBody :=
  mkRegisterBody name mail pass Missing Missing Missing Missing Missing
    Missing Missing Missing.

(** [{ ...req.body, password, lastLogin, failedLoginAttempts }]: the
    values handed to [createUser]. *)
Record InsertUser := mkInsertUser {
  fromBody : RegisterBody;
  insPassword : string;
  insLastLogin : Z;
  insFailedLoginAttempts : Z
}.

Inductive RegisterResponse :=
| UsernameTaken
| EmailTaken
| WeakPassword (details : list string) (strength : Z) (strengthLabel : string)
| Registered (user : JsObject) (token : string)
| RegisterError.

(** The value of a column that was sent and read, or else its default. *)
Definition sentOr {A} (sent : Sent A) (default : A) : A :=
  match sent with
  | Read v => v
  | _ => default
  end.

Definition refused {A} (sent : Sent A) : bool :=
  match sent with
  | Refused => true
  | _ => false
  end.

(** Some column of the body holds a value that the database refuses. *)
Definition refusesColumn (body : RegisterBody) : bool :=
  refused (regId body) || refused (regBio body) || refused (regRole body) ||
  refused (regCreatedAt body) || refused (regAccountStatus body) ||
  refused (regPasswordResetToken body) ||
  refused (regPasswordResetExpires body) ||
  refused (regLastPasswordReset body).

(** The row that [insert(users).values(insertUser)] writes, if the
    database takes every value: each column holds the value sent, or its
    default; [newId] is the next value of the id sequence and [createdAt]
    the reading of the database's clock. *)
Definition insertedRow (newId createdAt : Z) (values : InsertUser)
  : option User :=
  let body := fromBody values in
  if refusesColumn body then None
  else
    Some (mkUser (sentOr (regId body) newId) (regUsername body)
            (insPassword values) (regEmail body) (sentOr (regBio body) None)
            (Some (sentOr (regRole body) "user"))
            (sentOr (regCreatedAt body) (Some createdAt))
            (Some (insLastLogin values))
            (Some (insFailedLoginAttempts values))
            (sentOr (regAccountStatus body) active)
            (sentOr (regPasswordResetToken body) None)
            (sentOr (regPasswordResetExpires body) None)
            (sentOr (regLastPasswordReset body) None)).

(** [DatabaseStorage.createUser(insertUser)]: the table and the row
    returned, or nothing when the insert throws: for a value that the
    database refuses and for an id that a row of the table has already. *)
Definition createUser (newId createdAt : Z) (values : InsertUser) (db : Db)
  : option (Db * User) :=
  match insertedRow newId createdAt values with
  | None => None
  | Some row =>
      match getUser db (id row) with
      | Some _ => None
      | None => Some (db ++ [row], row)
      end
  end.

Section WithEnvironment.

Variable envJwtExpiresIn : option string.
Variable dateToString : Z -> string.
Variable jwtSign : Z -> JsObject -> ExpiresIn -> option string.
Variable hashPassword : string -> string.

(** [POST /api/register] at the time [now].  An error thrown by
    [createUser] or by [generateToken] is passed on by the handler's
    [catch], which is the answer [RegisterError]; in the second case the
    row has been inserted. *)
Definition register (newId createdAt now : Z) (db : Db)
  (body : RegisterBody) : Db * RegisterResponse :=
  match getUserByUsername db (regUsername body) with
  | Some _ => (db, UsernameTaken)
  | None =>
      match getUserByEmail db (regEmail body) with
      | Some _ => (db, EmailTaken)
      | None =>
          let password := PasswordPolicy.chars (regPassword body) in
          let passwordCheck :=
            PasswordPolicy.validate PasswordPolicy.passwordPolicy password in
          if negb (PasswordPolicy.isValid passwordCheck) then
            (db, WeakPassword (PasswordPolicy.errors passwordCheck)
                   (PasswordPolicy.measureStrength
                      PasswordPolicy.passwordPolicy password)
                   (PasswordPolicy.getStrengthLabel
                      PasswordPolicy.passwordPolicy password))
          else
            let values :=
              mkInsertUser body (hashPassword (regPassword body)) now 0 in
            match createUser newId createdAt values db with
            | None => (db, RegisterError)
            | Some (db, user) =>
                match generateToken envJwtExpiresIn dateToString jwtSign
                        now user with
                | Normal token => (db, Registered (withoutPassword user) token)
                | Throw _ => (db, RegisterError)
                end
            end
      end
  end.

End WithEnvironment.

End AuthRoutes.

(** ** server/routes: asking for a password reset *)

Module ForgotPassword.
Import Schema Storage.

(** [rateLimitMap], from client address to the times of its requests. *)
Abbreviation RateLimitMap := (gmap string (list Z)).

Record ForgotRequest := mkForgotRequest {
  originHeader : option string;
  refererHeader : option string;
  clientIp : string;
  bodyEmail : option string
}.

Inductive ForgotResponse :=
| OriginForbidden
| RateLimited
| EmailInvalid
| EmailSent
| ProcessingError.

(** [/^https?:\/\/localhost|127\.0\.0\.1|replit\.dev/.test(origin)]: the
    anchor belongs to the first alternative only. *)
Definition developmentOrigin (origin : string) : bool :=
  let o := PasswordPolicy.chars origin in
  PasswordPolicy.startsWith o (PasswordPolicy.chars "http://localhost") ||
  PasswordPolicy.startsWith o (PasswordPolicy.chars "https://localhost") ||
  PasswordPolicy.strIncludes o (PasswordPolicy.chars "127.0.0.1") ||
  PasswordPolicy.strIncludes o (PasswordPolicy.chars "replit.dev").

Inductive OriginCheck :=
| OriginAccepted
| OriginRefused
| OriginCheckThrows.

(** The origin test.  In production the origin must equal [APP_URL]; with
    [APP_URL] unset the test calls a method of [undefined]. *)
Definition checkOrigin (production : bool) (appUrl : option string)
  (req : ForgotRequest) : OriginCheck :=
  match AuthRoutes.present (originHeader req),
        AuthRoutes.present (refererHeader req) with
  | None, None => OriginRefused
  | Some origin, _ | None, Some origin =>
      if production then
        match appUrl with
        | Some validOrigin =>
            if String.eqb origin validOrigin then OriginAccepted
            else OriginRefused
        | None => OriginCheckThrows
        end
      else if developmentOrigin origin then OriginAccepted else OriginRefused
  end.

(** [recentAttempts.filter(time => now - time < 3600000)]. *)
Definition recentValid (now : Z) (attempts : list Z) : list Z :=
  List.filter (fun time => now - time <? 3600000) attempts.

(** [user.passwordResetExpires && new Date(...) > new Date(Date.now() -
    900000)], with [checkTime] the reading of the clock. *)
Definition recentlyIssued (checkTime : Z) (user : User) : bool :=
  match passwordResetExpires user with
  | Some expires => checkTime - 900000 <? expires
  | None => false
  end.

(** [POST /api/forgot-password].  The handler reads the clock three
    times: [now] for the rate limit, [checkTime] for the test of the
    outstanding token and [issueTime] for the expiry of the new one;
    [fresh] is the text of the 32 random bytes.  The mail that is sent
    afterwards, and the delay in front of the answer for an unknown
    address, leave the state alone. *)
Definition forgotPassword (production : bool) (appUrl : option string)
  (now checkTime issueTime : Z) (fresh : string) (db : Db)
  (limits : RateLimitMap) (req : ForgotRequest)
  : Db * RateLimitMap * ForgotResponse :=
  match checkOrigin production appUrl req with
  | OriginRefused => (db, limits, OriginForbidden)
  | OriginCheckThrows => (db, limits, ProcessingError)
  | OriginAccepted =>
      let recentAttempts := default [] (limits !! clientIp req) in
      let recentValidAttempts := recentValid now recentAttempts in
      if (3 <=? length recentValidAttempts)%nat then (db, limits, RateLimited)
      else
        let limits := <[clientIp req := recentValidAttempts ++ [now]]> limits in
        match AuthRoutes.present (bodyEmail req) with
        | None => (db, limits, EmailInvalid)
        | Some email =>
            match getUserByEmail db email with
            | None => (db, limits, EmailSent)
            | Some user =>
                if recentlyIssued checkTime user then (db, limits, EmailSent)
                else
                  let resetExpiresIn := issueTime + 3600000 in
                  let db :=
                    setPasswordResetToken (id user) fresh resetExpiresIn db in
                  (db, limits, EmailSent)
            end
        end
  end.

End ForgotPassword.

(** ** server/storage: retiring unused accounts *)

Module Maintenance.
Import Schema Storage.

Section WithCalendar.

(** [d.setDate(d.getDate() - n)] on the date [now]: the same local time
    [n] calendar days earlier. *)
Variable daysBefore : Z -> Z -> Z.

(** [and(eq(accountStatus, 'active'), or(lt(lastLogin, cutoffDate),
    isNull(lastLogin)))]. *)
Definition unused (cutoffDate : Z) (row : User) : bool :=
  match accountStatus row with
  | active =>
      match lastLogin row with
      | Some t => t <? cutoffDate
      | None => true
      end
  | _ => false
  end.

(** [markInactiveAccounts(inactiveDays)] at time [now]: the table and the
    number of rows the update returned. *)
Definition markInactiveAccounts (now inactiveDays : Z) (db : Db) : Db * nat :=
  let cutoffDate := daysBefore now inactiveDays in
  (map (fun row =>
          if unused cutoffDate row then setAccountStatus inactive row else row)
     db,
   length (List.filter (unused cutoffDate) db)).

End WithCalendar.

End Maintenance.

(** ** Sample data for the password-reset and maintenance examples *)

Module Scenarios.
Import Schema.

(** A reset request from the development front end. *)
Definition forgotRequest : ForgotPassword.ForgotRequest :=
  ForgotPassword.mkForgotRequest (Some "http://localhost:5000") None
    "10.0.0.7" (Some "maria@example.com").

(** The same client with three requests on record. *)
Definition busyLimits : ForgotPassword.RateLimitMap :=
  {[ "10.0.0.7" := [100; 200; 300] ]}.

(** A calendar in which every day has 24 hours. *)
Definition plainDays (now n : Z) : Z := now - n * Samples.day.

(** An active account last seen at noon of the first day. *)
Definition idleUser : User :=
  mkUser 7 "ines" "$argon2id$stored" "ines@example.com" None (Some "user")
    (Some 0) (Some (12 * 60 * Samples.minute)) (Some 0) active None None None.

Definition idleTable : list User := [Samples.adminUser; idleUser].

End Scenarios.

(** * Properties *)

(** ** JavaScript preliminaries *)

Module JsProps.

Lemma includes_In (l : list string) (x : string) :
  includes l x = true <-> In x l.
Proof.
  unfold includes. rewrite existsb_exists. split.
  - intros (y & Hy & Heq). apply String.eqb_eq in Heq. now subst.
  - intros H. exists x. split; [assumption | apply String.eqb_refl].
Qed.

Lemma includes_false (l : list string) (x : string) :
  includes l x = false <-> ~ In x l.
Proof.
  rewrite <- includes_In. destruct (includes l x); split; intros H;
    try reflexivity; try discriminate; try (intros Hc; discriminate).
  exfalso. now apply H.
Qed.

Lemma orDefault_cases (s : option string) (d : string) :
  (s = None \/ s = Some "") /\ orDefault s d = d \/
  (exists v, s = Some v /\ v <> "" /\ orDefault s d = v).
Proof.
  destruct s as [v|]; simpl.
  - destruct (String.eqb_spec v "") as [-> | Hne].
    + left. split; [now right | reflexivity].
    + right. exists v. repeat split; trivial.
  - left. split; [now left | reflexivity].
Qed.

Lemma orDefault_nonempty (v d : string) :
  v <> "" -> orDefault (Some v) d = v.
Proof.
  intros Hne. simpl. destruct (String.eqb_spec v ""); [contradiction | reflexivity].
Qed.

End JsProps.

(** ** Roles and permissions *)

Module RbacProps.
Import Schema Rbac Samples JsProps.

(** The lookup in the role table, case by case. *)
Lemma rolePermissions_unknown (r : string) :
  r <> "admin" -> r <> "user" -> ~ In r objectPrototypeKeys ->
  rolePermissions r = Undefined.
Proof.
  intros Ha Hu Hp. unfold rolePermissions.
  destruct (String.eqb_spec r "admin"); [contradiction|].
  destruct (String.eqb_spec r "user"); [contradiction|].
  apply includes_false in Hp. now rewrite Hp.
Qed.

Lemma rolePermissions_inherited (r : string) :
  In r objectPrototypeKeys -> rolePermissions r = Inherited.
Proof.
  intros Hin. simpl in Hin.
  repeat (destruct Hin as [<- | Hin]; [reflexivity|]). contradiction.
Qed.

(** C1, as stated, fails: the [user] role lists [games.delete] (meant for
    the user's own games), so a regular user is granted it. *)
Lemma regular_user_granted_games_delete :
  hasPermission (Some regularUser) (perm GAMES DELETE) = Normal true /\
  hasPermission (Some regularUser) "games.delete" <> Normal false.
Proof. split; [reflexivity | discriminate]. Qed.

(** C1 (amended): with the static role table, an administrator is granted
    [games.delete]; a regular user is granted it too, and is refused
    [games.approve]; an anonymous caller is refused every permission. *)
Theorem hasPermission_static_table (admin regular : User) :
  role admin = Some "admin" ->
  role regular = Some "user" ->
  hasPermission (Some admin) "games.delete" = Normal true /\
  hasPermission (Some regular) "games.delete" = Normal true /\
  hasPermission (Some regular) "games.approve" = Normal false /\
  forall p : Permission, hasPermission None p = Normal false.
Proof.
  intros Ha Hr. unfold hasPermission. rewrite Ha, Hr.
  repeat split; reflexivity.
Qed.

Lemma hasPermission_static_table_witness :
  hasPermission (Some adminUser) "games.delete" = Normal true /\
  hasPermission (Some regularUser) "games.delete" = Normal true /\
  hasPermission (Some regularUser) "games.approve" = Normal false /\
  forall p : Permission, hasPermission None p = Normal false.
Proof.
  apply (hasPermission_static_table adminUser regularUser); reflexivity.
Defined.

(** C10: the defect.  For a role outside the table the code means to
    fall back to the empty list, and does so for the role [moderator]:
    the answer is [false].  For the role [constructor], just as much
    outside the table, the lookup finds a member of [Object.prototype],
    the fallback [|| []] is skipped, and the call ends in an exception
    instead of returning [false]. *)
Theorem hasPermission_throws_on_prototype_key :
  role oddUser = Some "constructor" /\
  "constructor" <> "user" /\ "constructor" <> "admin" /\
  (forall b, hasPermission (Some oddUser) (perm GAMES READ) <> Normal b) /\
  hasPermission (Some oddUser) (perm GAMES READ) =
    Throw (TypeError "permissions.includes is not a function") /\
  role guestUser = Some "moderator" /\
  hasPermission (Some guestUser) (perm GAMES READ) = Normal false.
Proof.
  repeat split; try reflexivity; try discriminate.
Qed.

(** The same for every inherited key and every permission. *)
Lemma hasPermission_inherited_role (u : User) (r : string) (p : Permission) :
  role u = Some r -> In r objectPrototypeKeys ->
  exists e, hasPermission (Some u) p = Throw e.
Proof.
  intros Hr Hin. unfold hasPermission. rewrite Hr.
  assert (Hne : r <> "").
  { intros ->. simpl in Hin. intuition discriminate. }
  rewrite (orDefault_nonempty _ _ Hne), (rolePermissions_inherited _ Hin).
  eexists. reflexivity.
Qed.

(** Where the fallback works: as long as the role string does not name a
    member of [Object.prototype], [hasPermission] returns a boolean; a
    missing or empty role is treated as ['user'], and a role other than
    ['user'] and ['admin'] has no permission at all. *)
Theorem hasPermission_total_outside_prototype
  (user : option User) (p : Permission) :
  (forall u r, user = Some u -> role u = Some r ->
     ~ In r objectPrototypeKeys) ->
  (exists b, hasPermission user p = Normal b) /\
  (forall u, user = Some u -> role u = None \/ role u = Some "" ->
     hasPermission user p = Normal (includes userPermissions p)) /\
  (forall u r, user = Some u -> role u = Some r ->
     r <> "" -> r <> "user" -> r <> "admin" ->
     hasPermission user p = Normal false).
Proof.
  intros Hproto. destruct user as [u|].
  2:{ split; [now exists false|]. split; intros; discriminate. }
  assert (Hfallback : role u = None \/ role u = Some "" ->
            hasPermission (Some u) p = Normal (includes userPermissions p)).
  { unfold hasPermission. intros [-> | ->]; reflexivity. }
  assert (Hother : forall r, role u = Some r ->
            r <> "" -> r <> "user" -> r <> "admin" ->
            hasPermission (Some u) p = Normal false).
  { intros r Hr Hne Hu Ha. unfold hasPermission.
    rewrite Hr, (orDefault_nonempty _ _ Hne),
      (rolePermissions_unknown r Ha Hu (Hproto u r eq_refl Hr)).
    reflexivity. }
  split; [| split].
  - assert (Hcases : role u = None \/ exists r, role u = Some r)
      by (destruct (role u); eauto).
    destruct Hcases as [Hr | [r Hr]].
    2:{ destruct (String.eqb_spec r "") as [-> | Hne].
      { eexists. apply Hfallback. now right. }
      destruct (String.eqb_spec r "user") as [-> | Hu].
      { eexists. unfold hasPermission. rewrite Hr. reflexivity. }
      destruct (String.eqb_spec r "admin") as [-> | Ha].
      { eexists. unfold hasPermission. rewrite Hr. reflexivity. }
      eexists. now apply (Hother r). }
    eexists. apply Hfallback. now left.
  - intros u' [= <-]. exact Hfallback.
  - intros u' r [= <-]. apply Hother.
Qed.

Lemma hasPermission_total_outside_prototype_witness :
  (exists b, hasPermission (Some guestUser) (perm GAMES READ) = Normal b) /\
  hasPermission (Some guestUser) (perm GAMES READ) = Normal false.
Proof.
  destruct (hasPermission_total_outside_prototype
              (Some guestUser) (perm GAMES READ)) as (Htotal & _ & Hother).
  - intros u r [= <-] [= <-]. simpl. intuition discriminate.
  - split; [exact Htotal|].
    apply (Hother guestUser "moderator"); try reflexivity; discriminate.
Defined.

End RbacProps.

(** ** Password rules *)

Module PolicyProps.
Import PasswordPolicy.

(** *** Strings and their three-character windows *)

Lemma strEqb_eq (a b : list ascii) : strEqb a b = true <-> a = b.
Proof.
  revert b. induction a as [|x a IH]; intros [|y b]; simpl;
    try (split; [discriminate | discriminate]); [tauto|].
  rewrite andb_true_iff, IH, Ascii.eqb_eq. split.
  - intros [-> ->]. reflexivity.
  - intros [= -> ->]. split; reflexivity.
Qed.

Lemma has_In (set : list (list ascii)) (s : list ascii) :
  has set s = true <-> In s set.
Proof.
  unfold has. rewrite existsb_exists. split.
  - intros (y & Hy & Heq). apply strEqb_eq in Heq. now subst.
  - intros H. exists s. split; [assumption | now apply strEqb_eq].
Qed.

Lemma test_exists (class : ascii -> bool) (s : list ascii) :
  test class s = true <-> exists c, In c s /\ class c = true.
Proof. unfold test. apply existsb_exists. Qed.

Lemma startsWith_prefix (s pat : list ascii) :
  startsWith s pat = true <-> exists post, s = pat ++ post.
Proof.
  revert s. induction pat as [|p pat IH]; intros s; simpl.
  - split; [intros _; now exists s | intros _; now destruct s].
  - destruct s as [|c s].
    + split; [discriminate | intros [post H]; discriminate].
    + simpl. rewrite andb_true_iff, Ascii.eqb_eq, IH. split.
      * intros [-> [post ->]]. now exists post.
      * intros [post [= -> ->]]. split; [reflexivity | now exists post].
Qed.

Lemma strIncludes_occursIn (s pat : list ascii) :
  strIncludes s pat = true <-> occursIn pat s.
Proof.
  unfold occursIn. induction s as [|c s IH]; cbn [strIncludes].
  - rewrite orb_false_r, startsWith_prefix. split.
    + intros [post H]. now exists [], post.
    + intros (pre & post & H). destruct pre; [now exists post | discriminate].
  - rewrite orb_true_iff, IH, startsWith_prefix. split.
    + intros [[post H] | (pre & post & H)].
      * now exists [], post.
      * exists (c :: pre), post. simpl. now rewrite H.
    + intros (pre & post & H). destruct pre as [|c' pre].
      * left. now exists post.
      * right. injection H as _ H. now exists pre, post.
Qed.

Lemma windows_In (n i : nat) : In i (windows n) <-> (i + 2 < n)%nat.
Proof. unfold windows. rewrite in_seq. lia. Qed.

(** Three consecutive positions of a string are one occurrence of a
    three-character string, and conversely. *)
Lemma window_occurs (s : list ascii) (i : nat) (a b c : ascii) :
  nth_error s i = Some a /\ nth_error s (i + 1) = Some b /\
  nth_error s (i + 2) = Some c <->
  exists pre post, length pre = i /\ s = pre ++ [a; b; c] ++ post.
Proof.
  split.
  - revert s. induction i as [|i IH]; intros s (Ha & Hb & Hc).
    + destruct s as [|x [|y [|z s]]]; simpl in *; try discriminate.
      injection Ha as ->. injection Hb as ->. injection Hc as ->.
      now exists [], s.
    + destruct s as [|x s]; [discriminate|]. simpl in *.
      destruct (IH s (conj Ha (conj Hb Hc))) as (pre & post & Hlen & ->).
      exists (x :: pre), post. simpl. now rewrite Hlen.
  - intros (pre & post & <- & ->).
    induction pre as [|x pre IH]; simpl; [repeat split|exact IH].
Qed.

Lemma window_defined (s : list ascii) (i : nat) :
  (i + 2 < length s)%nat ->
  exists a b c, nth_error s i = Some a /\ nth_error s (i + 1) = Some b /\
    nth_error s (i + 2) = Some c.
Proof.
  intros Hlt.
  destruct (nth_error s i) as [a|] eqn:Ha;
    [| apply nth_error_None in Ha; lia].
  destruct (nth_error s (i + 1)) as [b|] eqn:Hb;
    [| apply nth_error_None in Hb; lia].
  destruct (nth_error s (i + 2)) as [c|] eqn:Hc;
    [| apply nth_error_None in Hc; lia].
  now exists a, b, c.
Qed.

Lemma occurs_window_bound (s pre post : list ascii) (a b c : ascii) :
  s = pre ++ [a; b; c] ++ post -> (length pre + 2 < length s)%nat.
Proof. intros ->. rewrite !length_app. simpl. lia. Qed.

(** *** The three loops against the worded pattern rule *)

Lemma hasRepetition_spec (s : list ascii) :
  hasRepetition s = true <-> exists c, occursIn [c; c; c] s.
Proof.
  unfold hasRepetition, charAt, occursIn. rewrite existsb_exists. split.
  - intros (i & Hi & Heq). apply windows_In in Hi.
    destruct (window_defined s i Hi) as (a & b & c & Ha & Hb & Hc).
    rewrite Ha, Hb, Hc in Heq. simpl in Heq.
    apply andb_true_iff in Heq as [Hab Hac].
    apply Ascii.eqb_eq in Hab, Hac. subst b c.
    destruct (proj1 (window_occurs s i a a a) (conj Ha (conj Hb Hc)))
      as (pre & post & _ & H).
    now exists a, pre, post.
  - intros (c & pre & post & H). exists (length pre). split.
    + apply windows_In. eapply occurs_window_bound, H.
    + destruct (proj2 (window_occurs s (length pre) c c c)) as (Ha & Hb & Hc).
      { now exists pre, post. }
      rewrite Ha, Hb, Hc. simpl. now rewrite Ascii.eqb_refl.
Qed.

Lemma numEq_step (x y k : Z) :
  numEq (Some y) (numAdd (Some x) k) = true <-> y = x + k.
Proof. simpl. apply Z.eqb_eq. Qed.

Lemma hasRun_spec (s : list ascii) :
  hasRun s = true <->
  exists a b c, codepointRun a b c /\ occursIn [a; b; c] s.
Proof.
  unfold hasRun, charCodeAt, codepointRun, occursIn.
  rewrite existsb_exists. split.
  - intros (i & Hi & Heq). apply windows_In in Hi.
    destruct (window_defined s i Hi) as (a & b & c & Ha & Hb & Hc).
    rewrite Ha, Hb, Hc in Heq. cbn [option_map] in Heq.
    rewrite orb_true_iff, !andb_true_iff, !numEq_step in Heq.
    destruct (proj1 (window_occurs s i a b c) (conj Ha (conj Hb Hc)))
      as (pre & post & _ & H).
    exists a, b, c. split; [lia | now exists pre, post].
  - intros (a & b & c & Hrun & pre & post & H). exists (length pre). split.
    + apply windows_In. eapply occurs_window_bound, H.
    + destruct (proj2 (window_occurs s (length pre) a b c)) as (Ha & Hb & Hc).
      { now exists pre, post. }
      rewrite Ha, Hb, Hc. cbn [option_map].
      rewrite orb_true_iff, !andb_true_iff, !numEq_step. lia.
Qed.

(** The windows of a sequence that [substring] cuts out are exactly its
    three-character substrings. *)
Lemma substring_window (seq : list ascii) (i : nat) :
  (i + 2 < length seq)%nat ->
  length (substring seq i (i + 3)) = 3%nat /\
  occursIn (substring seq i (i + 3)) seq.
Proof.
  intros Hlt. unfold substring, occursIn.
  replace (i + 3 - i)%nat with 3%nat by lia. split.
  - rewrite length_firstn, length_skipn. lia.
  - exists (firstn i seq), (skipn 3 (skipn i seq)).
    now rewrite (firstn_skipn 3), (firstn_skipn i).
Qed.

Lemma window_substring (seq pre t post : list ascii) :
  length t = 3%nat -> seq = pre ++ t ++ post ->
  (length pre + 2 < length seq)%nat /\
  substring seq (length pre) (length pre + 3) = t.
Proof.
  intros Hlen ->. split.
  - rewrite !length_app. lia.
  - unfold substring.
    replace (length pre + 3 - length pre)%nat with 3%nat by lia.
    rewrite skipn_app, Nat.sub_diag, skipn_all, skipn_O. simpl.
    rewrite <- Hlen, firstn_app, Nat.sub_diag, firstn_all, firstn_O.
    apply app_nil_r.
Qed.

Lemma hasKeyboardSequence_spec (s : list ascii) :
  hasKeyboardSequence s = true <->
  exists t, keyboardTriple t /\ occursIn t s.
Proof.
  unfold hasKeyboardSequence, keyboardTriple. rewrite existsb_exists. split.
  - intros (seq & Hseq & Hex). apply existsb_exists in Hex as (i & Hi & Hinc).
    apply windows_In in Hi. apply strIncludes_occursIn in Hinc.
    destruct (substring_window seq i Hi) as [Hlen Hocc].
    exists (substring seq i (i + 3)). repeat split; trivial.
    now exists seq.
  - intros (t & (Hlen & seq & Hseq & pre & post & Hocc) & Hin).
    exists seq. split; [assumption|]. apply existsb_exists.
    destruct (window_substring seq pre t post Hlen Hocc) as [Hlt Hsub].
    exists (length pre). split; [now apply windows_In|].
    rewrite Hsub. now apply strIncludes_occursIn.
Qed.

(** The pattern rule, as worded, is decided by the three loops run on
    the same string. *)
Lemma simplePattern_decided (s : list ascii) :
  hasKeyboardSequence s || hasRepetition s || hasRun s = true <->
  simplePattern s.
Proof.
  unfold simplePattern.
  rewrite !orb_true_iff, hasKeyboardSequence_spec, hasRepetition_spec,
    hasRun_spec. tauto.
Qed.

Lemma hasSimplePatterns_spec (p : list ascii) :
  hasSimplePatterns p = true <-> simplePattern (toLowerCase p).
Proof. unfold hasSimplePatterns. apply simplePattern_decided. Qed.

(** *** [validate] *)

Lemma pushIf_nil (cond : bool) (m : string) (errors : list string) :
  pushIf cond m errors = [] <-> cond = false /\ errors = [].
Proof.
  destruct cond; simpl.
  - split; [|intros [H _]; discriminate].
    intros H. now apply app_eq_nil in H as [_ H].
  - tauto.
Qed.

Lemma In_pushIf (cond : bool) (m x : string) (errors : list string) :
  In x (pushIf cond m errors) <-> In x errors \/ (cond = true /\ x = m).
Proof.
  destruct cond; simpl.
  - rewrite in_app_iff. simpl. intuition.
  - intuition discriminate.
Qed.

Lemma length_zero_nil {A} (l : list A) :
  Nat.eqb (length l) 0 = true <-> l = [].
Proof. destruct l; simpl; split; congruence. Qed.

Lemma false_iff_not_true (b : bool) (Q : Prop) :
  (b = true <-> Q) -> (b = false <-> ~ Q).
Proof.
  intros [H1 H2]. destruct b; split; intros H.
  - discriminate.
  - exfalso. now apply H, H1.
  - intros HQ. apply H2 in HQ. discriminate.
  - reflexivity.
Qed.

Lemma negb_test_false (class : ascii -> bool) (s : list ascii) :
  negb (test class s) = false <-> exists c, In c s /\ class c = true.
Proof. rewrite negb_false_iff. apply test_exists. Qed.

Lemma negb_test_true (class : ascii -> bool) (s : list ascii) :
  negb (test class s) = true <-> ~ exists c, In c s /\ class c = true.
Proof.
  rewrite negb_true_iff. apply false_iff_not_true, test_exists.
Qed.

(** The eight conditions of [validate] on a non-empty password. *)
Lemma validate_nonempty (P : Policy) (c : ascii) (s : list ascii) :
  let p := c :: s in
  let len := Z.of_nat (length p) in
  errors (validate P p) =
    pushIf (hasSimplePatterns p) msgPattern
      (pushIf (has (commonPasswords P) (toLowerCase p)) msgCommon
        (pushIf (negb (test isSymbol p)) msgSymbol
          (pushIf (negb (test isDigit p)) msgDigit
            (pushIf (negb (test isLower p)) msgLowercase
              (pushIf (negb (test isUpper p)) msgUppercase
                (pushIf (maxLength P <? len) (msgTooLong P)
                  (pushIf (len <? minLength P) (msgTooShort P) []))))))).
Proof. reflexivity. Qed.

Lemma validate_empty (P : Policy) :
  validate P [] = mkResult false [msgTooShort P].
Proof. reflexivity. Qed.

Lemma isValid_errors (P : Policy) (p : list ascii) :
  isValid (validate P p) = true <-> errors (validate P p) = [].
Proof. unfold validate. cbn [isValid errors]. apply length_zero_nil. Qed.

(** [validate] accepts exactly the passwords that meet the rules, the
    pattern rule being applied to the lower-cased password. *)
Lemma validate_accepts (P : Policy) (p : list ascii) :
  isValid (validate P p) = true <-> lowerCasedValid P p.
Proof.
  rewrite isValid_errors. destruct p as [|c s].
  - rewrite validate_empty. cbn [errors]. split; [discriminate|].
    intros [(_ & (x & [] & _) & _) _].
  - rewrite validate_nonempty. cbv zeta. set (p := c :: s).
    rewrite !pushIf_nil.
    rewrite (false_iff_not_true _ _ (hasSimplePatterns_spec p)).
    rewrite (false_iff_not_true _ _ (has_In (commonPasswords P) (toLowerCase p))).
    rewrite !negb_test_false, !Z.ltb_ge.
    unfold lowerCasedValid, meetsBasicRules. intuition.
Qed.

(** On a non-empty password the messages returned are exactly those of
    the violated rules. *)
Lemma validate_errors (P : Policy) (p : list ascii) (m : string) :
  p <> [] ->
  (In m (errors (validate P p)) <-> violated P p m).
Proof.
  destruct p as [|c s]; [congruence|]. intros _.
  rewrite validate_nonempty. cbv zeta. set (p := c :: s).
  rewrite !In_pushIf. cbn [In].
  rewrite hasSimplePatterns_spec, has_In, !negb_test_true, !Z.ltb_lt.
  unfold violated. tauto.
Qed.

(** C6, as stated, fails in three ways.  The pattern rule is applied to
    the lower-cased password: [aAa1!kpw] has no pattern as typed and is
    rejected, [YZ[a1kpw] contains the ascending run [YZ[] and is accepted.
    And for the empty password only the minimum-length message is
    returned, although the upper-case rule (among others) is violated. *)
Lemma validate_differs_from_stated_rule :
  (statedValid passwordPolicy Samples.mixedCasePassword /\
   isValid (validate passwordPolicy Samples.mixedCasePassword) = false) /\
  (~ statedValid passwordPolicy Samples.bracketPassword /\
   isValid (validate passwordPolicy Samples.bracketPassword) = true) /\
  (isValid (validate passwordPolicy []) = false /\
   ~ (exists c, In c [] /\ isUpper c = true) /\
   ~ In msgUppercase (errors (validate passwordPolicy []))).
Proof.
  split; [|split].
  - split; [|reflexivity]. split.
    + split; [vm_compute; split; discriminate|].
      split; [exists "A"%char; vm_compute; tauto|].
      split; [exists "a"%char; vm_compute; tauto|].
      split; [exists "1"%char; vm_compute; tauto|].
      split; [exists "!"%char; vm_compute; tauto|].
      rewrite <- has_In. vm_compute. discriminate.
    + rewrite <- simplePattern_decided. vm_compute. discriminate.
  - split; [|reflexivity]. intros [_ Hno]. apply Hno.
    apply simplePattern_decided. reflexivity.
  - split; [reflexivity|]. split.
    + intros (c & [] & _).
    + rewrite validate_empty. cbn [errors In]. intros [H | []]. discriminate.
Qed.

(** C6 (amended): under the default policy a password is accepted exactly
    when its length is between 8 and 100, it contains an upper-case
    letter, a lower-case letter, a digit and a symbol, its lower-cased form
    is not a common password and its lower-cased form contains no simple
    pattern.  For a rejected non-empty password the messages returned are
    exactly those of the violated rules; for the empty password the only
    message is the one about the minimum length. *)
Theorem validate_rules (p : list ascii) :
  (isValid (validate passwordPolicy p) = true <->
     8 <= Z.of_nat (length p) <= 100 /\
     (exists c, In c p /\ isUpper c = true) /\
     (exists c, In c p /\ isLower c = true) /\
     (exists c, In c p /\ isDigit c = true) /\
     (exists c, In c p /\ isSymbol c = true) /\
     ~ In (toLowerCase p) (commonPasswords passwordPolicy) /\
     ~ simplePattern (toLowerCase p)) /\
  (p <> [] ->
     forall m, In m (errors (validate passwordPolicy p)) <->
               violated passwordPolicy p m) /\
  (p = [] ->
     validate passwordPolicy p = mkResult false [msgTooShort passwordPolicy]).
Proof.
  split; [|split].
  - rewrite validate_accepts. unfold lowerCasedValid, meetsBasicRules.
    change (minLength passwordPolicy) with 8.
    change (maxLength passwordPolicy) with 100. tauto.
  - intros Hne m. now apply validate_errors.
  - intros ->. apply validate_empty.
Qed.

Lemma validate_rules_witness :
  In msgUppercase (errors (validate passwordPolicy (chars "abc"))) /\
  validate passwordPolicy (chars "") =
    mkResult false [msgTooShort passwordPolicy].
Proof.
  destruct (validate_rules (chars "abc")) as (_ & Herrors & _).
  destruct (validate_rules (chars "")) as (_ & _ & Hempty).
  split.
  - apply Herrors; [discriminate|].
    right. right. left. split; [reflexivity|].
    intros (c & Hin & Hup). simpl in Hin.
    destruct Hin as [<- | [<- | [<- | []]]]; discriminate.
  - apply Hempty. reflexivity.
Defined.

(** *** The generator *)

(** C9: a run of [generateStrongPassword] whose output [validate]
    rejects and [getStrengthLabel] calls weak. *)
Theorem generateStrongPassword_rejected_run :
  generateStrongPassword Samples.repeatingDraws = chars "aA0!aaaaaaaa" /\
  validate passwordPolicy (generateStrongPassword Samples.repeatingDraws) =
    mkResult false [msgPattern] /\
  measureStrength passwordPolicy
    (generateStrongPassword Samples.repeatingDraws) = 34 /\
  getStrengthLabel passwordPolicy
    (generateStrongPassword Samples.repeatingDraws) = "fraca".
Proof. repeat split; vm_compute; reflexivity. Qed.

(** What every run of the generator does achieve: the length and the four
    character classes, and a result that is no common password.  Only the
    pattern rule is left to chance. *)

Lemma randomBelow_lt (n : nat) (rnd : list nat) :
  (0 < n)%nat -> (fst (randomBelow n rnd) < n)%nat.
Proof.
  intros Hn. destruct rnd as [|r rest]; simpl; [exact Hn|].
  apply Nat.mod_upper_bound. lia.
Qed.

Lemma pick_member (s : list ascii) (rnd : list nat) :
  s <> [] -> exists c, fst (pick s rnd) = [c] /\ In c s.
Proof.
  intros Hs. unfold pick.
  pose proof (randomBelow_lt (length s) rnd) as Hlt.
  destruct (randomBelow (length s) rnd) as [k rnd']. simpl in *.
  assert (Hk : (k < length s)%nat) by (apply Hlt; destruct s; simpl; [congruence | lia]).
  unfold indexText. destruct (nth_error s k) as [c|] eqn:Hc.
  - exists c. split; [reflexivity|]. eapply nth_error_In, Hc.
  - apply nth_error_None in Hc. lia.
Qed.

Lemma fillRest_spec (count : nat) (all password : list ascii)
  (rnd : list nat) :
  all <> [] ->
  exists extra,
    fst (fillRest count all password rnd) = password ++ extra /\
    length extra = count /\ (forall c, In c extra -> In c all).
Proof.
  intros Hall. revert password rnd.
  induction count as [|count IH]; intros password rnd; simpl.
  - exists []. rewrite app_nil_r. repeat split. intros c [].
  - destruct (pick_member all rnd Hall) as (c & Hc & Hin).
    destruct (pick all rnd) as [x rnd']. simpl in Hc. subst x.
    destruct (IH (password ++ [c]) rnd') as (extra & Heq & Hlen & Hmem).
    exists (c :: extra). rewrite Heq, <- app_assoc. simpl.
    repeat split; [now rewrite Hlen|].
    intros d [<- | Hd]; [exact Hin | now apply Hmem].
Qed.

Lemma swap_length (arr : list ascii) (i j : nat) :
  length (swap arr i j) = length arr.
Proof.
  unfold swap. destruct (arr !! i), (arr !! j); trivial.
  now rewrite !length_insert.
Qed.

Lemma swap_In (arr : list ascii) (i j : nat) (c : ascii) :
  In c arr -> In c (swap arr i j).
Proof.
  unfold swap.
  destruct (arr !! i) as [ai|] eqn:Hi; [|trivial].
  destruct (arr !! j) as [aj|] eqn:Hj; [|trivial].
  rewrite <- !list_elem_of_In. intros Hc.
  apply list_elem_of_lookup in Hc as [k Hk].
  pose proof (lookup_lt_Some _ _ _ Hi) as Hli.
  pose proof (lookup_lt_Some _ _ _ Hj) as Hlj.
  apply list_elem_of_lookup.
  destruct (decide (k = i)) as [-> | Hki].
  - exists j. rewrite list_lookup_insert_eq by (now rewrite length_insert).
    congruence.
  - destruct (decide (k = j)) as [-> | Hkj].
    + exists i. rewrite list_lookup_insert_ne by congruence.
      rewrite list_lookup_insert_eq by assumption. congruence.
    + exists k. rewrite !list_lookup_insert_ne by congruence. exact Hk.
Qed.

Lemma shuffleFrom_spec (i : nat) (arr : list ascii) (rnd : list nat) :
  length (fst (shuffleFrom i arr rnd)) = length arr /\
  forall c, In c arr -> In c (fst (shuffleFrom i arr rnd)).
Proof.
  revert arr rnd. induction i as [|i IH]; intros arr rnd; cbn [shuffleFrom].
  - split; trivial.
  - destruct (randomBelow _ rnd) as [j rnd'].
    destruct (IH (swap arr (S i) j) rnd') as [Hlen Hmem].
    split.
    + now rewrite Hlen, swap_length.
    + intros c Hc. now apply Hmem, swap_In.
Qed.

(** No common password contains a symbol, and lower-casing keeps the
    generator's symbols. *)
Lemma common_passwords_alphanumeric (w : list ascii) (c : ascii) :
  In w (commonPasswords passwordPolicy) -> In c w -> isSymbol c = false.
Proof.
  intros Hw Hc.
  assert (Hall : forallb (forallb (fun x => negb (isSymbol x)))
                   (commonPasswords passwordPolicy) = true) by reflexivity.
  rewrite forallb_forall in Hall. specialize (Hall w Hw).
  rewrite forallb_forall in Hall. specialize (Hall c Hc).
  now apply negb_true_iff in Hall.
Qed.

Lemma special_lowered (c : ascii) :
  In c special -> isSymbol (lowerChar c) = true.
Proof.
  intros Hc.
  assert (Hall : forallb (fun x => isSymbol (lowerChar x)) special = true)
    by reflexivity.
  rewrite forallb_forall in Hall. now apply Hall.
Qed.

Lemma class_members :
  (forall c, In c lowercase -> isLower c = true) /\
  (forall c, In c uppercase -> isUpper c = true) /\
  (forall c, In c numbers -> isDigit c = true) /\
  (forall c, In c special -> isSymbol c = true).
Proof.
  repeat split; intros c Hc.
  - assert (H : forallb isLower lowercase = true) by reflexivity.
    rewrite forallb_forall in H. now apply H.
  - assert (H : forallb isUpper uppercase = true) by reflexivity.
    rewrite forallb_forall in H. now apply H.
  - assert (H : forallb isDigit numbers = true) by reflexivity.
    rewrite forallb_forall in H. now apply H.
  - assert (H : forallb isSymbol special = true) by reflexivity.
    rewrite forallb_forall in H. now apply H.
Qed.

(** X28: what every run of the generator delivers.  Whatever the random
    draws are, the generated password has 12 to 16 characters, holds an
    upper-case letter, a lower-case letter, a digit and a symbol, and is
    not a common password: of the rules of [validate] only the pattern
    rule can refuse it. *)
Lemma generateStrongPassword_basic_rules (rnd : list nat) :
  (12 <= length (generateStrongPassword rnd) <= 16)%nat /\
  meetsBasicRules passwordPolicy (generateStrongPassword rnd).
Proof.
  unfold generateStrongPassword.
  pose proof (randomBelow_lt 5 rnd ltac:(lia)) as Hr.
  destruct (randomBelow 5 rnd) as [r rnd0]. simpl in Hr.
  destruct (pick_member lowercase rnd0 ltac:(discriminate)) as (cl & El & Hl).
  destruct (pick lowercase rnd0) as [xl rnd1]. simpl in El. subst xl.
  destruct (pick_member uppercase rnd1 ltac:(discriminate)) as (cu & Eu & Hu).
  destruct (pick uppercase rnd1) as [xu rnd2]. simpl in Eu. subst xu.
  destruct (pick_member numbers rnd2 ltac:(discriminate)) as (cn & En & Hn).
  destruct (pick numbers rnd2) as [xn rnd3]. simpl in En. subst xn.
  destruct (pick_member special rnd3 ltac:(discriminate)) as (cs & Es & Hs).
  destruct (pick special rnd3) as [xs rnd4]. simpl in Es. subst xs.
  simpl app.
  destruct (fillRest_spec (12 + r - 4) allChars [cl; cu; cn; cs] rnd4
              ltac:(discriminate)) as (extra & Efill & Hlen & _).
  destruct (fillRest (12 + r - 4) allChars [cl; cu; cn; cs] rnd4)
    as [filled rnd5]. simpl in Efill. subst filled.
  pose proof (shuffleFrom_spec (length ([cl; cu; cn; cs] ++ extra) - 1)
                ([cl; cu; cn; cs] ++ extra) rnd5) as [Hslen Hsmem].
  destruct (shuffleFrom _ _ rnd5) as [result rnd6]. simpl in Hslen, Hsmem.
  destruct class_members as (Clow & Cup & Cnum & Csym).
  assert (Hlength : length result = (12 + r)%nat) by (rewrite Hslen, Hlen; lia).
  split; [lia|]. unfold meetsBasicRules.
  change (minLength passwordPolicy) with 8.
  change (maxLength passwordPolicy) with 100.
  split; [lia|].
  split; [exists cu; split; [apply Hsmem; simpl; tauto | now apply Cup]|].
  split; [exists cl; split; [apply Hsmem; simpl; tauto | now apply Clow]|].
  split; [exists cn; split; [apply Hsmem; simpl; tauto | now apply Cnum]|].
  split; [exists cs; split; [apply Hsmem; simpl; tauto | now apply Csym]|].
  intros Hcommon.
  assert (Hin : In (lowerChar cs) (toLowerCase result)).
  { unfold toLowerCase. apply in_map, Hsmem. simpl. tauto. }
  pose proof (common_passwords_alphanumeric _ _ Hcommon Hin) as Hno.
  rewrite (special_lowered cs Hs) in Hno. discriminate.
Qed.

End PolicyProps.

(** ** The users table *)

Module StorageProps.
Import Schema Storage.

Lemma selectFirst_update (cond : User -> bool) (userId : Z)
  (f : User -> User) (db : Db) :
  (forall row, cond (f row) = cond row) ->
  selectFirst cond (updateWhereId userId f db) =
  option_map (fun row => if id row =? userId then f row else row)
    (selectFirst cond db).
Proof.
  intros Hcond. unfold selectFirst, updateWhereId.
  induction db as [|row db IH]; simpl; [reflexivity|].
  destruct (id row =? userId) eqn:Hid; [rewrite Hcond|];
    destruct (cond row); simpl; rewrite ?Hid; auto.
Qed.

Lemma getUser_id (db : Db) (userId : Z) (u : User) :
  getUser db userId = Some u -> id u = userId.
Proof.
  unfold getUser, selectFirst. intros H.
  apply find_some in H as [_ H]. now apply Z.eqb_eq in H.
Qed.

Lemma getUser_update (db : Db) (f : User -> User) (u : User) :
  keepsIdentity f ->
  getUser db (id u) = Some u ->
  getUser (updateWhereId (id u) f db) (id u) = Some (f u).
Proof.
  intros Hf Hget. unfold getUser.
  rewrite selectFirst_update.
  - fold (getUser db (id u)). rewrite Hget. simpl. now rewrite Z.eqb_refl.
  - intros row. now destruct (Hf row) as (-> & _).
Qed.

(** Rows of other users are not touched. *)
Lemma getUser_update_other (db : Db) (f : User -> User) (a b : Z) :
  keepsIdentity f -> a <> b ->
  getUser (updateWhereId a f db) b = getUser db b.
Proof.
  intros Hf Hne. unfold getUser. rewrite selectFirst_update.
  - destruct (selectFirst _ db) as [row|] eqn:Hrow; [|reflexivity]. simpl.
    apply getUser_id in Hrow. subst b.
    destruct (Z.eqb_spec (id row) a); [congruence | reflexivity].
  - intros row. now destruct (Hf row) as (-> & _).
Qed.

Lemma keepsIdentity_setFailedLoginAttempts (v : option Z) :
  keepsIdentity (setFailedLoginAttempts v).
Proof. intros row. repeat split. Qed.

Lemma keepsIdentity_setLastLogin (v : option Z) :
  keepsIdentity (setLastLogin v).
Proof. intros row. repeat split. Qed.

Lemma keepsIdentity_setAccountStatus (v : AccountStatus) :
  keepsIdentity (setAccountStatus v).
Proof. intros row. repeat split. Qed.

Lemma keepsIdentity_increment :
  keepsIdentity
    (fun row =>
       setFailedLoginAttempts (Some (orZero (failedLoginAttempts row) + 1)) row).
Proof. intros row. repeat split. Qed.

Lemma keepsIdentity_passwordReplaced (h : string) (now : Z) :
  keepsIdentity (passwordReplaced h now).
Proof. intros row. repeat split. Qed.

End StorageProps.

(** ** Login and lockout *)

Module AuthProps.
Import Schema Storage Auth StorageProps.

Lemma accountIs_update (db : Db) (identifier : string) (u : User)
  (f : User -> User) :
  keepsIdentity f ->
  accountIs db identifier u ->
  accountIs (updateWhereId (id u) f db) identifier (f u).
Proof.
  intros Hf [Hfind Hget]. split.
  - unfold findByIdentifier, getUserByEmail, getUserByUsername in *.
    destruct (containsAt identifier); rewrite selectFirst_update.
    + rewrite Hfind. simpl. now rewrite Z.eqb_refl.
    + intros row. now destruct (Hf row) as (_ & _ & ->).
    + rewrite Hfind. simpl. now rewrite Z.eqb_refl.
    + intros row. now destruct (Hf row) as (_ & ->  & _).
  - destruct (Hf u) as (-> & _). now apply getUser_update.
Qed.


Section LoginProps.

Variable envJwtExpiresIn : option string.
Variable dateToString : Z -> string.
Variable jwtSign : Z -> JsObject -> ExpiresIn -> option string.
Variable comparePasswords : string -> string -> bool.

Local Abbreviation login :=
  (Auth.login envJwtExpiresIn dateToString jwtSign comparePasswords).
Local Abbreviation checkPassword :=
  (Auth.checkPassword envJwtExpiresIn dateToString jwtSign comparePasswords).
Local Abbreviation generateToken :=
  (Auth.generateToken envJwtExpiresIn dateToString jwtSign).
Local Abbreviation payload := (Auth.payload dateToString).
Local Abbreviation expiresIn := (Auth.expiresIn envJwtExpiresIn).

(** The password check on the handler's copy of the row. *)
Lemma checkPassword_wrong (now : Z) (db : Db) (identifier : string)
  (u : User) (body : LoginBody) :
  let n := orZero (failedLoginAttempts u) + 1 in
  accountIs db identifier u ->
  comparePasswords (bodyPassword body) (password u) = false ->
  exists db',
    (n < 5 ->
       checkPassword now db u body =
         (db', InvalidCredentials (Some (5 - n))) /\
       accountIs db' identifier (setFailedLoginAttempts (Some n) u)) /\
    (5 <= n ->
       checkPassword now db u body = (db', AccountLocked 30) /\
       accountIs db' identifier
         (setLastLogin (Some now)
            (setAccountStatus locked (setFailedLoginAttempts (Some n) u)))).
Proof.
  intros n Hacc Hwrong.
  unfold Auth.checkPassword. rewrite Hwrong. cbn [negb].
  fold n. unfold MAX_LOGIN_ATTEMPTS.
  pose proof (accountIs_update _ _ _ _ keepsIdentity_increment Hacc) as H1.
  cbv beta in H1. fold n in H1.
  destruct (Z.leb_spec 5 n) as [Hge | Hlt].
  - eexists. split; [lia|]. intros _. split; [reflexivity|].
    apply (accountIs_update _ _ _ _ (keepsIdentity_setAccountStatus locked))
      in H1.
    apply (accountIs_update _ _ _ _ (keepsIdentity_setLastLogin (Some now)))
      in H1.
    exact H1.
  - eexists. split; [|lia]. intros _. split; [reflexivity|]. exact H1.
Qed.

(** With the right password the row is updated, and the answer is the
    token when [jwt.sign] delivers one and the error otherwise. *)
Lemma checkPassword_right (now : Z) (db : Db) (identifier : string)
  (u : User) (body : LoginBody) :
  accountIs db identifier u ->
  comparePasswords (bodyPassword body) (password u) = true ->
  exists db',
    checkPassword now db u body =
      (db', match jwtSign now (payload u) expiresIn with
            | Some token => LoggedIn (withoutPassword u) token
            | None => InternalError
            end) /\
    accountIs db' identifier
      (setLastLogin (Some now) (setFailedLoginAttempts (Some 0) u)).
Proof.
  intros Hacc Hright.
  unfold Auth.checkPassword, Auth.generateToken. rewrite Hright. cbn [negb].
  eexists. split.
  - destruct (jwtSign now (payload u) expiresIn); reflexivity.
  - apply (accountIs_update _ _ _ _
             (keepsIdentity_setFailedLoginAttempts (Some 0))) in Hacc.
    apply (accountIs_update _ _ _ _ (keepsIdentity_setLastLogin (Some now)))
      in Hacc.
    exact Hacc.
Qed.

(** When the lock has run out the handler first reopens the account. *)
Lemma login_reopens (now since : Z) (db : Db) (body : LoginBody) (u : User) :
  let identifier := orDefault (bodyUsername body) "" in
  let reopened := setFailedLoginAttempts (Some 0) (setAccountStatus active u) in
  accountIs db identifier u ->
  accountStatus u = locked -> lastLogin u = Some since ->
  since + 30 * 60 * 1000 <= now ->
  exists db0,
    login now db body = checkPassword now db0 reopened body /\
    accountIs db0 identifier reopened.
Proof.
  intros identifier reopened Hacc Hst Hsince Hexp.
  unfold Auth.login. fold identifier.
  destruct Hacc as [Hfind Hget]. rewrite Hfind, Hst, Hsince.
  unfold ACCOUNT_LOCK_TIME_MS.
  destruct (Z.ltb_spec now (since + 30 * 60 * 1000)) as [Hlt | _]; [lia|].
  eexists. split; [reflexivity|].
  pose proof (conj Hfind Hget : accountIs db identifier u) as Hacc.
  apply (accountIs_update _ _ _ _ (keepsIdentity_setAccountStatus active))
    in Hacc.
  apply (accountIs_update _ _ _ _
           (keepsIdentity_setFailedLoginAttempts (Some 0))) in Hacc.
  exact Hacc.
Qed.


End LoginProps.


(** The scenario of the design document, run on a sample table: the
    fifth failure locks the account, the correct password is refused while
    the lock lasts and accepted afterwards, leaving the counter at 0. *)
Example lockout_scenario :
  let (db, responses) :=
    loginSeries None Samples.printDate Samples.signStub Samples.verifyStub
      Samples.lockoutScenario Samples.usersTable in
  responses =
    [ InvalidCredentials (Some 4); InvalidCredentials (Some 3);
      InvalidCredentials (Some 2); InvalidCredentials (Some 1);
      AccountLocked 30; AccountLocked 25;
      LoggedIn
        (withoutPassword
           (mkUser 2 "maria" "$argon2id$stored" "maria@example.com" None
              (Some "user") (Some 0) (Some (5 * Samples.minute)) (Some 0)
              active None None None))
        "eyJhbGciOiJIUzI1NiJ9.e30.c2lnbmVk" ] /\
  getUser db 2 =
    Some (mkUser 2 "maria" "$argon2id$stored" "maria@example.com" None
            (Some "user") (Some 0) (Some (35 * Samples.minute)) (Some 0)
            active None None None).
Proof. vm_compute. repeat split. Qed.

(** ** Session tokens *)

(** C8, as stated, fails on the bound of 7 days: the lifetime handed to
    the token library is whatever [JWT_EXPIRES_IN] is set to in the
    environment, here 30 days, and the token is issued with it. *)
Lemma generateToken_configured_lifetime :
  expiresIn (Some "30d") = Timespan "30d" /\
  lifetimeSeconds (expiresIn (Some "30d")) = Some (30 * 86400) /\
  sevenDays < 30 * 86400 /\
  exists token,
    generateToken (Some "30d") Samples.printDate Samples.signStub 5000
      Samples.regularUser = Normal token.
Proof. repeat split. eexists. reflexivity. Qed.

(** C8 (amended): whenever [generateToken] returns a token, for whatever
    user record, it is the token that [jwt.sign] made of a payload with the
    user's id, user name, e-mail address and role and with no field named
    [password].  The lifetime handed over is 7 days when [JWT_EXPIRES_IN]
    is unset or empty, and otherwise what [JWT_EXPIRES_IN] says: its
    number of seconds when it consists of digits, its text as a time span
    when it does not. *)
Theorem generateToken_payload (envJwtExpiresIn : option string)
  (dateToString : Z -> string)
  (jwtSign : Z -> JsObject -> ExpiresIn -> option string) (now : Z)
  (u : User) :
  let claims := payload dateToString u in
  let lifetime := expiresIn envJwtExpiresIn in
  (forall token,
     generateToken envJwtExpiresIn dateToString jwtSign now u = Normal token
     <-> jwtSign now claims lifetime = Some token) /\
  field "id" claims = Some (JNumber (id u)) /\
  field "username" claims = Some (JString (username u)) /\
  field "email" claims = Some (JString (email u)) /\
  (forall r, role u = Some r -> field "role" claims = Some (JString r)) /\
  field "password" claims = None /\
  map fst claims = ["id"; "username"; "email"; "role"; "bio"; "createdAt"] /\
  (envJwtExpiresIn = None \/ envJwtExpiresIn = Some "" ->
     lifetime = Timespan "7d" /\ lifetimeSeconds lifetime = Some sevenDays) /\
  (forall configured,
     envJwtExpiresIn = Some configured -> configured <> "" ->
     (isDecimal configured = false -> lifetime = Timespan configured) /\
     (isDecimal configured = true ->
        lifetime = Seconds (parseInt configured) /\
        (parseDigits 0 configured <= 2 ^ 53 ->
           lifetimeSeconds lifetime = Some (parseDigits 0 configured)))).
Proof.
  cbv zeta. split.
  { intros token. unfold generateToken.
    destruct (jwtSign now _ _) as [t|]; split; intros H;
      try discriminate; now injection H as ->. }
  do 3 (split; [reflexivity|]).
  split. { intros r Hr. cbn. now rewrite Hr. }
  do 2 (split; [reflexivity|]).
  split. { intros [-> | ->]; split; reflexivity. }
  intros configured -> Hne. unfold expiresIn, JWT_EXPIRES_IN.
  rewrite (JsProps.orDefault_nonempty _ _ Hne). split.
  - now intros ->.
  - intros ->. split; [reflexivity|]. intros Hexact.
    unfold parseInt. cbv zeta.
    destruct (Z.leb_spec (parseDigits 0 configured) (2 ^ 53));
      [reflexivity | lia].
Qed.

Lemma generateToken_payload_witness :
  expiresIn (Some "3600") = Seconds (Exactly 3600) /\
  lifetimeSeconds (expiresIn (Some "3600")) = Some 3600.
Proof.
  destruct (generateToken_payload (Some "3600") Samples.printDate
              Samples.signStub 5000 Samples.adminUser)
    as (_ & _ & _ & _ & _ & _ & _ & _ & Hconfigured).
  destruct (Hconfigured "3600" eq_refl) as (_ & Hdigits).
  - discriminate.
  - destruct (Hdigits eq_refl) as (Hlife & Hseconds). split.
    + exact Hlife.
    + apply Hseconds. vm_compute. discriminate.
Defined.

End AuthProps.

(** ** Password-reset tokens *)

Module RoutesProps.
Import Schema Storage Routes StorageProps.

Lemma selectFirst_none (cond : User -> bool) (db : Db) :
  selectFirst cond db = None <-> forall row, In row db -> cond row = false.
Proof.
  unfold selectFirst. split.
  - apply find_none.
  - induction db as [|row db IH]; simpl; [reflexivity|]. intros H.
    rewrite (H row (or_introl eq_refl)). apply IH. intros r Hr.
    apply H. now right.
Qed.

Lemma holdsResetToken_true (token : string) (row : User) :
  holdsResetToken token row = true <-> passwordResetToken row = Some token.
Proof.
  unfold holdsResetToken. destruct (passwordResetToken row) as [t|].
  - rewrite String.eqb_eq. split; congruence.
  - split; discriminate.
Qed.

Lemma getUserByResetToken_Some (db : Db) (token : string) (u : User) :
  getUserByResetToken db token = Some u ->
  In u db /\ passwordResetToken u = Some token.
Proof.
  unfold getUserByResetToken, selectFirst. intros H.
  apply find_some in H as [Hin H]. split; [assumption|].
  now apply holdsResetToken_true.
Qed.

Lemma getUserByResetToken_None (db : Db) (token : string) :
  getUserByResetToken db token = None <->
  forall row, In row db -> passwordResetToken row <> Some token.
Proof.
  unfold getUserByResetToken. rewrite selectFirst_none.
  split; intros H row Hin; specialize (H row Hin).
  - rewrite <- holdsResetToken_true. congruence.
  - destruct (holdsResetToken token row) eqn:Hh; [|reflexivity].
    now apply holdsResetToken_true in Hh.
Qed.

(** C5, as stated, fails at the boundary: at the very millisecond of the
    expiry, where [now >= expiry], the token is still accepted. *)
Lemma validateResetToken_accepts_at_expiry :
  passwordResetExpires Samples.resetUser = Some (60 * Samples.minute) /\
  60 * Samples.minute >= 60 * Samples.minute /\
  validateResetToken (60 * Samples.minute) Samples.resetTable "5f2a9c" =
    TokenValid (id Samples.resetUser) /\
  validateResetToken (60 * Samples.minute) Samples.resetTable "5f2a9c" <>
    TokenInvalidOrExpired.
Proof. repeat split; try reflexivity; discriminate. Qed.

(** C5 (amended): [validate(token)] returns the user whose record the
    lookup by token value finds exactly when that record's expiry is not
    before [now] ([now <= expiry]); when no record carries the token, or
    the one found has [expiry < now], the answer is the one class
    [TokenInvalidOrExpired].  A token that expires at [t + 60 min] is
    accepted at [t + 59 min] and rejected at [t + 61 min]. *)
Theorem validateResetToken_accepts (now : Z) (db : Db) (token : string) :
  token <> "" ->
  (forall userId,
     validateResetToken now db token = TokenValid userId <->
     exists u e,
       getUserByResetToken db token = Some u /\ id u = userId /\
       passwordResetExpires u = Some e /\ now <= e) /\
  ((~ exists u e,
        getUserByResetToken db token = Some u /\
        passwordResetExpires u = Some e /\ now <= e) ->
     validateResetToken now db token = TokenInvalidOrExpired) /\
  ((forall row, In row db -> passwordResetToken row <> Some token) ->
     validateResetToken now db token = TokenInvalidOrExpired) /\
  (forall u, getUserByResetToken db token = Some u ->
     In u db /\ passwordResetToken u = Some token) /\
  (forall t u,
     getUserByResetToken db token = Some u ->
     passwordResetExpires u = Some (t + 60 * 60000) ->
     validateResetToken (t + 59 * 60000) db token = TokenValid (id u) /\
     validateResetToken (t + 61 * 60000) db token = TokenInvalidOrExpired).
Proof.
  intros Hne. apply String.eqb_neq in Hne.
  unfold validateResetToken. rewrite Hne.
  split; [|split; [|split; [|split]]].
  - intros userId. destruct (getUserByResetToken db token) as [u|].
    + destruct (passwordResetExpires u) as [e|] eqn:He.
      * destruct (Z.ltb_spec e now) as [Hlt | Hge]; split.
        -- discriminate.
        -- intros (u' & e' & [= <-] & _ & He' & Hle).
           rewrite He in He'. injection He' as <-. lia.
        -- intros [= <-]. now exists u, e.
        -- intros (u' & e' & [= <-] & <- & _). reflexivity.
      * split; [discriminate|].
        intros (u' & e' & [= <-] & _ & He' & _). congruence.
    + split; [discriminate|]. intros (u' & e' & H & _). discriminate.
  - intros Hno. destruct (getUserByResetToken db token) as [u|]; [|reflexivity].
    destruct (passwordResetExpires u) as [e|] eqn:He; [|reflexivity].
    destruct (Z.ltb_spec e now) as [Hlt | Hge]; [reflexivity|].
    exfalso. apply Hno. now exists u, e.
  - intros Hnone. apply getUserByResetToken_None in Hnone. now rewrite Hnone.
  - intros u. apply getUserByResetToken_Some.
  - intros t u -> ->. split.
    + destruct (Z.ltb_spec (t + 60 * 60000) (t + 59 * 60000)); [lia | reflexivity].
    + destruct (Z.ltb_spec (t + 60 * 60000) (t + 61 * 60000)); [reflexivity | lia].
Qed.

Lemma validateResetToken_accepts_witness :
  validateResetToken (59 * 60000) Samples.resetTable "5f2a9c" = TokenValid 6 /\
  validateResetToken (61 * 60000) Samples.resetTable "5f2a9c" =
    TokenInvalidOrExpired.
Proof.
  destruct (validateResetToken_accepts 0 Samples.resetTable "5f2a9c")
    as (_ & _ & _ & _ & Htimes); [discriminate|].
  apply (Htimes 0 Samples.resetUser); reflexivity.
Defined.

(** Once every row of the token's user is rewritten, no row holds the
    token any more. *)
Lemma token_gone_after_reset (db : Db) (token h : string) (now userId : Z) :
  (forall row, In row db -> holdsResetToken token row = true ->
     id row = userId) ->
  getUserByResetToken (resetPassword now userId h db) token = None.
Proof.
  intros Honly. unfold getUserByResetToken. apply selectFirst_none.
  intros row Hin. unfold resetPassword, updateWhereId in Hin.
  apply in_map_iff in Hin as (old & <- & Hold).
  destruct (Z.eqb_spec (id old) userId) as [Heq | Hneq]; [reflexivity|].
  destruct (holdsResetToken token old) eqn:Hh; [|reflexivity].
  now apply Honly in Hh.
Qed.

(** C3: [consume] on a valid token rewrites the user's record in one
    update that stores the new hash, clears the token and its expiry, sets
    the failure counter to 0 and the status to [active]; the records of
    other users stay as they were; and consuming the same token once more
    is refused as [TokenInvalidOrExpired] and changes nothing.  The token
    is taken to identify its user: no other user's record carries the same
    value. *)
Theorem resetPassword_single_use (hashPassword : string -> string) (now : Z)
  (db : Db) (token newPassword : string) (u : User) (expiry : Z) :
  token <> "" -> newPassword <> "" ->
  getUserByResetToken db token = Some u ->
  getUser db (id u) = Some u ->
  (forall row, In row db -> holdsResetToken token row = true ->
     id row = id u) ->
  passwordResetExpires u = Some expiry -> now <= expiry ->
  let body := mkResetBody (Some token) (Some newPassword) in
  let db1 := fst (resetPasswordRoute hashPassword now db body) in
  snd (resetPasswordRoute hashPassword now db body) = PasswordReset /\
  db1 = resetPassword now (id u) (hashPassword newPassword) db /\
  (exists u1,
     getUser db1 (id u) = Some u1 /\
     password u1 = hashPassword newPassword /\
     passwordResetToken u1 = None /\ passwordResetExpires u1 = None /\
     failedLoginAttempts u1 = Some 0 /\ accountStatus u1 = active /\
     lastPasswordReset u1 = Some now /\
     username u1 = username u /\ email u1 = email u /\ role u1 = role u) /\
  (forall other, other <> id u -> getUser db1 other = getUser db other) /\
  (forall hashPassword2 now2 password2,
     password2 <> "" ->
     resetPasswordRoute hashPassword2 now2 db1
       (mkResetBody (Some token) (Some password2)) =
       (db1, ResetTokenInvalidOrExpired)) /\
  (forall hashPassword2 now2 body2,
     bodyToken body2 = Some token ->
     fst (resetPasswordRoute hashPassword2 now2 db1 body2) = db1 /\
     snd (resetPasswordRoute hashPassword2 now2 db1 body2) <> PasswordReset).
Proof.
  intros Htok Hpw Hfind Hget Honly Hexp Hle body db1.
  apply String.eqb_neq in Htok, Hpw.
  assert (Hrun : resetPasswordRoute hashPassword now db body =
                 (resetPassword now (id u) (hashPassword newPassword) db,
                  PasswordReset)).
  { unfold resetPasswordRoute, body, missing. cbn [bodyToken bodyNewPassword].
    rewrite Htok, Hpw, Hfind, Hexp. cbn [orb].
    destruct (Z.ltb_spec expiry now); [lia | reflexivity]. }
  assert (Hdb1 : db1 = resetPassword now (id u) (hashPassword newPassword) db).
  { unfold db1. now rewrite Hrun. }
  assert (Hgone : getUserByResetToken db1 token = None).
  { rewrite Hdb1. now apply token_gone_after_reset. }
  split; [now rewrite Hrun|]. split; [exact Hdb1|].
  split; [|split; [|split]].
  - exists (passwordReplaced (hashPassword newPassword) now u).
    split; [|repeat split].
    rewrite Hdb1. unfold resetPassword.
    apply getUser_update; [apply keepsIdentity_passwordReplaced | exact Hget].
  - intros other Hother. rewrite Hdb1. unfold resetPassword.
    apply getUser_update_other;
      [apply keepsIdentity_passwordReplaced | congruence].
  - intros hashPassword2 now2 password2 Hpw2. apply String.eqb_neq in Hpw2.
    unfold resetPasswordRoute, missing. cbn [bodyToken bodyNewPassword].
    now rewrite Htok, Hpw2, Hgone.
  - intros hashPassword2 now2 [t p] Ht. cbn [bodyToken] in Ht. subst t.
    unfold resetPasswordRoute, missing. cbn [bodyToken bodyNewPassword].
    destruct p as [p|]; [|split; [reflexivity | discriminate]].
    rewrite Htok, Hgone. cbn [orb].
    destruct (String.eqb p ""); split; try reflexivity; discriminate.
Qed.

Lemma resetPassword_single_use_witness :
  snd (resetPasswordRoute Samples.hashStub (30 * Samples.minute)
         Samples.resetTable (mkResetBody (Some "5f2a9c") (Some "N3w-pass!")))
    = PasswordReset /\
  resetPasswordRoute Samples.hashStub (31 * Samples.minute)
    (fst (resetPasswordRoute Samples.hashStub (30 * Samples.minute)
            Samples.resetTable
            (mkResetBody (Some "5f2a9c") (Some "N3w-pass!"))))
    (mkResetBody (Some "5f2a9c") (Some "0ther-pass!")) =
    (fst (resetPasswordRoute Samples.hashStub (30 * Samples.minute)
            Samples.resetTable
            (mkResetBody (Some "5f2a9c") (Some "N3w-pass!"))),
     ResetTokenInvalidOrExpired).
Proof.
  destruct (resetPassword_single_use Samples.hashStub (30 * Samples.minute)
              Samples.resetTable "5f2a9c" "N3w-pass!" Samples.resetUser
              (60 * Samples.minute))
    as (Hfirst & _ & _ & _ & Hsecond & _).
  - discriminate.
  - discriminate.
  - reflexivity.
  - reflexivity.
  - intros row [<- | [<- | [<- | []]]]; try discriminate. reflexivity.
  - reflexivity.
  - discriminate.
  - split; [exact Hfirst|].
    apply (Hsecond Samples.hashStub (31 * Samples.minute) "0ther-pass!").
    discriminate.
Defined.

End RoutesProps.

(** ** CSRF tokens *)

Module SecurityProps.
Import Security.

Lemma tokenRefused_false (tokens : TokenStore) (supplied : option string) :
  tokenRefused tokens supplied = false <->
  exists t entry, supplied = Some t /\ t <> "" /\ tokens !! t = Some entry.
Proof.
  unfold tokenRefused. destruct supplied as [t|].
  - rewrite orb_false_iff, String.eqb_neq. split.
    + intros [Hne Hlook]. destruct (tokens !! t) as [entry|] eqn:He;
        [|discriminate]. now exists t, entry.
    + intros (t' & entry & [= <-] & Hne & ->). now split.
  - split; [discriminate|]. intros (t & entry & H & _). discriminate.
Qed.

Lemma guarded_checked (req : Request) :
  guarded req ->
  String.prefix "/api" (path req) && negb (isMethodSafe req) = true /\
  negb (includes bypassRoutes (path req)) = true.
Proof.
  intros (-> & -> & Hby). split; [reflexivity|].
  apply negb_true_iff, JsProps.includes_false, Hby.
Qed.

Lemma csrfMiddleware_guarded (now : Z) (fresh : string) (tokens : TokenStore)
  (req : Request) :
  guarded req ->
  csrfMiddleware now fresh tokens req =
    if tokenRefused tokens (firstTruthy (headerCsrfToken req) (bodyCsrf req))
    then (tokens, CsrfError)
    else (<[fresh := mkCsrfEntry (now + tokenLifetimeMs) (requestUserId req)]>
            tokens, Next fresh).
Proof.
  intros Hg. destruct (guarded_checked req Hg) as [H1 H2].
  unfold csrfMiddleware. now rewrite H1, H2.
Qed.

(** A request that is let through always stores the token it issues. *)
Lemma csrfMiddleware_passes (now : Z) (fresh : string) (tokens : TokenStore)
  (req : Request) :
  snd (csrfMiddleware now fresh tokens req) <> CsrfError ->
  csrfMiddleware now fresh tokens req =
    (<[fresh := mkCsrfEntry (now + tokenLifetimeMs) (requestUserId req)]>
       tokens, Next fresh).
Proof.
  unfold csrfMiddleware.
  destruct (_ && _ && _); [intros H; now contradiction H | reflexivity].
Qed.

Lemma sweep_lookup (now : Z) (tokens : TokenStore) (t : string)
  (entry : CsrfEntry) :
  sweep now tokens !! t = Some entry <->
  tokens !! t = Some entry /\ now <= expires entry.
Proof.
  unfold sweep. rewrite map_lookup_filter_Some. simpl. split.
  - intros [H Hn]. split; [assumption | lia].
  - intros [H Hn]. split; [assumption | lia].
Qed.

(** A token whose entry lasts until [bound] stays in the store through
    every event that happens between its issue and [bound]. *)
Lemma step_keeps (bound : Z) (t : string) (tokens : TokenStore) (ev : Event) :
  bound - tokenLifetimeMs <= eventTime ev <= bound ->
  (exists entry, tokens !! t = Some entry /\ bound <= expires entry) ->
  exists entry, step tokens ev !! t = Some entry /\ bound <= expires entry.
Proof.
  intros Htime (entry & Hlook & Hexp). destruct ev as [now fresh req | now];
    simpl in *.
  - unfold csrfMiddleware. destruct (_ && _ && _); simpl.
    + now exists entry.
    + destruct (decide (fresh = t)) as [-> | Hne].
      * eexists. rewrite lookup_insert_eq. split; [reflexivity|]. simpl. lia.
      * exists entry. now rewrite lookup_insert_ne.
  - exists entry. split; [|assumption]. apply sweep_lookup. split; [assumption | lia].
Qed.

Lemma run_keeps (bound : Z) (t : string) (events : list Event)
  (tokens : TokenStore) :
  Forall (fun ev => bound - tokenLifetimeMs <= eventTime ev <= bound) events ->
  (exists entry, tokens !! t = Some entry /\ bound <= expires entry) ->
  exists entry, run events tokens !! t = Some entry /\ bound <= expires entry.
Proof.
  unfold run. revert tokens.
  induction events as [|ev events IH]; intros tokens Hall Hin; [exact Hin|].
  apply Forall_cons_iff in Hall as [Hev Hall]. simpl.
  apply IH; [exact Hall|]. now apply step_keeps.
Qed.

(** C7, as stated, fails on expiry: the check only asks whether the
    supplied value is a key of the store.  An entry that has expired but
    has not yet met a timer tick later than its expiry still lets the
    request through. *)
Lemma csrf_expired_token_accepted :
  let tokens := run Samples.csrfHistory ∅ in
  let now := Samples.day + 1 in
  guarded (Samples.writeWith "c0ffee") /\
  (exists entry, tokens !! "c0ffee" = Some entry /\ expires entry < now) /\
  snd (csrfMiddleware now "beef01" tokens (Samples.writeWith "c0ffee")) =
    Next "beef01".
Proof.
  cbv zeta.
  assert (Hentry : run Samples.csrfHistory ∅ !! "c0ffee" =
                   Some (mkCsrfEntry Samples.day None)).
  { unfold run, Samples.csrfHistory. simpl. apply sweep_lookup.
    split; [apply lookup_insert_eq | reflexivity]. }
  assert (Hg : guarded (Samples.writeWith "c0ffee")).
  { repeat split. simpl. intuition discriminate. }
  split; [exact Hg|]. split.
  - eexists. split; [exact Hentry | reflexivity].
  - rewrite (csrfMiddleware_guarded _ _ _ _ Hg).
    assert (Haccepted :
      tokenRefused (run Samples.csrfHistory ∅)
        (firstTruthy (headerCsrfToken (Samples.writeWith "c0ffee"))
           (bodyCsrf (Samples.writeWith "c0ffee"))) = false).
    { apply tokenRefused_false. eexists "c0ffee", _.
      split; [reflexivity|]. split; [discriminate | exact Hentry]. }
    now rewrite Haccepted.
Qed.

(** C7 (amended): a request with an unsafe method to an [/api] path
    outside the allow-list is answered with the CSRF error exactly when the
    value taken from the [x-csrf-token] header, or from the [_csrf] body
    field when the header is absent or empty, is missing, empty or not a key
    of the token store; a rejection leaves the store as it was.  A token
    issued by the middleware is accepted in the header of such a request as
    long as all that happened since its issue happened within its 24
    hours. *)
Theorem csrf_check (now : Z) (fresh : string) (tokens : TokenStore)
  (req : Request) :
  guarded req ->
  let supplied := firstTruthy (headerCsrfToken req) (bodyCsrf req) in
  (snd (csrfMiddleware now fresh tokens req) = CsrfError <->
     ~ exists t entry,
         supplied = Some t /\ t <> "" /\ tokens !! t = Some entry) /\
  (snd (csrfMiddleware now fresh tokens req) = CsrfError ->
     fst (csrfMiddleware now fresh tokens req) = tokens) /\
  (forall tokens0 issuedAt req0 events t,
     t <> "" ->
     snd (csrfMiddleware issuedAt t tokens0 req0) = Next t ->
     tokens = run events (fst (csrfMiddleware issuedAt t tokens0 req0)) ->
     Forall (fun ev =>
               issuedAt <= eventTime ev <= issuedAt + tokenLifetimeMs) events ->
     headerCsrfToken req = Some t ->
     snd (csrfMiddleware now fresh tokens req) = Next fresh).
Proof.
  intros Hg supplied. rewrite (csrfMiddleware_guarded _ _ _ _ Hg).
  fold supplied.
  pose proof (tokenRefused_false tokens supplied) as Href.
  split; [|split].
  - destruct (tokenRefused tokens supplied); simpl.
    + split; [|reflexivity]. intros _ Hex. apply Href in Hex. discriminate.
    + split; [discriminate|]. intros Hno. exfalso. now apply Hno, Href.
  - destruct (tokenRefused tokens supplied); simpl; [reflexivity | discriminate].
  - intros tokens0 issuedAt req0 events t Hne Hpass Hrun Hall Hhdr.
    assert (Hissued : csrfMiddleware issuedAt t tokens0 req0 =
              (<[t := mkCsrfEntry (issuedAt + tokenLifetimeMs)
                        (requestUserId req0)]> tokens0, Next t)).
    { apply csrfMiddleware_passes. rewrite Hpass. discriminate. }
    rewrite Hissued in Hrun. simpl in Hrun.
    destruct (run_keeps (issuedAt + tokenLifetimeMs) t events
                (<[t := mkCsrfEntry (issuedAt + tokenLifetimeMs)
                          (requestUserId req0)]> tokens0))
      as (entry & Hlook & _).
    + eapply Forall_impl; [exact Hall|]. simpl. intros ev. lia.
    + eexists. rewrite lookup_insert_eq. split; [reflexivity | simpl; lia].
    + rewrite <- Hrun in Hlook.
      assert (Hsup : supplied = Some t).
      { unfold supplied. rewrite Hhdr. simpl.
        apply String.eqb_neq in Hne. now rewrite Hne. }
      assert (Hok : tokenRefused tokens supplied = false).
      { apply Href. now exists t, entry. }
      now rewrite Hok.
Qed.

Lemma csrf_check_witness :
  snd (csrfMiddleware (Samples.day - 1) "beef01"
         (run [SweepTick 60000]
            (fst (csrfMiddleware 0 "c0ffee" ∅ Samples.pageLoad)))
         (Samples.writeWith "c0ffee")) = Next "beef01".
Proof.
  destruct (csrf_check (Samples.day - 1) "beef01"
              (run [SweepTick 60000]
                 (fst (csrfMiddleware 0 "c0ffee" ∅ Samples.pageLoad)))
              (Samples.writeWith "c0ffee")) as (_ & _ & Hfresh).
  - repeat split. simpl. intuition discriminate.
  - apply (Hfresh ∅ 0 Samples.pageLoad [SweepTick 60000] "c0ffee").
    + discriminate.
    + reflexivity.
    + reflexivity.
    + repeat constructor; simpl; discriminate.
    + reflexivity.
Defined.

End SecurityProps.

(** * Further properties of the code *)

(** ** The route guards *)

Module RbacMiddlewareProps.
Import Schema Rbac RbacMiddleware JsProps.

Lemma hasPermission_by_role (u v : User) (p : Permission) :
  role u = role v -> hasPermission (Some u) p = hasPermission (Some v) p.
Proof. intros H. unfold hasPermission. now rewrite H. Qed.

(** X1: the permission guard never looks at who owns the resource.  Its
    answer is settled by the caller's role and by whether a resource id is
    present: two callers with the same role get the same answer for any two
    resource ids, checkOwnership or not. *)
Theorem requirePermission_ignores_owner (p : Permission) (own : bool)
  (u v : User) (i j : option string) :
  role u = role v -> absent i = absent j ->
  requirePermission p own (mkGuardRequest (Some u) i) =
  requirePermission p own (mkGuardRequest (Some v) j).
Proof.
  intros Hrole Habs. unfold requirePermission. cbn [reqUser paramsId].
  rewrite (hasPermission_by_role u v p Hrole), Habs. reflexivity.
Qed.

Lemma requirePermission_ignores_owner_witness :
  requirePermission "games.delete" true
    (mkGuardRequest (Some Samples.regularUser) (Some "17")) =
  requirePermission "games.delete" true
    (mkGuardRequest (Some Samples.lockedUser) (Some "99")).
Proof.
  apply (requirePermission_ignores_owner "games.delete" true
           Samples.regularUser Samples.lockedUser (Some "17") (Some "99"));
    reflexivity.
Defined.

(** The answers of the permission guard.  An anonymous request gets
    401 and nothing else does; a caller is passed on exactly when the role
    holds the permission and, under checkOwnership, the route carries a
    non-empty id; with the permission but without the id the answer is
    400. *)
Theorem requirePermission_answers (p : Permission) (own : bool)
  (req : GuardRequest) :
  (requirePermission p own req = Normal Unauthorized <-> reqUser req = None) /\
  (requirePermission p own req = Normal PassOn <->
     exists u, reqUser req = Some u /\
       hasPermission (Some u) p = Normal true /\
       (own = true -> absent (paramsId req) = false)) /\
  (requirePermission p own req = Normal BadRequest <->
     exists u, reqUser req = Some u /\
       hasPermission (Some u) p = Normal true /\
       own = true /\ absent (paramsId req) = true) /\
  (requirePermission p own req = Normal Forbidden <->
     exists u, reqUser req = Some u /\
       hasPermission (Some u) p = Normal false).
Proof.
  unfold requirePermission. destruct (reqUser req) as [u|].
  2:{ repeat split; try discriminate; try reflexivity;
        intros (u & H & _); discriminate. }
  destruct (hasPermission (Some u) p) as [[|]|e] eqn:Hp.
  - destruct own.
    + destruct (absent (paramsId req)) eqn:Ha.
      * repeat split; try discriminate.
        -- intros (v & [= <-] & _ & Hown). specialize (Hown eq_refl).
           discriminate.
        -- intros _. now exists u.
        -- intros (v & [= <-] & Hf). congruence.
      * assert (Hpass :
          (if String.prefix (resourceValue GAMES) p
           then Normal PassOn else Normal PassOn) = Normal PassOn)
          by (destruct (String.prefix _ p); reflexivity).
        rewrite Hpass. repeat split; try discriminate.
        -- intros _. exists u. repeat split; trivial.
        -- intros (v & [= <-] & _ & _ & Hc). discriminate.
        -- intros (v & [= <-] & Hf). congruence.
    + repeat split; try discriminate.
      * intros _. exists u. repeat split; trivial. discriminate.
      * intros (v & [= <-] & _ & Hc & _). discriminate.
      * intros (v & [= <-] & Hf). congruence.
  - repeat split; try discriminate.
    + intros (v & [= <-] & Hf & _). congruence.
    + intros (v & [= <-] & Hf & _). congruence.
    + intros _. now exists u.
  - repeat split; try discriminate.
    + intros (v & [= <-] & Hf & _). congruence.
    + intros (v & [= <-] & Hf & _). congruence.
    + intros (v & [= <-] & Hf). congruence.
Qed.

Lemma adminPermissions_include_userPermissions (p : Permission) :
  includes userPermissions p = true -> includes adminPermissions p = true.
Proof.
  rewrite !includes_In. intros Hin. simpl in Hin.
  repeat (destruct Hin as [<- | Hin]; [simpl; tauto|]). contradiction.
Qed.

(** X2: administrators can do whatever regular users can, and whoever
    passes [requireAdmin] passes the permission guard for every permission
    of the admin list.  A caller with the role [user], or with no role,
    never passes [requireAdmin]. *)
Theorem admin_covers_user (admin regular : User) (p : Permission)
  (req : GuardRequest) :
  role admin = Some "admin" ->
  role regular = Some "user" \/ role regular = None ->
  (hasPermission (Some regular) p = Normal true ->
     hasPermission (Some admin) p = Normal true) /\
  (requireAdmin req = PassOn -> In p adminPermissions ->
     requirePermission p false req = Normal PassOn) /\
  requireAdmin (mkGuardRequest (Some regular) (paramsId req)) = Forbidden.
Proof.
  intros Ha Hr. split; [|split].
  - unfold hasPermission. rewrite Ha.
    destruct Hr as [-> | ->]; simpl; intros [= H]; f_equal;
      now apply adminPermissions_include_userPermissions.
  - unfold requireAdmin, requirePermission.
    destruct (reqUser req) as [u|]; [|discriminate].
    intros Hadm Hin. unfold isAdminRole in Hadm.
    destruct (role u) as [r|] eqn:Hrole; [|discriminate].
    destruct (String.eqb_spec r "admin") as [-> | _]; [|discriminate].
    assert (Hp : hasPermission (Some u) p =
                 Normal (includes adminPermissions p))
      by (unfold hasPermission; rewrite Hrole; reflexivity).
    apply includes_In in Hin. now rewrite Hp, Hin.
  - unfold requireAdmin. cbn [reqUser].
    destruct Hr as [-> | ->]; reflexivity.
Qed.

Lemma admin_covers_user_witness :
  hasPermission (Some Samples.adminUser) "games.create" = Normal true.
Proof.
  destruct (admin_covers_user Samples.adminUser Samples.regularUser
              "games.create" (mkGuardRequest None None)) as (Hcovers & _).
  - reflexivity.
  - now left.
  - apply Hcovers. reflexivity.
Defined.

End RbacMiddlewareProps.

(** ** Tokens and salted hashes *)

Module CryptoProps.
Import Crypto.

Lemma hexByte_decodes (b : ascii) : fromHex (hexByte b) = Some [b].
Proof. destruct b as [[] [] [] [] [] [] [] []]; reflexivity. Qed.

Lemma hexByte_digits (b : ascii) :
  exists hi lo, hexByte b = [hi; lo] /\ hi <> "."%char /\ lo <> "."%char /\
    hexValue hi <> None /\ hexValue lo <> None.
Proof.
  destruct b as [[] [] [] [] [] [] [] []];
    (eexists _, _; split; [reflexivity|]; repeat split; discriminate).
Qed.

Lemma fromHex_flat_map (buffer : list ascii) :
  fromHex (flat_map hexByte buffer) = Some buffer.
Proof.
  induction buffer as [|b buffer IH]; [reflexivity|].
  cbn [flat_map].
  pose proof (hexByte_decodes b) as Hb.
  destruct (hexByte_digits b) as (hi & lo & Hpair & _).
  rewrite Hpair in *. cbn [app fromHex] in *. rewrite IH.
  destruct (hexValue hi), (hexValue lo); try discriminate.
  now injection Hb as ->.
Qed.

Lemma length_flat_map_hexByte (buffer : list ascii) :
  length (flat_map hexByte buffer) = (2 * length buffer)%nat.
Proof.
  induction buffer as [|b buffer IH]; [reflexivity|].
  cbn [flat_map]. rewrite length_app, IH.
  destruct (hexByte_digits b) as (hi & lo & -> & _). simpl. lia.
Qed.

Lemma string_length_of_list (l : list ascii) :
  String.length (string_of_list_ascii l) = length l.
Proof. induction l as [|c l IH]; simpl; congruence. Qed.

(** X3: a secure token is the lower-case hexadecimal text of its random
    bytes: twice as many characters as bytes (so never empty for a positive
    size), hexadecimal digits only, and decodable back to the bytes, so
    that different random bytes give different tokens. *)
Theorem generateSecureToken_hex (randomBytes : list ascii) :
  String.length (generateSecureToken randomBytes) =
    (2 * length randomBytes)%nat /\
  (randomBytes <> [] -> generateSecureToken randomBytes <> "") /\
  (forall c, In c (list_ascii_of_string (generateSecureToken randomBytes)) ->
     hexValue c <> None) /\
  fromHex (list_ascii_of_string (generateSecureToken randomBytes)) =
    Some randomBytes /\
  (forall other, generateSecureToken other = generateSecureToken randomBytes ->
     other = randomBytes).
Proof.
  unfold generateSecureToken, toHex.
  split; [|split; [|split; [|split]]].
  - rewrite string_length_of_list. apply length_flat_map_hexByte.
  - intros Hne Heq.
    apply (f_equal String.length) in Heq.
    rewrite string_length_of_list, length_flat_map_hexByte in Heq.
    destruct randomBytes; [congruence | simpl in Heq; lia].
  - intros c. rewrite list_ascii_of_string_of_list_ascii.
    intros Hin. apply in_flat_map in Hin as (b & _ & Hc).
    destruct (hexByte_digits b) as (hi & lo & Hb & _ & _ & Hhi & Hlo).
    rewrite Hb in Hc. destruct Hc as [<- | [<- | []]]; assumption.
  - rewrite list_ascii_of_string_of_list_ascii. apply fromHex_flat_map.
  - intros other Heq.
    apply (f_equal list_ascii_of_string) in Heq.
    rewrite !list_ascii_of_string_of_list_ascii in Heq.
    pose proof (fromHex_flat_map other) as H1. rewrite Heq in H1.
    rewrite fromHex_flat_map in H1. congruence.
Qed.

Lemma generateSecureToken_hex_witness :
  generateSecureToken (list_ascii_of_string "key") <> "".
Proof.
  destruct (generateSecureToken_hex (list_ascii_of_string "key"))
    as (_ & Hne & _).
  apply Hne. discriminate.
Defined.

(** Splitting at a separator that the first piece does not contain. *)
Lemma split_append (sep : ascii) (a b : string) :
  ~ In sep (list_ascii_of_string a) ->
  split sep (String.append a (String sep b)) = a :: split sep b.
Proof.
  induction a as [|c a IH]; intros Hno; simpl.
  - now rewrite Ascii.eqb_refl.
  - destruct (Ascii.eqb_spec c sep) as [-> | Hne].
    + exfalso. apply Hno. now left.
    + rewrite IH; [reflexivity|]. intros Hin. apply Hno. now right.
Qed.

Lemma split_no_separator (sep : ascii) (a : string) :
  ~ In sep (list_ascii_of_string a) -> split sep a = [a].
Proof.
  induction a as [|c a IH]; intros Hno; simpl; [reflexivity|].
  destruct (Ascii.eqb_spec c sep) as [-> | Hne].
  - exfalso. apply Hno. now left.
  - rewrite IH; [reflexivity|]. intros Hin. apply Hno. now right.
Qed.

Lemma toHex_no_dot (buffer : list ascii) :
  ~ In "."%char (list_ascii_of_string (toHex buffer)).
Proof.
  unfold toHex. rewrite list_ascii_of_string_of_list_ascii.
  intros Hin. apply in_flat_map in Hin as (b & _ & Hc).
  destruct (hexByte_digits b) as (hi & lo & Hb & Hhi & Hlo & _).
  rewrite Hb in Hc. destruct Hc as [Hc | [Hc | []]]; congruence.
Qed.

Lemma toHex_injective (a b : list ascii) : toHex a = toHex b -> a = b.
Proof.
  intros Heq. unfold toHex in Heq.
  apply (f_equal list_ascii_of_string) in Heq.
  rewrite !list_ascii_of_string_of_list_ascii in Heq.
  pose proof (fromHex_flat_map a) as H1. rewrite Heq, fromHex_flat_map in H1.
  congruence.
Qed.

(** X4: whatever the HMAC is, a record made by [hashWithSalt] verifies
    against its own data, and against other data exactly when the two
    digests under the record's salt coincide; a record without a dot never
    verifies. *)
Theorem hashWithSalt_round_trip (hmacSha256 : string -> string -> list ascii)
  (saltBytes : list ascii) (data : string) :
  verifyHashWithSalt hmacSha256 data (hashWithSalt hmacSha256 saltBytes data)
    = true /\
  (forall other,
     verifyHashWithSalt hmacSha256 other
       (hashWithSalt hmacSha256 saltBytes data) = true <->
     hmacSha256 (toHex saltBytes) other = hmacSha256 (toHex saltBytes) data) /\
  (forall record,
     ~ In "."%char (list_ascii_of_string record) ->
     verifyHashWithSalt hmacSha256 data record = false).
Proof.
  assert (Hsplit :
    split "." (hashWithSalt hmacSha256 saltBytes data) =
      [toHex (hmacSha256 (toHex saltBytes) data); toHex saltBytes]).
  { unfold hashWithSalt. cbv zeta.
    change (String.append "." (toHex saltBytes))
      with (String "."%char (toHex saltBytes)).
    rewrite split_append by apply toHex_no_dot.
    now rewrite split_no_separator by apply toHex_no_dot. }
  split; [|split].
  - unfold verifyHashWithSalt. rewrite Hsplit. apply String.eqb_refl.
  - intros other. unfold verifyHashWithSalt. rewrite Hsplit.
    rewrite String.eqb_eq. split.
    + intros H. symmetry. now apply toHex_injective.
    + intros ->. reflexivity.
  - intros record Hno. unfold verifyHashWithSalt.
    now rewrite split_no_separator.
Qed.

Lemma hashWithSalt_round_trip_witness :
  verifyHashWithSalt (fun key data => list_ascii_of_string (String.append key data))
    "secret" "6b6579" = false.
Proof.
  destruct (hashWithSalt_round_trip
              (fun key data => list_ascii_of_string (String.append key data))
              [] "secret") as (_ & _ & Hmalformed).
  apply Hmalformed. simpl. intuition discriminate.
Defined.

End CryptoProps.

(** ** The proxy cache *)

Module ProxyProps.
Import Proxy.

Section CacheProps.

Context {Data : Type}.
Implicit Types (cache : Cache Data) (key : string).

Lemma mapGet_mapSet key (value : CacheEntry Data) cache :
  mapGet key (mapSet key value cache) = Some value.
Proof.
  induction cache as [|[k v] rest IH]; simpl.
  - now rewrite String.eqb_refl.
  - destruct (String.eqb k key) eqn:Hk; simpl; now rewrite Hk.
Qed.

Lemma mapGet_mapSet_other key other (value : CacheEntry Data) cache :
  other <> key -> mapGet other (mapSet key value cache) = mapGet other cache.
Proof.
  intros Hne. induction cache as [|[k v] rest IH]; simpl.
  - destruct (String.eqb_spec key other); [congruence | reflexivity].
  - destruct (String.eqb_spec k key) as [-> | Hk]; simpl.
    + destruct (String.eqb_spec key other); [congruence | reflexivity].
    + now rewrite IH.
Qed.

Lemma mapSet_keys key (value : CacheEntry Data) cache :
  map fst (mapSet key value cache) =
    match mapGet key cache with
    | Some _ => map fst cache
    | None => map fst cache ++ [key]
    end.
Proof.
  induction cache as [|[k v] rest IH]; simpl; [reflexivity|].
  destruct (String.eqb k key); simpl; [reflexivity|].
  rewrite IH. now destruct (mapGet key rest).
Qed.

Lemma mapGet_None key cache :
  mapGet key cache = None <-> ~ In key (map fst cache).
Proof.
  induction cache as [|[k v] rest IH]; simpl; [tauto|].
  destruct (String.eqb_spec k key) as [-> | Hk].
  - split; [discriminate | intros H; exfalso; apply H; now left].
  - rewrite IH. tauto.
Qed.

Lemma mapSet_NoDup key (value : CacheEntry Data) cache :
  NoDup (map fst cache) -> NoDup (map fst (mapSet key value cache)).
Proof.
  intros Hnd. rewrite mapSet_keys.
  destruct (mapGet key cache) eqn:Hget; [exact Hnd|].
  apply mapGet_None in Hget.
  apply NoDup_app; repeat split; trivial.
  - intros x Hx Hin. apply list_elem_of_In in Hx. apply list_elem_of_In in Hin.
    destruct Hin as [<- | []]. contradiction.
  - apply NoDup_singleton.
Qed.

Lemma mapDelete_gone key cache :
  NoDup (map fst cache) -> mapGet key (mapDelete key cache) = None.
Proof.
  induction cache as [|[k v] rest IH]; simpl; [reflexivity|].
  intros Hnd. apply NoDup_cons in Hnd as [Hk Hnd].
  destruct (String.eqb_spec k key) as [-> | Hne]; simpl.
  - apply mapGet_None. intros Hin. apply Hk. now apply list_elem_of_In.
  - destruct (String.eqb_spec k key); [congruence | now apply IH].
Qed.

Lemma mapDelete_length key cache :
  mapGet key cache <> None ->
  S (length (mapDelete key cache)) = length cache.
Proof.
  induction cache as [|[k v] rest IH]; simpl; [congruence|].
  destruct (String.eqb k key); simpl; [reflexivity|].
  intros H. now rewrite IH.
Qed.

Lemma mapSet_length key (value : CacheEntry Data) cache :
  (length (mapSet key value cache) <= S (length cache))%nat.
Proof.
  induction cache as [|[k v] rest IH]; simpl; [lia|].
  destruct (String.eqb k key); simpl; lia.
Qed.

(** X5: reading the cache after writing it.  Within [cacheTTL] (300 s)
    of the write the data written comes back and the cache is left alone;
    later the answer is [null] and the entry is dropped, so that further
    reads miss as well.  The [cacheTime] of a request plays no part. *)
Theorem cache_read_after_write (now later : Z) key (d : Data) cache :
  NoDup (map fst cache) ->
  let written := addToCache now key d cache in
  (later - now <= 300000 ->
     getFromCache later key written = (Some d, written)) /\
  (300000 < later - now ->
     fst (getFromCache later key written) = None /\
     forall t, fst (getFromCache t key (snd (getFromCache later key written)))
               = None).
Proof.
  intros Hnd written.
  assert (Hget : mapGet key written = Some (mkCacheEntry d now))
    by apply mapGet_mapSet.
  unfold getFromCache. rewrite Hget. cbn [timestamp data].
  unfold cacheTTL. split; intros Hage.
  - destruct (Z.ltb_spec (300 * 1000) (later - now)); [lia | reflexivity].
  - destruct (Z.ltb_spec (300 * 1000) (later - now)); [|lia].
    split; [reflexivity|]. intros t. cbn [snd].
    rewrite mapDelete_gone; [reflexivity|]. now apply mapSet_NoDup.
Qed.

(** What the scan holds after the entries [seen]: nothing before the
    first entry, afterwards the key of an entry that is no younger than any
    entry seen. *)
Lemma scan_oldest (seen rest : Cache Data) (acc : option string * option Z) :
  (seen = [] /\ acc = (None, None) \/
   exists k e, acc = (Some k, Some (timestamp e)) /\ In (k, e) seen /\
     forall k' e', In (k', e') seen -> timestamp e <= timestamp e') ->
  (seen ++ rest = [] /\ fold_left scanEntry rest acc = (None, None) \/
   exists k e, fold_left scanEntry rest acc = (Some k, Some (timestamp e)) /\
     In (k, e) (seen ++ rest) /\
     forall k' e', In (k', e') (seen ++ rest) -> timestamp e <= timestamp e').
Proof.
  revert seen acc. induction rest as [|[k1 e1] rest IH]; intros seen acc Hinv.
  - rewrite app_nil_r. exact Hinv.
  - cbn [fold_left].
    replace (seen ++ (k1, e1) :: rest) with ((seen ++ [(k1, e1)]) ++ rest)
      by (now rewrite <- app_assoc).
    apply IH. right. unfold scanEntry. cbn [fst snd].
    destruct Hinv as [[-> ->] | (k & e & -> & Hin & Hmin)].
    + exists k1, e1. cbn. repeat split; [now left|].
      intros k' e' [[= <- <-] | []]. lia.
    + cbn [snd olderThan].
      destruct (Z.ltb_spec (timestamp e1) (timestamp e)) as [Hlt | Hge].
      * exists k1, e1. split; [reflexivity|]. split.
        { apply in_or_app. right. now left. }
        intros k' e' Hin'. apply in_app_or in Hin' as [Hin' | [[= <- <-] | []]].
        -- specialize (Hmin k' e' Hin'). lia.
        -- lia.
      * exists k, e. split; [reflexivity|]. split.
        { apply in_or_app. now left. }
        intros k' e' Hin'. apply in_app_or in Hin' as [Hin' | [[= <- <-] | []]].
        -- exact (Hmin k' e' Hin').
        -- lia.
Qed.

Lemma In_mapGet key (e : CacheEntry Data) cache :
  In (key, e) cache -> mapGet key cache <> None.
Proof.
  induction cache as [|[k v] rest IH]; simpl; [tauto|].
  intros [[= -> ->] | Hin].
  - now rewrite String.eqb_refl.
  - destruct (String.eqb k key); [discriminate | now apply IH].
Qed.

Lemma mapSet_In key (value : CacheEntry Data) cache k e :
  In (k, e) (mapSet key value cache) -> k = key \/ In (k, e) cache.
Proof.
  induction cache as [|[k1 v1] rest IH]; simpl.
  - intros [[= <- <-] | []]. now left.
  - destruct (String.eqb_spec k1 key) as [-> | Hne]; simpl.
    + intros [[= <- <-] | Hin]; [now left | right; now right].
    + intros [Hin | Hin]; [right; now left|].
      destruct (IH Hin) as [-> | Hrest]; [now left | right; now right].
Qed.

(** X6: eviction.  [findOldestCacheEntry] answers [null] only for the
    empty cache, and otherwise names an entry that is no younger than any
    other; with keys that are not empty, storing a response therefore
    never lets the cache grow beyond 100 entries (nor beyond its size
    before, if that was larger). *)
Theorem cache_eviction (now : Z) key (d : Data) (cacheTime : option Z) cache :
  (findOldestCacheEntry cache = None <-> cache = []) /\
  (forall k, findOldestCacheEntry cache = Some k ->
     exists e, In (k, e) cache /\
       forall k' e', In (k', e') cache -> timestamp e <= timestamp e') /\
  (key <> "" -> (forall k e, In (k, e) cache -> k <> "") ->
   (length (storeResponse now key d cacheTime cache)
      <= Nat.max (length cache) 100)%nat).
Proof.
  assert (Hscan : forall c : Cache Data,
            c <> [] ->
            exists k e, findOldestCacheEntry c = Some k /\ In (k, e) c /\
              forall k' e', In (k', e') c -> timestamp e <= timestamp e').
  { intros c Hne.
    destruct (scan_oldest [] c (None, None)) as [[H _] | (k & e & Hf & Hin & Hmin)].
    - now left.
    - now destruct c.
    - exists k, e. split; [|now split].
      unfold findOldestCacheEntry. destruct c; [congruence|]. now rewrite Hf. }
  split; [|split].
  - split; [|intros ->; reflexivity].
    intros Hnone. destruct cache as [|x c]; [reflexivity|].
    destruct (Hscan (x :: c)) as (k & e & Hf & _); [discriminate | congruence].
  - intros k Hk. destruct cache as [|x c]; [discriminate|].
    destruct (Hscan (x :: c)) as (k0 & e & Hf & Hin & Hmin); [discriminate|].
    rewrite Hk in Hf. injection Hf as <-. now exists e.
  - intros Hkey Hkeys. unfold storeResponse.
    destruct (0 <? _); [|lia].
    pose proof (mapSet_length key (mkCacheEntry d now) cache) as Hlen.
    fold (addToCache now key d cache) in Hlen.
    destruct (Nat.ltb_spec cacheSize (length (addToCache now key d cache)))
      as [Hbig | Hsmall]; unfold cacheSize in *; [|lia].
    destruct (Hscan (addToCache now key d cache)) as (k & e & -> & Hin & _).
    { intros Hnil. rewrite Hnil in Hbig. simpl in Hbig. lia. }
    assert (Hk : k <> "").
    { destruct (mapSet_In _ _ _ _ _ Hin) as [-> | Hold];
        [exact Hkey | exact (Hkeys k e Hold)]. }
    apply String.eqb_neq in Hk. rewrite Hk.
    pose proof (mapDelete_length k _ (In_mapGet _ _ _ Hin)). lia.
Qed.

End CacheProps.

Lemma cache_read_after_write_witness :
  getFromCache 299999 "k1" (addToCache 0 "k1" 7%nat []) =
    (Some 7%nat, addToCache 0 "k1" 7%nat []).
Proof.
  destruct (cache_read_after_write 0 299999 "k1" 7%nat [])
    as [Hfresh _].
  - constructor.
  - apply Hfresh. discriminate.
Defined.

End ProxyProps.

(** ** Input sanitising *)

Module SanitizeProps.
Import PasswordPolicy Sanitize.

Lemma replaceAll_app (t : ascii) (r a b : list ascii) :
  replaceAll t r (a ++ b) = replaceAll t r a ++ replaceAll t r b.
Proof. unfold replaceAll. apply flat_map_app. Qed.

(** Replacing after a per-character rewriting is a per-character
    rewriting. *)
Lemma replaceAll_flat_map (t : ascii) (r : list ascii)
  (f : ascii -> list ascii) (s : list ascii) :
  replaceAll t r (flat_map f s) = flat_map (fun c => replaceAll t r (f c)) s.
Proof.
  induction s as [|c s IH]; [reflexivity|].
  cbn [flat_map]. now rewrite replaceAll_app, IH.
Qed.

Lemma flat_map_ext_all {A B} (f g : A -> list B) (l : list A) :
  (forall x, f x = g x) -> flat_map f l = flat_map g l.
Proof. intros H. induction l as [|x l IH]; simpl; [reflexivity|]. now rewrite H, IH. Qed.

Lemma seven_passes_one_pass (c : ascii) :
  replaceAll "`" (chars "&#96;")
    (replaceAll backslash (chars "&#x5C;")
      (replaceAll "/" (chars "&#x2F;")
        (replaceAll "'" (chars "&#x27;")
          (replaceAll doubleQuote (chars "&quot;")
            (replaceAll ">" (chars "&gt;")
              (replaceAll "<" (chars "&lt;") [c])))))) = escapeChar c.
Proof. destruct c as [[] [] [] [] [] [] [] []]; reflexivity. Qed.

Lemma sanitizeInput_single_pass (s : list ascii) :
  sanitizeInput s = flat_map escapeChar s.
Proof.
  destruct s as [|c0 s0]; [reflexivity|]. set (s := c0 :: s0).
  unfold sanitizeInput. fold s. cbv zeta.
  replace (replaceAll "<" (chars "&lt;") s)
    with (flat_map (fun c => replaceAll "<" (chars "&lt;") [c]) s).
  2:{ unfold replaceAll at 2. apply flat_map_ext_all. intros c. simpl.
      now rewrite app_nil_r. }
  rewrite !replaceAll_flat_map.
  apply flat_map_ext_all, seven_passes_one_pass.
Qed.

Lemma escapeChar_clean (c : ascii) : clean (escapeChar c).
Proof.
  destruct c as [[] [] [] [] [] [] [] []]; intros x Hx Hbad; simpl in Hx, Hbad;
    repeat (destruct Hx as [<- | Hx]; [intuition discriminate|]);
    contradiction.
Qed.

Lemma escapeChar_fixed (c : ascii) : ~ In c escaped -> escapeChar c = [c].
Proof.
  intros Hc. unfold escapeChar.
  repeat match goal with
  | |- context [Ascii.eqb c ?x] =>
      destruct (Ascii.eqb_spec c x) as [-> | _];
        [exfalso; apply Hc; simpl; tauto|]
  end.
  reflexivity.
Qed.

Lemma flat_map_escape_clean (s : list ascii) :
  clean s -> flat_map escapeChar s = s.
Proof.
  induction s as [|c s IH]; intros Hs; [reflexivity|].
  cbn [flat_map]. rewrite escapeChar_fixed by (apply Hs; now left).
  rewrite IH; [reflexivity|]. intros x Hx. apply Hs. now right.
Qed.

Lemma sanitizeInput_clean (s : list ascii) : clean (sanitizeInput s).
Proof.
  rewrite sanitizeInput_single_pass. intros x Hx.
  apply in_flat_map in Hx as (c & _ & Hx). now apply (escapeChar_clean c).
Qed.

Lemma sanitizeInput_fixed (s : list ascii) :
  clean s -> sanitizeInput s = s.
Proof.
  intros Hs. rewrite sanitizeInput_single_pass.
  now apply flat_map_escape_clean.
Qed.

Lemma sanitizeInput_twice (s : list ascii) :
  sanitizeInput (sanitizeInput s) = sanitizeInput s.
Proof. apply sanitizeInput_fixed, sanitizeInput_clean. Qed.

(** X7: [sanitizeInput] is one pass that escapes seven characters: the
    later replacements never touch what the earlier ones wrote.  Its result
    contains none of the seven, a text without them comes back unchanged,
    and sanitising twice is sanitising once.  The ampersand is not among
    the seven. *)
Theorem sanitizeInput_escapes (s : list ascii) :
  sanitizeInput s = flat_map escapeChar s /\
  clean (sanitizeInput s) /\
  (clean s -> sanitizeInput s = s) /\
  sanitizeInput (sanitizeInput s) = sanitizeInput s /\
  (length s <= length (sanitizeInput s))%nat /\
  sanitizeInput (chars "&lt;") = chars "&lt;".
Proof.
  split; [apply sanitizeInput_single_pass|].
  split; [apply sanitizeInput_clean|].
  split; [apply sanitizeInput_fixed|].
  split; [apply sanitizeInput_twice|].
  split; [|reflexivity].
  rewrite sanitizeInput_single_pass.
  induction s as [|c s IH]; [reflexivity|].
  cbn [flat_map]. rewrite length_app. simpl.
  assert (1 <= length (escapeChar c))%nat
    by (destruct c as [[] [] [] [] [] [] [] []]; simpl; lia).
  lia.
Qed.

Lemma sanitizeInput_escapes_witness :
  sanitizeInput (chars "plain text") = chars "plain text".
Proof.
  destruct (sanitizeInput_escapes (chars "plain text")) as (_ & _ & Hfix & _).
  apply Hfix. intros c Hc Hbad. simpl in Hc, Hbad.
  repeat (destruct Hc as [<- | Hc]; [intuition discriminate|]).
  contradiction.
Defined.

(** Induction over a JSON tree. *)
Lemma Json_induction (P : Json -> Prop) :
  (forall s, P (JsonString s)) -> (forall n, P (JsonNumber n)) ->
  (forall b, P (JsonBool b)) -> P JsonNull ->
  (forall items, Forall P items -> P (JsonArray items)) ->
  (forall fields, Forall (fun kv => P (snd kv)) fields ->
     P (JsonObject fields)) ->
  forall j, P j.
Proof.
  intros Hs Hn Hb Hnull Harr Hobj. fix IH 1.
  intros [s|n|b| |items|fields];
    [apply Hs | apply Hn | apply Hb | exact Hnull | |].
  - apply Harr. induction items as [|x items IHi]; constructor;
      [apply IH | exact IHi].
  - apply Hobj. induction fields as [|[k v] fields IHf]; constructor;
      [apply IH | exact IHf].
Qed.

Lemma sanitizeObject_strings (j : Json) :
  Forall clean (stringsBelow (sanitizeObject j)).
Proof.
  induction j as [s|n|b| |items IH|fields IH] using Json_induction;
    try (constructor; fail).
  - cbn [sanitizeObject stringsBelow].
    induction items as [|x items IHi]; [constructor|].
    apply Forall_cons_iff in IH as [Hx IH]. cbn [map flat_map].
    apply Forall_app. split; [|now apply IHi].
    destruct x; try exact Hx; try constructor; try constructor.
    apply sanitizeInput_clean.
  - cbn [sanitizeObject stringsBelow].
    induction fields as [|[k x] fields IHf]; [constructor|].
    apply Forall_cons_iff in IH as [Hx IH]. cbn [map flat_map fst snd].
    apply Forall_app. split; [|now apply IHf].
    cbn [snd] in Hx.
    destruct x; try exact Hx; try constructor; try constructor.
    apply sanitizeInput_clean.
Qed.

Lemma sanitizeObject_keys (j : Json) :
  keysBelow (sanitizeObject j) = keysBelow j.
Proof.
  induction j as [s|n|b| |items IH|fields IH] using Json_induction;
    try reflexivity.
  - cbn [sanitizeObject keysBelow].
    induction items as [|x items IHi]; [reflexivity|].
    apply Forall_cons_iff in IH as [Hx IH]. cbn [map flat_map].
    rewrite (IHi IH). f_equal. destruct x; try exact Hx; reflexivity.
  - cbn [sanitizeObject keysBelow].
    induction fields as [|[k x] fields IHf]; [reflexivity|].
    apply Forall_cons_iff in IH as [Hx IH]. cbn [map flat_map fst snd].
    rewrite (IHf IH). cbn [snd] in Hx. f_equal. f_equal.
    destruct x; try exact Hx; reflexivity.
Qed.

Lemma map_twice {A} (f : A -> A) (l : list A) :
  Forall (fun x => f (f x) = f x) l -> map f (map f l) = map f l.
Proof.
  induction l as [|x l IH]; intros H; [reflexivity|].
  apply Forall_cons_iff in H as [Hx H]. cbn [map]. now rewrite Hx, IH.
Qed.

Lemma sanitizeObject_twice (j : Json) :
  sanitizeObject (sanitizeObject j) = sanitizeObject j.
Proof.
  pose proof sanitizeInput_twice as Hin.
  induction j as [s|n|b| |items IH|fields IH] using Json_induction;
    try reflexivity.
  - cbn [sanitizeObject]. f_equal. apply map_twice.
    eapply Forall_impl; [exact IH|]. cbv beta.
    intros x Hx. destruct x; try reflexivity; try exact Hx. now rewrite Hin.
  - cbn [sanitizeObject]. f_equal. apply map_twice.
    eapply Forall_impl; [exact IH|]. cbv beta.
    intros [k x] Hx. cbn [fst snd] in *. f_equal.
    destruct x; try reflexivity; try exact Hx. now rewrite Hin.
Qed.

(** X8: after [sanitizeObject] every string value below an array or an
    object, at any depth, is free of the seven characters, while the keys
    are what they were; sanitising again changes nothing.  A string handed
    in at the top is returned as it is. *)
Theorem sanitizeObject_cleans (j : Json) :
  Forall clean (stringsBelow (sanitizeObject j)) /\
  keysBelow (sanitizeObject j) = keysBelow j /\
  sanitizeObject (sanitizeObject j) = sanitizeObject j /\
  (forall s, sanitizeObject (JsonString s) = JsonString s).
Proof.
  split; [apply sanitizeObject_strings|].
  split; [apply sanitizeObject_keys|].
  split; [apply sanitizeObject_twice | reflexivity].
Qed.

End SanitizeProps.

(** ** The token guard and registration *)

Module AuthRoutesProps.
Import Schema Storage Auth AuthRoutes StorageProps AuthProps.

Lemma bearerToken_second_word (scheme token : string) :
  ~ In " "%char (list_ascii_of_string scheme) ->
  ~ In " "%char (list_ascii_of_string token) ->
  bearerToken (String.append scheme (String " " token)) = Some token.
Proof.
  intros Hs Ht. unfold bearerToken.
  rewrite CryptoProps.split_append by assumption.
  now rewrite CryptoProps.split_no_separator by assumption.
Qed.

(** X9: [authenticateJWT] answers 401 exactly when the request has
    neither a non-empty [Authorization] header nor a non-empty [token]
    cookie.  A header, when present, decides alone: its second word is the
    token whatever the first word is, the cookie is not looked at, and a
    header of one word is refused with 403. *)
Theorem authenticateJWT_header_first {Claims : Type}
  (verify : string -> option Claims) (req : TokenRequest) :
  (authenticateJWT verify req = Status401 <->
     present (authorization req) = None /\ present (cookieToken req) = None) /\
  (forall scheme token cookie,
     ~ In " "%char (list_ascii_of_string scheme) ->
     ~ In " "%char (list_ascii_of_string token) ->
     authenticateJWT verify
       (mkTokenRequest (Some (String.append scheme (String " " token))) cookie)
     = match verify token with
       | Some user => Verified user
       | None => Status403
       end) /\
  (forall header cookie,
     header <> "" -> ~ In " "%char (list_ascii_of_string header) ->
     authenticateJWT verify (mkTokenRequest (Some header) cookie) = Status403) /\
  (forall scheme token rest cookie,
     ~ In " "%char (list_ascii_of_string scheme) ->
     ~ In " "%char (list_ascii_of_string token) ->
     authenticateJWT verify
       (mkTokenRequest
          (Some (String.append scheme
                   (String " " (String.append token (String " " rest)))))
          cookie)
     = match verify token with
       | Some user => Verified user
       | None => Status403
       end).
Proof.
  split; [|split; [|split]].
  - unfold authenticateJWT.
    destruct (present (authorization req)) as [h|].
    + split; [|intros [H _]; discriminate].
      destruct (verifyToken verify (bearerToken h)); discriminate.
    + destruct (present (cookieToken req)) as [t|].
      * split; [|intros [_ H]; discriminate].
        destruct (verify t); discriminate.
      * tauto.
  - intros scheme token cookie Hs Ht. unfold authenticateJWT.
    cbn [authorization present].
    assert (Hne : String.eqb (String.append scheme (String " " token)) ""
                  = false) by (destruct scheme; reflexivity).
    rewrite Hne, (bearerToken_second_word scheme token Hs Ht). reflexivity.
  - intros header cookie Hne Hno. unfold authenticateJWT.
    cbn [authorization present]. apply String.eqb_neq in Hne. rewrite Hne.
    unfold bearerToken. now rewrite CryptoProps.split_no_separator.
  - intros scheme token rest cookie Hs Ht. unfold authenticateJWT.
    cbn [authorization present].
    assert (Hne : String.eqb
                    (String.append scheme
                       (String " " (String.append token (String " " rest))))
                    "" = false) by (destruct scheme; reflexivity).
    rewrite Hne. unfold bearerToken.
    rewrite !CryptoProps.split_append by assumption. reflexivity.
Qed.

Lemma authenticateJWT_header_first_witness :
  authenticateJWT (fun t => if String.eqb t "good" then Some 7%nat else None)
    (mkTokenRequest (Some "Basic bad") (Some "good")) = Status403.
Proof.
  destruct (authenticateJWT_header_first
              (fun t => if String.eqb t "good" then Some 7%nat else None)
              (mkTokenRequest None None)) as (_ & Hheader & _).
  apply (Hheader "Basic" "bad" (Some "good")); simpl; intuition discriminate.
Defined.

Lemma selectFirst_app_new (cond : User -> bool) (db : Db) (row : User) :
  selectFirst cond db = None -> cond row = true ->
  selectFirst cond (db ++ [row]) = Some row.
Proof.
  unfold selectFirst. induction db as [|r db IH]; simpl; intros Hnone Hrow.
  - now rewrite Hrow.
  - destruct (cond r); [discriminate | now apply IH].
Qed.

Section RegisterProps.

Variable envJwtExpiresIn : option string.
Variable dateToString : Z -> string.
Variable jwtSign : Z -> JsObject -> ExpiresIn -> option string.
Variable hashPassword : string -> string.
Variable comparePasswords : string -> string -> bool.

Local Abbreviation register :=
  (AuthRoutes.register envJwtExpiresIn dateToString jwtSign hashPassword).
Local Abbreviation login :=
  (Auth.login envJwtExpiresIn dateToString jwtSign comparePasswords).
Local Abbreviation payload := (Auth.payload dateToString).
Local Abbreviation expiresIn := (Auth.expiresIn envJwtExpiresIn).

(** A request that gets past the three checks ends in the insert. *)
Lemma register_admitted (newId createdAt now : Z) (db : Db)
  (body : RegisterBody) :
  getUserByUsername db (regUsername body) = None ->
  getUserByEmail db (regEmail body) = None ->
  PasswordPolicy.isValid
    (PasswordPolicy.validate PasswordPolicy.passwordPolicy
       (PasswordPolicy.chars (regPassword body))) = true ->
  register newId createdAt now db body =
    match createUser newId createdAt
            (mkInsertUser body (hashPassword (regPassword body)) now 0) db with
    | None => (db, RegisterError)
    | Some (db1, user) =>
        (db1, match jwtSign now (payload user) expiresIn with
              | Some token => Registered (withoutPassword user) token
              | None => RegisterError
              end)
    end.
Proof.
  intros Hname Hmail Hvalid. unfold AuthRoutes.register.
  rewrite Hname, Hmail, Hvalid. cbn [negb].
  destruct (createUser _ _ _ _) as [[db1 user]|]; [|reflexivity].
  unfold generateToken. now destruct (jwtSign now _ _).
Qed.

(** A request that is refused by one of the three checks. *)
Lemma register_refused (newId createdAt now : Z) (db : Db)
  (body : RegisterBody) :
  ~ (getUserByUsername db (regUsername body) = None /\
     getUserByEmail db (regEmail body) = None /\
     PasswordPolicy.isValid
       (PasswordPolicy.validate PasswordPolicy.passwordPolicy
          (PasswordPolicy.chars (regPassword body))) = true) ->
  fst (register newId createdAt now db body) = db /\
  forall user token,
    snd (register newId createdAt now db body) <> Registered user token.
Proof.
  intros Hno. unfold AuthRoutes.register.
  destruct (getUserByUsername db (regUsername body));
    [split; [reflexivity | discriminate]|].
  destruct (getUserByEmail db (regEmail body));
    [split; [reflexivity | discriminate]|].
  destruct (PasswordPolicy.isValid _); cbn [negb];
    [|split; [reflexivity | discriminate]].
  exfalso. now apply Hno.
Qed.

(** X10: what registration writes.  A row is added only when the user
    name and the e-mail address are unused and the password passes
    [validate]; otherwise the table is left as it was, and the refusal of a
    weak password carries the messages of [validate].  After a successful
    insert the table holds the rows it held and the new one, and the answer
    is the new user and the token that [jwt.sign] delivers (the error, if
    it delivers none).  The row added holds
    the hash and never the password itself, the time of the request as last
    login and a failure counter of 0, whatever the body says; every other
    column holds what the body sent for it, and its default when the body
    sent nothing: so the role is [user] and the account active for a body
    of the three form fields, and a body that sends a role or an account
    status gets that role or status stored.  The insert fails, and nothing
    is added, when the database refuses a value or the id is taken. *)
Theorem register_outcomes (newId createdAt now : Z) (db : Db)
  (body : RegisterBody) :
  let password := PasswordPolicy.chars (regPassword body) in
  let admitted :=
    getUserByUsername db (regUsername body) = None /\
    getUserByEmail db (regEmail body) = None /\
    PasswordPolicy.isValid
      (PasswordPolicy.validate PasswordPolicy.passwordPolicy password) = true in
  let row :=
    mkUser (sentOr (regId body) newId) (regUsername body)
      (hashPassword (regPassword body)) (regEmail body)
      (sentOr (regBio body) None) (Some (sentOr (regRole body) "user"))
      (sentOr (regCreatedAt body) (Some createdAt)) (Some now) (Some 0)
      (sentOr (regAccountStatus body) active)
      (sentOr (regPasswordResetToken body) None)
      (sentOr (regPasswordResetExpires body) None)
      (sentOr (regLastPasswordReset body) None) in
  (admitted -> refusesColumn body = false -> getUser db (id row) = None ->
     Permutation (fst (register newId createdAt now db body)) (row :: db) /\
     snd (register newId createdAt now db body) =
       match jwtSign now (payload row) expiresIn with
       | Some token => Registered (withoutPassword row) token
       | None => RegisterError
       end) /\
  (admitted -> refusesColumn body = true \/ getUser db (id row) <> None ->
     register newId createdAt now db body = (db, RegisterError)) /\
  (~ admitted ->
     fst (register newId createdAt now db body) = db /\
     forall user token,
       snd (register newId createdAt now db body) <> Registered user token) /\
  (forall details strength label,
     snd (register newId createdAt now db body)
       = WeakPassword details strength label ->
     details = PasswordPolicy.errors
                 (PasswordPolicy.validate PasswordPolicy.passwordPolicy password)
     /\ details <> []) /\
  field "password" (withoutPassword row) = None.
Proof.
  intros password admitted row.
  split; [|split; [|split; [|split]]].
  - intros (Hname & Hmail & Hvalid) Hcolumns Hfree.
    rewrite (register_admitted _ _ _ _ _ Hname Hmail Hvalid).
    unfold createUser, insertedRow. cbn [fromBody insPassword insLastLogin
      insFailedLoginAttempts]. rewrite Hcolumns. fold row. rewrite Hfree.
    cbn [fst snd]. split; [|reflexivity].
    apply (Permutation_app_comm db [row]).
  - intros (Hname & Hmail & Hvalid) Hfails.
    rewrite (register_admitted _ _ _ _ _ Hname Hmail Hvalid).
    unfold createUser, insertedRow. cbn [fromBody insPassword insLastLogin
      insFailedLoginAttempts].
    destruct (refusesColumn body); [reflexivity|]. fold row.
    destruct Hfails as [Hrefused | Htaken]; [discriminate|].
    destruct (getUser db (id row)); [reflexivity | congruence].
  - apply register_refused.
  - intros details strength label Hweak.
    unfold AuthRoutes.register in Hweak. fold password in Hweak.
    destruct (getUserByUsername db (regUsername body)); [discriminate|].
    destruct (getUserByEmail db (regEmail body)); [discriminate|].
    destruct (PasswordPolicy.isValid _) eqn:Hvalid; cbn [negb] in Hweak.
    + destruct (createUser _ _ _ _) as [[db1 user]|]; [|discriminate].
      destruct (generateToken _ _ _ _ _); discriminate.
    + cbn [snd] in Hweak. injection Hweak as <- _ _.
      split; [reflexivity|]. intros Hnil.
      rewrite (proj2 (PolicyProps.isValid_errors
                        PasswordPolicy.passwordPolicy password) Hnil)
        in Hvalid.
      discriminate.
  - reflexivity.
Qed.

(** The row behind a successful registration. *)
Lemma register_registered (newId createdAt now : Z) (db db1 : Db)
  (body : RegisterBody) (user : JsObject) (token : string) :
  register newId createdAt now db body = (db1, Registered user token) ->
  exists row,
    db1 = db ++ [row] /\ user = withoutPassword row /\
    getUserByUsername db (regUsername body) = None /\
    getUser db (id row) = None /\
    username row = regUsername body /\
    password row = hashPassword (regPassword body) /\
    failedLoginAttempts row = Some 0 /\
    accountStatus row = sentOr (regAccountStatus body) active.
Proof.
  intros Hreg. unfold AuthRoutes.register in Hreg.
  destruct (getUserByUsername db (regUsername body)) eqn:Hname;
    [discriminate|].
  destruct (getUserByEmail db (regEmail body)); [discriminate|].
  destruct (PasswordPolicy.isValid _); cbn [negb] in Hreg; [|discriminate].
  unfold createUser, insertedRow in Hreg.
  cbn [fromBody insPassword insLastLogin insFailedLoginAttempts] in Hreg.
  destruct (refusesColumn body); [discriminate|].
  match type of Hreg with
  | context [getUser db (id ?r)] => set (row := r) in *
  end.
  destruct (getUser db (id row)) eqn:Hfree; [discriminate|].
  destruct (generateToken _ _ _ _ _); [|discriminate].
  injection Hreg as <- <- _. exists row. now repeat split.
Qed.

(** X11: from registration to the first login.  After a successful
    registration with a non-empty user name without an at sign, and with a
    [comparePasswords] that accepts the password against its own hash, a
    login with the registered name and password passes the password check
    if the body sent no account status, or the status [active]: the failure
    counter is 0 afterwards, and the answer is the user without a password
    field and the token that [jwt.sign] delivers (the error, if it delivers
    none).  If the body sent the status [suspended] or [inactive], the
    account it registered is refused at login. *)
Theorem register_then_login (newId createdAt now later : Z) (db : Db)
  (body : RegisterBody) :
  containsAt (regUsername body) = false ->
  regUsername body <> "" ->
  comparePasswords (regPassword body) (hashPassword (regPassword body)) = true ->
  forall db1 user token,
    register newId createdAt now db body = (db1, Registered user token) ->
    let attempt :=
      login later db1
        (mkLoginBody (Some (regUsername body)) (regPassword body)) in
    exists row,
      accountIs db1 (regUsername body) row /\
      (regAccountStatus body = Missing \/
       regAccountStatus body = Read active ->
         option_map failedLoginAttempts (getUser (fst attempt) (id row))
           = Some (Some 0) /\
         (forall token2,
            jwtSign later (payload row) expiresIn = Some token2 ->
            exists user2,
              snd attempt = LoggedIn user2 token2 /\
              field "password" user2 = None) /\
         (jwtSign later (payload row) expiresIn = None ->
            snd attempt = InternalError)) /\
      (regAccountStatus body = Read suspended ->
         attempt = (db1, AccountSuspended)) /\
      (regAccountStatus body = Read inactive ->
         attempt = (db1, AccountInactive)).
Proof.
  intros Hat Hname Hcmp db1 user token Hreg attempt.
  destruct (register_registered _ _ _ _ _ _ _ _ Hreg)
    as (row & -> & _ & Hunused & Hfree & Huser & Hpass & Hcount & Hstatus).
  assert (Haccount : accountIs (db ++ [row]) (regUsername body) row).
  { split.
    - unfold findByIdentifier. rewrite Hat. unfold getUserByUsername.
      apply selectFirst_app_new; [exact Hunused|].
      rewrite Huser. apply String.eqb_refl.
    - unfold getUser. apply selectFirst_app_new; [exact Hfree|].
      apply Z.eqb_refl. }
  assert (Hfound : findByIdentifier (db ++ [row])
                     (orDefault (Some (regUsername body)) "") = Some row).
  { rewrite (JsProps.orDefault_nonempty _ _ Hname). apply Haccount. }
  exists row. split; [exact Haccount|].
  split; [|split].
  - intros Hsent.
    assert (Hactive : accountStatus row = active).
    { rewrite Hstatus. now destruct Hsent as [-> | ->]. }
    assert (Hright : comparePasswords
                       (bodyPassword
                          (mkLoginBody (Some (regUsername body))
                             (regPassword body))) (password row) = true).
    { cbn [bodyPassword]. now rewrite Hpass. }
    destruct (checkPassword_right envJwtExpiresIn dateToString jwtSign
                comparePasswords later (db ++ [row]) (regUsername body) row
                _ Haccount Hright) as (db2 & Hcp & Hacc2).
    assert (Hattempt : attempt =
              (db2, match jwtSign later (payload row) expiresIn with
                    | Some token2 => LoggedIn (withoutPassword row) token2
                    | None => InternalError
                    end)).
    { unfold attempt, Auth.login. cbn [bodyUsername].
      rewrite Hfound, Hactive. exact Hcp. }
    rewrite Hattempt. cbn [fst snd]. split; [|split].
    + destruct Hacc2 as [_ Hget].
      change (getUser db2 (id row) =
              Some (setLastLogin (Some later)
                      (setFailedLoginAttempts (Some 0) row))) in Hget.
      now rewrite Hget.
    + intros token2 ->. eexists. split; reflexivity.
    + now intros ->.
  - intros Hsent. unfold attempt, Auth.login. cbn [bodyUsername].
    rewrite Hfound, Hstatus, Hsent. reflexivity.
  - intros Hsent. unfold attempt, Auth.login. cbn [bodyUsername].
    rewrite Hfound, Hstatus, Hsent. reflexivity.
Qed.

End RegisterProps.

Lemma register_outcomes_witness :
  Permutation
    (fst (AuthRoutes.register None Samples.printDate Samples.signStub
            Samples.hashStub 9 5001 5000 Samples.usersTable
            (mkRegisterBody "nova" "nova@example.com" "Tr0ub4dor!9" Missing
               Missing (Read "admin") Missing Missing Missing Missing
               Missing)))
    (mkUser 9 "nova" (Samples.hashStub "Tr0ub4dor!9") "nova@example.com"
       None (Some "admin") (Some 5001) (Some 5000) (Some 0) active None None
       None :: Samples.usersTable).
Proof.
  destruct (register_outcomes None Samples.printDate Samples.signStub
              Samples.hashStub 9 5001 5000 Samples.usersTable
              (mkRegisterBody "nova" "nova@example.com" "Tr0ub4dor!9" Missing
                 Missing (Read "admin") Missing Missing Missing Missing
                 Missing))
    as (Hok & _).
  destruct Hok as [Hrows _];
    [repeat split; reflexivity | reflexivity | reflexivity | exact Hrows].
Defined.

Lemma register_then_login_witness :
  exists user2,
    snd (Auth.login None Samples.printDate Samples.signStub Samples.verifyStub
           6000
           (fst (AuthRoutes.register None Samples.printDate Samples.signStub
                   Samples.hashStub 9 5001 5000 Samples.usersTable
                   (formBody "nova" "nova@example.com" "Tr0ub4dor!9")))
           (mkLoginBody (Some "nova") "Tr0ub4dor!9")) =
      LoggedIn user2 "eyJhbGciOiJIUzI1NiJ9.e30.c2lnbmVk" /\
    field "password" user2 = None.
Proof.
  destruct (register_then_login None Samples.printDate Samples.signStub
              Samples.hashStub Samples.verifyStub 9 5001 5000 6000
              Samples.usersTable
              (formBody "nova" "nova@example.com" "Tr0ub4dor!9")
              eq_refl ltac:(discriminate) eq_refl _ _ _ eq_refl)
    as (row & Hacc & Hactive & _).
  destruct Hactive as (_ & Htoken & _); [now left|].
  destruct Hacc as [Hfind _]. vm_compute in Hfind. injection Hfind as <-.
  apply Htoken. reflexivity.
Defined.

End AuthRoutesProps.

(** ** More on the login route *)

Module LoginFrameProps.
Import Schema Storage Auth StorageProps AuthProps.

Lemma updateWhereId_twice (userId : Z) (f g : User -> User) (db : Db) :
  (forall row, id (g row) = id row) ->
  updateWhereId userId f (updateWhereId userId g db) =
  updateWhereId userId (fun row => f (g row)) db.
Proof.
  intros Hg. unfold updateWhereId. rewrite map_map. apply map_ext.
  intros row. destruct (Z.eqb_spec (id row) userId) as [Heq | Hne].
  - rewrite Hg. destruct (Z.eqb_spec (id row) userId); [reflexivity | contradiction].
  - destruct (Z.eqb_spec (id row) userId); [contradiction | reflexivity].
Qed.

Lemma updateWhereId_same (userId : Z) (db : Db) :
  updateWhereId userId (fun row => row) db = db.
Proof.
  unfold updateWhereId. rewrite <- (map_id db) at 2. apply map_ext.
  intros row. now destruct (id row =? userId).
Qed.

Lemma updateWhereId_keeps {A} (proj : User -> A) (userId : Z)
  (f : User -> User) (db : Db) :
  (forall row, proj (f row) = proj row) ->
  map proj (updateWhereId userId f db) = map proj db.
Proof.
  intros Hf. unfold updateWhereId. rewrite map_map. apply map_ext.
  intros row. destruct (id row =? userId); [apply Hf | reflexivity].
Qed.

Section LoginFrame.

Variable envJwtExpiresIn : option string.
Variable dateToString : Z -> string.
Variable jwtSign : Z -> JsObject -> ExpiresIn -> option string.
Variable comparePasswords : string -> string -> bool.

Local Abbreviation login :=
  (Auth.login envJwtExpiresIn dateToString jwtSign comparePasswords).
Local Abbreviation loginSeries :=
  (Auth.loginSeries envJwtExpiresIn dateToString jwtSign comparePasswords).

(** Whatever the request, the table after [login] is the table before
    with one update, by the id of the row found, that leaves the
    identifying columns, the password and the role alone. *)
Lemma login_is_one_update (now : Z) (db : Db) (body : LoginBody) :
  exists (userId : Z) (f : User -> User),
    fst (login now db body) = updateWhereId userId f db /\
    (forall u, findByIdentifier db (orDefault (bodyUsername body) "") = Some u ->
       userId = id u) /\
    (forall row,
       id (f row) = id row /\ username (f row) = username row /\
       email (f row) = email row /\ password (f row) = password row /\
       role (f row) = role row).
Proof.
  unfold Auth.login.
  destruct (findByIdentifier db (orDefault (bodyUsername body) ""))
    as [u|] eqn:Hfind.
  2:{ exists 0, (fun row => row). rewrite updateWhereId_same.
      repeat split. intros u Hu. discriminate. }
  assert (Hid : forall v, Some u = Some v -> id u = id v)
    by (intros v [= <-]; reflexivity).
  assert (Hcheck : forall db0 (g : User -> User) (v : User),
            id v = id u ->
            db0 = updateWhereId (id u) g db ->
            (forall row,
               id (g row) = id row /\ username (g row) = username row /\
               email (g row) = email row /\ password (g row) = password row /\
               role (g row) = role row) ->
            exists f,
              fst (Auth.checkPassword envJwtExpiresIn dateToString
                     jwtSign comparePasswords now db0 v body)
              = updateWhereId (id u) f db /\
              (forall row,
                 id (f row) = id row /\ username (f row) = username row /\
                 email (f row) = email row /\ password (f row) = password row /\
                 role (f row) = role row)).
  { intros db0 g v Hv -> Hg. unfold Auth.checkPassword.
    unfold incrementLoginAttempt, updateUserAccountStatus, updateUserLastLogin,
      resetUserLoginAttempts. rewrite Hv.
    assert (Hgid : forall row, id (g row) = id row) by (intros row; apply Hg).
    destruct (negb _).
    - destruct (MAX_LOGIN_ATTEMPTS <=? _); cbn [fst];
        rewrite !updateWhereId_twice
          by (intros row; cbn; first [reflexivity | apply Hgid]);
        (eexists; split; [reflexivity|]); intros row; cbn; apply Hg.
    - destruct (Auth.generateToken _ _ _ _ _); cbn [fst];
        rewrite !updateWhereId_twice
          by (intros row; cbn; first [reflexivity | apply Hgid]);
        (eexists; split; [reflexivity|]); intros row; cbn; apply Hg. }
  exists (id u).
  destruct (accountStatus u) eqn:Hst.
  - destruct (Hcheck db (fun row => row) u eq_refl) as (f & Hf & Hkeep).
    + now rewrite updateWhereId_same.
    + now repeat split.
    + exists f. split; [exact Hf|]. split; [exact Hid | exact Hkeep].
  - destruct (lastLogin u) as [since|].
    2:{ exists (fun row => row). rewrite updateWhereId_same.
        split; [reflexivity|]. split; [exact Hid | now repeat split]. }
    destruct (now <? since + ACCOUNT_LOCK_TIME_MS).
    { exists (fun row => row). rewrite updateWhereId_same.
      split; [reflexivity|]. split; [exact Hid | now repeat split]. }
    destruct (Hcheck
                (resetUserLoginAttempts (id u)
                   (updateUserAccountStatus (id u) active db))
                (fun row => setFailedLoginAttempts (Some 0)
                              (setAccountStatus active row))
                (setFailedLoginAttempts (Some 0) (setAccountStatus active u))
                eq_refl) as (f & Hf & Hkeep).
    + unfold resetUserLoginAttempts, updateUserAccountStatus.
      now rewrite updateWhereId_twice by (intros row; reflexivity).
    + now repeat split.
    + exists f. split; [exact Hf|]. split; [exact Hid | exact Hkeep].
  - exists (fun row => row). rewrite updateWhereId_same.
    split; [reflexivity|]. split; [exact Hid | now repeat split].
  - exists (fun row => row). rewrite updateWhereId_same.
    split; [reflexivity|]. split; [exact Hid | now repeat split].
Qed.

(** X12: what [login] never does.  It never adds or removes rows and
    never changes an id, a user name, an e-mail address, a stored password
    or a role: the rows of the table, taken in whatever order and reduced
    to these five columns, are the same before and after.  It never
    touches the row of any user but the one it found; and for an unknown
    identifier, or a suspended or inactive account, it changes nothing at
    all and the password makes no difference to the answer. *)
Theorem login_frame (now : Z) (db : Db) (body : LoginBody) :
  let identifier := orDefault (bodyUsername body) "" in
  let db' := fst (login now db body) in
  let kept (row : User) :=
    (id row, username row, email row, password row, role row) in
  Permutation (map kept db') (map kept db) /\
  (forall u other,
     findByIdentifier db identifier = Some u -> other <> id u ->
     getUser db' other = getUser db other) /\
  (findByIdentifier db identifier = None ->
     login now db body = (db, InvalidCredentials None)) /\
  (forall u, findByIdentifier db identifier = Some u ->
     accountStatus u = suspended ->
     login now db body = (db, AccountSuspended)) /\
  (forall u, findByIdentifier db identifier = Some u ->
     accountStatus u = inactive ->
     login now db body = (db, AccountInactive)).
Proof.
  intros identifier db' kept.
  destruct (login_is_one_update now db body) as (userId & f & Hdb & Hid & Hf).
  fold db' in Hdb. fold identifier in Hid.
  split; [|split; [|split; [|split]]].
  - rewrite Hdb, (updateWhereId_keeps kept); [reflexivity|]. intros row.
    unfold kept. destruct (Hf row) as (-> & -> & -> & -> & ->). reflexivity.
  - intros u other Hu Hother. rewrite Hdb, (Hid u Hu).
    apply getUser_update_other; [|congruence].
    intros row. destruct (Hf row) as (H1 & H2 & H3 & _). now repeat split.
  - intros Hnone. unfold Auth.login. fold identifier. now rewrite Hnone.
  - intros u Hu Hst. unfold Auth.login. fold identifier. now rewrite Hu, Hst.
  - intros u Hu Hst. unfold Auth.login. fold identifier. now rewrite Hu, Hst.
Qed.

Lemma login_active (now : Z) (db : Db) (body : LoginBody) (u : User) :
  findByIdentifier db (orDefault (bodyUsername body) "") = Some u ->
  accountStatus u = active ->
  login now db body =
  Auth.checkPassword envJwtExpiresIn dateToString jwtSign comparePasswords
    now db u body.
Proof. intros Hfind Hst. unfold Auth.login. now rewrite Hfind, Hst. Qed.

(** X13: the bound on the failure counter is restored by every login.
    Whatever the row of the account held before, after a login request
    that names it the account is either not active or has fewer than 5
    failures on record; its stored password is what it was. *)
Theorem login_restores_bound (now : Z) (db : Db) (body : LoginBody)
  (u : User) :
  let identifier := orDefault (bodyUsername body) "" in
  accountIs db identifier u ->
  exists u',
    accountIs (fst (login now db body)) identifier u' /\
    password u' = password u /\
    (accountStatus u' = active -> orZero (failedLoginAttempts u') < 5).
Proof.
  intros identifier Hacc.
  assert (Hcheck : forall db0 v,
            accountIs db0 identifier v ->
            exists v',
              accountIs
                (fst (Auth.checkPassword envJwtExpiresIn dateToString
                        jwtSign comparePasswords now db0 v body)) identifier v' /\
              password v' = password v /\
              (accountStatus v' = active ->
               orZero (failedLoginAttempts v') < 5)).
  { intros db0 v Hv.
    destruct (comparePasswords (bodyPassword body) (password v)) eqn:Hcmp.
    - destruct (checkPassword_right envJwtExpiresIn dateToString
                  jwtSign comparePasswords now db0 identifier v body Hv Hcmp)
        as (db1 & -> & H1).
      eexists. split; [exact H1|]. split; [reflexivity|]. intros _. cbn. lia.
    - destruct (checkPassword_wrong envJwtExpiresIn dateToString
                  jwtSign comparePasswords now db0 identifier v body Hv Hcmp)
        as (db1 & Hlow & Hhigh).
      destruct (Z.lt_ge_cases (orZero (failedLoginAttempts v) + 1) 5)
        as [Hlt | Hge].
      + destruct (Hlow Hlt) as [-> H1].
        eexists. split; [exact H1|]. split; [reflexivity|]. intros _. cbn. lia.
      + destruct (Hhigh Hge) as [-> H1].
        eexists. split; [exact H1|]. split; [reflexivity|]. discriminate. }
  assert (Hsame : forall resp,
            login now db body = (db, resp) -> accountStatus u <> active ->
            exists u',
              accountIs (fst (login now db body)) identifier u' /\
              password u' = password u /\
              (accountStatus u' = active ->
               orZero (failedLoginAttempts u') < 5)).
  { intros resp -> Hna. exists u. repeat split; try apply Hacc. contradiction. }
  destruct (accountStatus u) eqn:Hst.
  - rewrite (login_active now db body u (proj1 Hacc) Hst). now apply Hcheck.
  - destruct (lastLogin u) as [since|] eqn:Hsince.
    + destruct (Z.lt_ge_cases now (since + 30 * 60 * 1000)) as [Hlt | Hge].
      * eapply Hsame; [|congruence]. unfold Auth.login. fold identifier.
        destruct Hacc as [-> _]. rewrite Hst, Hsince.
        unfold ACCOUNT_LOCK_TIME_MS.
        destruct (Z.ltb_spec now (since + 30 * 60 * 1000)); [reflexivity | lia].
      * destruct (login_reopens envJwtExpiresIn dateToString jwtSign
                    comparePasswords now since db body u Hacc Hst Hsince Hge)
          as (db0 & -> & Hacc0).
        destruct (Hcheck db0 _ Hacc0) as (v' & H1 & H2 & H3).
        exists v'. split; [exact H1|]. split; [exact H2 | exact H3].
    + eapply Hsame; [|congruence]. unfold Auth.login. fold identifier.
      destruct Hacc as [-> _]. now rewrite Hst, Hsince.
  - eapply Hsame; [|congruence]. unfold Auth.login. fold identifier.
    destruct Hacc as [-> _]. now rewrite Hst.
  - eapply Hsame; [|congruence]. unfold Auth.login. fold identifier.
    destruct Hacc as [-> _]. now rewrite Hst.
Qed.

(** A run of wrong passwords that stays below the threshold only
    counts. *)
Lemma failures_below_threshold (identifier : string)
  (attempts : list (Z * LoginBody)) (db : Db) (u : User) :
  accountIs db identifier u -> accountStatus u = active ->
  Forall (fun a =>
            orDefault (bodyUsername (snd a)) "" = identifier /\
            comparePasswords (bodyPassword (snd a)) (password u) = false)
    attempts ->
  orZero (failedLoginAttempts u) + Z.of_nat (length attempts) < 5 ->
  exists db' u',
    loginSeries attempts db =
      (db', map (fun i => InvalidCredentials
                            (Some (4 - orZero (failedLoginAttempts u)
                                   - Z.of_nat i)))
              (seq 0 (length attempts))) /\
    accountIs db' identifier u' /\ accountStatus u' = active /\
    password u' = password u /\
    orZero (failedLoginAttempts u') =
      orZero (failedLoginAttempts u) + Z.of_nat (length attempts).
Proof.
  revert db u. induction attempts as [|[now body] attempts IH];
    intros db u Hacc Hst Hall Hlt.
  - exists db, u. cbn. repeat split; try apply Hacc; trivial. lia.
  - apply Forall_cons_iff in Hall as [[Hident Hwrong] Hall].
    cbn [snd] in Hident, Hwrong. cbn [length] in Hlt.
    destruct (checkPassword_wrong envJwtExpiresIn dateToString
                jwtSign comparePasswords now db identifier u body Hacc Hwrong)
      as (db1 & Hlow & _).
    destruct Hlow as [Hcp Hacc1]; [lia|].
    set (n := orZero (failedLoginAttempts u) + 1) in *.
    destruct (IH db1 (setFailedLoginAttempts (Some n) u) Hacc1 Hst)
      as (db' & u' & Hseries & Hacc' & Hst' & Hpw & Hcount).
    + exact Hall.
    + cbn. lia.
    + exists db', u'. cbn [Auth.loginSeries length seq map].
      rewrite (login_active now db body u); [|rewrite Hident; apply Hacc|exact Hst].
      rewrite Hcp, Hseries.
      split; [|split; [exact Hacc'|]; split; [exact Hst'|];
               split; [exact Hpw|]; cbn in Hcount; subst n;
               cbn [length]; lia].
      f_equal. f_equal.
      * f_equal. f_equal. unfold MAX_LOGIN_ATTEMPTS. lia.
      * rewrite <- seq_shift, map_map. apply map_ext. intros i.
        cbn [failedLoginAttempts setFailedLoginAttempts orZero].
        f_equal. f_equal. lia.
Qed.

(** X14: consecutive failures lock the account, in general.  From an
    active account with [c] failures on record, any [5 - c] further
    attempts with wrong passwords, at any times, are answered with the
    falling count of remaining attempts and, at the last of them, with the
    lock; the account is then locked with that attempt's time as reference
    and its stored password unchanged, and any attempt before the half
    hour is over is answered [AccountLocked], whatever its password. *)
Theorem consecutive_failures_lock (identifier : string)
  (attempts : list (Z * LoginBody)) (lastTime : Z) (lastBody : LoginBody)
  (db : Db) (u : User) :
  accountIs db identifier u -> accountStatus u = active ->
  Forall (fun a =>
            orDefault (bodyUsername (snd a)) "" = identifier /\
            comparePasswords (bodyPassword (snd a)) (password u) = false)
    (attempts ++ [(lastTime, lastBody)]) ->
  orZero (failedLoginAttempts u) + Z.of_nat (length attempts) = 4 ->
  exists db' u',
    loginSeries (attempts ++ [(lastTime, lastBody)]) db =
      (db', map (fun i => InvalidCredentials
                            (Some (4 - orZero (failedLoginAttempts u)
                                   - Z.of_nat i)))
              (seq 0 (length attempts)) ++ [AccountLocked 30]) /\
    accountIs db' identifier u' /\ accountStatus u' = locked /\
    lastLogin u' = Some lastTime /\ failedLoginAttempts u' = Some 5 /\
    password u' = password u /\
    (forall now body,
       orDefault (bodyUsername body) "" = identifier ->
       now < lastTime + 30 * 60 * 1000 ->
       exists minutes, login now db' body = (db', AccountLocked minutes)).
Proof.
  intros Hacc Hst Hall Hcount.
  apply Forall_app in Hall as [Hall Hlast].
  apply Forall_cons_iff in Hlast as [[Hident Hwrong] _].
  cbn [snd] in Hident, Hwrong.
  destruct (failures_below_threshold identifier attempts db u Hacc Hst Hall)
    as (db1 & u1 & Hseries & Hacc1 & Hst1 & Hpw1 & Hc1); [lia|].
  rewrite <- Hpw1 in Hwrong.
  destruct (checkPassword_wrong envJwtExpiresIn dateToString jwtSign
              comparePasswords lastTime db1 identifier u1 lastBody Hacc1 Hwrong)
    as (db2 & _ & Hhigh).
  destruct Hhigh as [Hcp Hacc2]; [lia|].
  exists db2. eexists. split; [|split; [exact Hacc2|]].
  - assert (Hsplit : forall l1 l2 d,
              loginSeries (l1 ++ l2) d =
              let (d1, r1) := loginSeries l1 d in
              let (d2, r2) := loginSeries l2 d1 in (d2, r1 ++ r2)).
    { induction l1 as [|[t b] l1 IHl]; intros l2 d; cbn [app Auth.loginSeries].
      - now destruct (loginSeries l2 d).
      - destruct (login t d b) as [d1 r]. rewrite IHl.
        destruct (loginSeries l1 d1) as [d2 rs].
        now destruct (loginSeries l2 d2). }
    rewrite Hsplit, Hseries. cbn [Auth.loginSeries].
    rewrite (login_active lastTime db1 lastBody u1);
      [|rewrite Hident; apply Hacc1|exact Hst1].
    now rewrite Hcp.
  - split; [reflexivity|]. split; [reflexivity|].
    split; [cbn; f_equal; lia|]. split; [exact Hpw1|].
    intros now body Hbody Hnow. eexists.
    unfold Auth.login. rewrite Hbody. destruct Hacc2 as [-> _].
    cbn [accountStatus setLastLogin setAccountStatus lastLogin].
    unfold ACCOUNT_LOCK_TIME_MS.
    destruct (Z.ltb_spec now (lastTime + 30 * 60 * 1000)); [reflexivity | lia].
Qed.

End LoginFrame.

Lemma login_frame_witness :
  Auth.login None Samples.printDate Samples.signStub Samples.verifyStub 5000
    Samples.usersTable (mkLoginBody (Some "nobody") "stored") =
    (Samples.usersTable, InvalidCredentials None).
Proof.
  destruct (login_frame None Samples.printDate Samples.signStub Samples.verifyStub 5000
              Samples.usersTable (mkLoginBody (Some "nobody") "stored"))
    as (_ & _ & Hunknown & _).
  apply Hunknown. reflexivity.
Defined.

Lemma login_restores_bound_witness :
  exists u',
    accountIs
      (fst (Auth.login None Samples.printDate Samples.signStub Samples.verifyStub 5000
              Samples.usersTable (mkLoginBody (Some "maria") "guess")))
      "maria" u' /\
    password u' = password Samples.regularUser /\
    (accountStatus u' = active -> orZero (failedLoginAttempts u') < 5).
Proof.
  apply (login_restores_bound None Samples.printDate Samples.signStub Samples.verifyStub 5000
           Samples.usersTable (mkLoginBody (Some "maria") "guess")
           Samples.regularUser).
  split; reflexivity.
Defined.

Lemma consecutive_failures_lock_witness :
  exists db' u',
    Auth.loginSeries None Samples.printDate Samples.signStub Samples.verifyStub
      (firstn 5 Samples.lockoutScenario) Samples.usersTable =
      (db', [InvalidCredentials (Some 4); InvalidCredentials (Some 3);
             InvalidCredentials (Some 2); InvalidCredentials (Some 1);
             AccountLocked 30]) /\
    accountIs db' "maria" u' /\ accountStatus u' = locked.
Proof.
  destruct (consecutive_failures_lock None Samples.printDate
              Samples.signStub Samples.verifyStub "maria"
              (firstn 4 Samples.lockoutScenario) (5 * Samples.minute)
              (mkLoginBody (Some "maria") "guess5")
              Samples.usersTable Samples.regularUser)
    as (db' & u' & Hseries & Hacc & Hst & _).
  - split; reflexivity.
  - reflexivity.
  - repeat constructor.
  - reflexivity.
  - exists db', u'. split; [exact Hseries|]. split; [exact Hacc | exact Hst].
Defined.

End LoginFrameProps.

(** ** Asking for a password reset *)

Module ForgotPasswordProps.
Import Schema Storage Routes ForgotPassword StorageProps RoutesProps.

Lemma recentValid_length (now : Z) (attempts : list Z) :
  (length (recentValid now attempts) <= length attempts)%nat.
Proof. unfold recentValid. apply filter_length_le. Qed.

Section ForgotProps.

Variables (production : bool) (appUrl : option string).

Local Abbreviation forgot := (forgotPassword production appUrl).

(** X15: the limit of three requests per client and hour.  A client with
    three requests inside the last hour is answered [RateLimited] and
    nothing is stored or changed; every request that gets past the limit
    is counted before the e-mail address is looked at, so malformed and
    unknown addresses count as well; and no client's list ever grows
    beyond three entries. *)
Theorem forgotPassword_rate_limit (now checkTime issueTime : Z)
  (fresh : string) (db : Db) (limits : RateLimitMap) (req : ForgotRequest) :
  let recent := recentValid now (default [] (limits !! clientIp req)) in
  let result := forgot now checkTime issueTime fresh db limits req in
  checkOrigin production appUrl req = OriginAccepted ->
  ((3 <= length recent)%nat -> result = (db, limits, RateLimited)) /\
  ((length recent < 3)%nat ->
     snd (fst result) = <[clientIp req := recent ++ [now]]> limits /\
     snd result <> RateLimited) /\
  ((forall ip l, limits !! ip = Some l -> (length l <= 3)%nat) ->
   forall ip l, snd (fst result) !! ip = Some l -> (length l <= 3)%nat).
Proof.
  intros recent result Horigin. unfold result, forgotPassword.
  rewrite Horigin. fold recent.
  destruct (Nat.leb_spec 3 (length recent)) as [Hfull | Hroom].
  - split; [reflexivity|]. split; [lia|]. intros Hinv. exact Hinv.
  - split; [lia|].
    assert (Hlimits :
      forall r : Db * RateLimitMap * ForgotResponse,
        (r = (db, <[clientIp req := recent ++ [now]]> limits, EmailInvalid) \/
         r = (db, <[clientIp req := recent ++ [now]]> limits, EmailSent) \/
         exists db', r = (db', <[clientIp req := recent ++ [now]]> limits,
                          EmailSent)) ->
        snd (fst r) = <[clientIp req := recent ++ [now]]> limits /\
        snd r <> RateLimited).
    { intros r [-> | [-> | [db' ->]]]; split; try reflexivity; discriminate. }
    assert (Hshape :
      let r := match AuthRoutes.present (bodyEmail req) with
               | None => (db, <[clientIp req := recent ++ [now]]> limits,
                          EmailInvalid)
               | Some email =>
                   match getUserByEmail db email with
                   | None => (db, <[clientIp req := recent ++ [now]]> limits,
                              EmailSent)
                   | Some user =>
                       if recentlyIssued checkTime user
                       then (db, <[clientIp req := recent ++ [now]]> limits,
                             EmailSent)
                       else (setPasswordResetToken (id user) fresh
                               (issueTime + 3600000) db,
                             <[clientIp req := recent ++ [now]]> limits,
                             EmailSent)
                   end
               end in
      snd (fst r) = <[clientIp req := recent ++ [now]]> limits /\
      snd r <> RateLimited).
    { cbv zeta. apply Hlimits.
      destruct (AuthRoutes.present (bodyEmail req)); [|now left].
      destruct (getUserByEmail db _); [|right; now left].
      destruct (recentlyIssued checkTime _); right; [now left | right; eauto]. }
    cbv zeta in Hshape. destruct Hshape as [Hmap Hresp].
    split; [intros _; split; assumption|].
    intros Hinv ip l. rewrite Hmap.
    destruct (decide (clientIp req = ip)) as [<- | Hne].
    + rewrite lookup_insert_eq. intros [= <-]. rewrite length_app. simpl. lia.
    + rewrite lookup_insert_ne by assumption. apply Hinv.
Qed.

(** X16: an outstanding token is never replaced.  While the token of the
    account is not yet 15 minutes past its expiry (so, in particular,
    while it is still valid) a further request for the same address
    leaves the table untouched; and whenever the table does change, the
    change is one new token for the account found by the address,
    expiring one hour after it is issued. *)
Theorem forgotPassword_keeps_live_token (now checkTime issueTime : Z)
  (fresh : string) (db : Db) (limits : RateLimitMap) (req : ForgotRequest) :
  let db' := fst (fst (forgot now checkTime issueTime fresh db limits req)) in
  (forall email u expires,
     AuthRoutes.present (bodyEmail req) = Some email ->
     getUserByEmail db email = Some u ->
     passwordResetExpires u = Some expires ->
     checkTime - 900000 < expires ->
     db' = db) /\
  (db' = db \/
   exists email u,
     AuthRoutes.present (bodyEmail req) = Some email /\
     getUserByEmail db email = Some u /\
     recentlyIssued checkTime u = false /\
     db' = setPasswordResetToken (id u) fresh (issueTime + 3600000) db).
Proof.
  intros db'. unfold db', forgotPassword.
  destruct (checkOrigin production appUrl req);
    try (split; [reflexivity | now left]).
  destruct (3 <=? _)%nat; [split; [reflexivity | now left]|].
  destruct (AuthRoutes.present (bodyEmail req)) as [email|];
    [|split; [intros; discriminate | now left]].
  destruct (getUserByEmail db email) as [u|] eqn:Hu;
    [|split; [intros email' u' expires [= <-]; congruence | now left]].
  destruct (recentlyIssued checkTime u) eqn:Hrecent.
  - split; [reflexivity | now left].
  - split.
    + intros email' u' expires [= <-] Hu' Hexp Hlt.
      assert (u' = u) as -> by congruence.
      unfold recentlyIssued in Hrecent. rewrite Hexp in Hrecent.
      apply Z.ltb_ge in Hrecent. lia.
    + right. now exists email, u.
Qed.

(** X17: the answer does not tell whether the address is known.  The
    status sent back, and the record of the client's requests, are the
    same whatever the users table holds: an unknown address, an account
    whose token is still recent and an account that gets a token issued
    are all answered alike. *)
Theorem forgotPassword_reveals_nothing (now : Z) (limits : RateLimitMap)
  (req : ForgotRequest) (db1 db2 : Db) (checkTime1 checkTime2 : Z)
  (issueTime1 issueTime2 : Z) (fresh1 fresh2 : string) :
  let result1 := forgot now checkTime1 issueTime1 fresh1 db1 limits req in
  let result2 := forgot now checkTime2 issueTime2 fresh2 db2 limits req in
  snd result1 = snd result2 /\ snd (fst result1) = snd (fst result2).
Proof.
  cbv zeta. unfold forgotPassword.
  destruct (checkOrigin production appUrl req); try (split; reflexivity).
  destruct (3 <=? _)%nat; [split; reflexivity|].
  destruct (AuthRoutes.present (bodyEmail req)) as [email|];
    [|split; reflexivity].
  destruct (getUserByEmail db1 email) as [u1|],
           (getUserByEmail db2 email) as [u2|];
    try destruct (recentlyIssued checkTime1 u1);
    try destruct (recentlyIssued checkTime2 u2); split; reflexivity.
Qed.

Lemma token_found_after_issue (db : Db) (u : User) (token : string)
  (expires : Z) :
  getUser db (id u) = Some u ->
  (forall row, In row db -> holdsResetToken token row = false) ->
  getUserByResetToken
    (setPasswordResetToken (id u) token expires db) token =
  Some (setResetToken (Some token) (Some expires) u).
Proof.
  unfold getUserByResetToken, setPasswordResetToken, getUser, selectFirst,
    updateWhereId.
  induction db as [|row db IH]; intros Hget Hno; simpl in *; [discriminate|].
  destruct (Z.eqb_spec (id row) (id u)) as [Heq | Hne].
  - injection Hget as ->.
    unfold holdsResetToken at 1. cbn. now rewrite String.eqb_refl.
  - rewrite (Hno row (or_introl eq_refl)). apply IH; [exact Hget|].
    intros r Hr. apply Hno. now right.
Qed.

(** X18: the life of a reset token.  When a request gets a token issued
    (a value no row carries yet), the token validates for the account of
    the address at every moment up to one hour after it was issued and at
    no later moment; within the hour it lets the password be replaced, and
    after that it no longer validates. *)
Theorem reset_token_life (now checkTime issueTime : Z) (fresh : string)
  (db : Db) (limits : RateLimitMap) (req : ForgotRequest) (email : string)
  (u : User) :
  checkOrigin production appUrl req = OriginAccepted ->
  (length (recentValid now (default [] (limits !! clientIp req))) < 3)%nat ->
  AuthRoutes.present (bodyEmail req) = Some email ->
  getUserByEmail db email = Some u ->
  getUser db (id u) = Some u ->
  recentlyIssued checkTime u = false ->
  fresh <> "" ->
  (forall row, In row db -> holdsResetToken fresh row = false) ->
  let db1 := fst (fst (forgot now checkTime issueTime fresh db limits req)) in
  (forall later, later <= issueTime + 3600000 ->
     validateResetToken later db1 fresh = TokenValid (id u)) /\
  (forall later, issueTime + 3600000 < later ->
     validateResetToken later db1 fresh = TokenInvalidOrExpired) /\
  (forall hashPassword later newPassword,
     later <= issueTime + 3600000 -> newPassword <> "" ->
     let consumed :=
       resetPasswordRoute hashPassword later db1
         (mkResetBody (Some fresh) (Some newPassword)) in
     snd consumed = PasswordReset /\
     forall t, validateResetToken t (fst consumed) fresh
               = TokenInvalidOrExpired).
Proof.
  intros Horigin Hroom Hemail Hu Hget Hrecent Hfresh Hnew db1.
  assert (Hdb1 : db1 = setPasswordResetToken (id u) fresh (issueTime + 3600000) db).
  { unfold db1, forgotPassword. rewrite Horigin.
    destruct (Nat.leb_spec 3
                (length (recentValid now (default [] (limits !! clientIp req)))));
      [lia|].
    now rewrite Hemail, Hu, Hrecent. }
  assert (Hfound : getUserByResetToken db1 fresh =
                   Some (setResetToken (Some fresh) (Some (issueTime + 3600000)) u)).
  { rewrite Hdb1. now apply token_found_after_issue. }
  apply String.eqb_neq in Hfresh.
  assert (Hvalidate : forall later,
            validateResetToken later db1 fresh =
            if issueTime + 3600000 <? later then TokenInvalidOrExpired
            else TokenValid (id u)).
  { intros later. unfold validateResetToken. now rewrite Hfresh, Hfound. }
  split; [|split].
  - intros later Hle. rewrite Hvalidate.
    destruct (Z.ltb_spec (issueTime + 3600000) later); [lia | reflexivity].
  - intros later Hgt. rewrite Hvalidate.
    destruct (Z.ltb_spec (issueTime + 3600000) later); [reflexivity | lia].
  - intros hashPassword later newPassword Hle Hpw consumed.
    apply String.eqb_neq in Hpw.
    assert (Hrun : consumed =
              (resetPassword later (id u) (hashPassword newPassword) db1,
               PasswordReset)).
    { unfold consumed, resetPasswordRoute, missing.
      cbn [bodyToken bodyNewPassword]. rewrite Hfresh, Hpw, Hfound.
      cbn [orb passwordResetExpires setResetToken id].
      destruct (Z.ltb_spec (issueTime + 3600000) later); [lia | reflexivity]. }
    rewrite Hrun. split; [reflexivity|]. intros t. cbn [fst].
    unfold validateResetToken. rewrite Hfresh.
    rewrite token_gone_after_reset; [reflexivity|].
    intros row Hin Hholds. rewrite Hdb1 in Hin.
    unfold setPasswordResetToken, updateWhereId in Hin.
    apply in_map_iff in Hin as (old & <- & Hold).
    destruct (Z.eqb_spec (id old) (id u)) as [Heq | Hne]; [exact Heq|].
    rewrite (Hnew old Hold) in Hholds. discriminate.
Qed.

End ForgotProps.

End ForgotPasswordProps.


Module ForgotPasswordExamples.
Import Schema Storage Routes ForgotPassword.

Lemma forgotPassword_rate_limit_witness :
  forgotPassword false None 1000 1001 1002 "ab12" Samples.usersTable
    Scenarios.busyLimits Scenarios.forgotRequest =
  (Samples.usersTable, Scenarios.busyLimits, RateLimited).
Proof.
  destruct (ForgotPasswordProps.forgotPassword_rate_limit false None
              1000 1001 1002 "ab12" Samples.usersTable Scenarios.busyLimits
              Scenarios.forgotRequest eq_refl) as (Hfull & _).
  apply Hfull. vm_compute. lia.
Defined.

Lemma reset_token_life_witness :
  validateResetToken 3601002
    (fst (fst (forgotPassword false None 1000 1001 1002 "ab12"
                 Samples.usersTable ∅ Scenarios.forgotRequest))) "ab12" =
  TokenValid 2.
Proof.
  destruct (ForgotPasswordProps.reset_token_life false None 1000 1001 1002
              "ab12" Samples.usersTable ∅ Scenarios.forgotRequest
              "maria@example.com" Samples.regularUser) as (Hvalid & _).
  - reflexivity.
  - vm_compute. lia.
  - reflexivity.
  - reflexivity.
  - reflexivity.
  - reflexivity.
  - discriminate.
  - intros row [<- | [<- | [<- | []]]]; reflexivity.
  - apply Hvalid. lia.
Defined.

End ForgotPasswordExamples.


(** ** Retiring unused accounts *)

Module MaintenanceProps.
Import Schema Storage Auth Maintenance StorageProps.

Lemma selectFirst_map (cond : User -> bool) (g : User -> User) (db : Db) :
  (forall row, cond (g row) = cond row) ->
  selectFirst cond (map g db) = option_map g (selectFirst cond db).
Proof.
  intros Hcond. unfold selectFirst.
  induction db as [|row db IH]; [reflexivity|].
  cbn [map find]. rewrite Hcond. now destruct (cond row).
Qed.

Lemma unused_settled (cutoffDate : Z) (row : User) :
  unused cutoffDate
    (if unused cutoffDate row then setAccountStatus inactive row else row)
  = false.
Proof. now destruct (unused cutoffDate row) eqn:H. Qed.

Lemma unused_earlier (earlier cutoffDate : Z) (row : User) :
  earlier <= cutoffDate ->
  unused cutoffDate row = false -> unused earlier row = false.
Proof.
  unfold unused. intros Hle.
  destruct (accountStatus row); try reflexivity.
  destruct (lastLogin row) as [t|]; [|discriminate].
  rewrite !Z.ltb_ge. lia.
Qed.

Lemma map_unchanged {A} (g : A -> A) (l : list A) :
  (forall x, In x l -> g x = x) -> map g l = l.
Proof.
  induction l as [|x l IH]; intros H; [reflexivity|].
  cbn [map]. rewrite (H x (or_introl eq_refl)), IH; [reflexivity|].
  intros y Hy. apply H. now right.
Qed.

Lemma filter_none {A} (f : A -> bool) (l : list A) :
  (forall x, In x l -> f x = false) -> List.filter f l = [].
Proof.
  induction l as [|x l IH]; intros H; [reflexivity|].
  cbn [List.filter]. rewrite (H x (or_introl eq_refl)). apply IH.
  intros y Hy. apply H. now right.
Qed.

Section MaintenanceRun.

Variable daysBefore : Z -> Z -> Z.

Local Abbreviation markInactiveAccounts :=
  (Maintenance.markInactiveAccounts daysBefore).

(** X19: what a maintenance run leaves behind.  Every row keeps its
    place and all its columns but the status, which turns [inactive] on
    exactly the active rows whose last login is missing or lies before the
    cut-off date; the number returned is zero exactly when the table did
    not change; afterwards every active account has logged in on or after
    the cut-off date, so that a further run with the same or an earlier
    cut-off date changes nothing and returns zero. *)
Theorem markInactiveAccounts_settles (now inactiveDays : Z) (db : Db) :
  let cutoffDate := daysBefore now inactiveDays in
  let db1 := fst (markInactiveAccounts now inactiveDays db) in
  let marked := snd (markInactiveAccounts now inactiveDays db) in
  (forall userId,
     getUser db1 userId =
     option_map
       (fun row =>
          if unused cutoffDate row then setAccountStatus inactive row else row)
       (getUser db userId)) /\
  (marked = 0%nat <-> db1 = db) /\
  (forall row, In row db1 -> accountStatus row = active ->
     exists t, lastLogin row = Some t /\ cutoffDate <= t) /\
  (forall now2 inactiveDays2,
     daysBefore now2 inactiveDays2 <= cutoffDate ->
     markInactiveAccounts now2 inactiveDays2 db1 = (db1, 0%nat)).
Proof.
  intros cutoffDate db1 marked.
  unfold db1, marked, Maintenance.markInactiveAccounts. fold cutoffDate.
  cbn [fst snd].
  set (g := fun row =>
              if unused cutoffDate row then setAccountStatus inactive row
              else row).
  assert (Hsettled : forall row, In row (map g db) ->
                                 unused cutoffDate row = false).
  { intros row Hin. apply in_map_iff in Hin as (old & <- & _).
    apply unused_settled. }
  split; [|split; [|split]].
  - intros userId. unfold getUser. apply selectFirst_map.
    intros row. unfold g. now destruct (unused cutoffDate row).
  - split.
    + intros Hzero. apply map_unchanged. intros row Hin. unfold g.
      destruct (unused cutoffDate row) eqn:Hrow; [|reflexivity].
      exfalso.
      assert (Hmem : In row (List.filter (unused cutoffDate) db))
        by (apply filter_In; now split).
      destruct (List.filter (unused cutoffDate) db); [exact Hmem | discriminate].
    + intros Hsame. rewrite filter_none; [reflexivity|].
      intros row Hin. rewrite <- Hsame in Hin. now apply Hsettled.
  - intros row Hin Hactive. apply Hsettled in Hin. unfold unused in Hin.
    rewrite Hactive in Hin. destruct (lastLogin row) as [t|]; [|discriminate].
    exists t. split; [reflexivity|]. apply Z.ltb_ge in Hin. exact Hin.
  - intros now2 inactiveDays2 Hle.
    assert (Hnone : forall row, In row (map g db) ->
                      unused (daysBefore now2 inactiveDays2) row = false).
    { intros row Hin. eapply unused_earlier; [exact Hle|]. now apply Hsettled. }
    f_equal.
    + apply map_unchanged. intros row Hin. now rewrite (Hnone row Hin).
    + now rewrite filter_none.
Qed.

Variable envJwtExpiresIn : option string.
Variable dateToString : Z -> string.
Variable jwtSign : Z -> JsObject -> ExpiresIn -> option string.
Variable comparePasswords : string -> string -> bool.

Local Abbreviation login :=
  (Auth.login envJwtExpiresIn dateToString jwtSign comparePasswords).

(** X20: an account retired by a maintenance run cannot log in.  When the
    row that a login names is active and unused at the cut-off date, then
    after the run every login that names it is answered [AccountInactive],
    with the right password as with a wrong one, and leaves the table as
    it is. *)
Theorem retired_account_cannot_login (now inactiveDays later : Z) (db : Db)
  (body : LoginBody) (u : User) :
  findByIdentifier db (orDefault (bodyUsername body) "") = Some u ->
  unused (daysBefore now inactiveDays) u = true ->
  let db1 := fst (markInactiveAccounts now inactiveDays db) in
  login later db1 body = (db1, AccountInactive).
Proof.
  intros Hfind Hunused db1.
  assert (Hfind1 : findByIdentifier db1 (orDefault (bodyUsername body) "")
                   = Some (setAccountStatus inactive u)).
  { unfold db1, Maintenance.markInactiveAccounts. cbn [fst].
    unfold findByIdentifier, getUserByEmail, getUserByUsername in *.
    destruct (containsAt (orDefault (bodyUsername body) ""));
      (rewrite selectFirst_map;
       [rewrite Hfind; cbn [option_map]; now rewrite Hunused
       |intros row; now destruct (unused _ row)]). }
  unfold Auth.login. now rewrite Hfind1.
Qed.

End MaintenanceRun.

Lemma retired_account_cannot_login_witness :
  Auth.login None Samples.printDate Samples.signStub Samples.verifyStub
    (40 * Samples.day)
    (fst (markInactiveAccounts Scenarios.plainDays (31 * Samples.day) 30
            Scenarios.idleTable))
    (mkLoginBody (Some "ines") "stored") =
  (fst (markInactiveAccounts Scenarios.plainDays (31 * Samples.day) 30
          Scenarios.idleTable), AccountInactive).
Proof.
  apply (retired_account_cannot_login Scenarios.plainDays None
           Samples.printDate Samples.signStub Samples.verifyStub
           (31 * Samples.day) 30
           (40 * Samples.day) Scenarios.idleTable
           (mkLoginBody (Some "ines") "stored") Scenarios.idleUser).
  - reflexivity.
  - reflexivity.
Defined.

End MaintenanceProps.

(** ** From a password reset to the next login *)

Module ResetLoginProps.
Import Schema Storage Auth Routes StorageProps AuthProps RoutesProps.

Section ResetLogin.

Variable envJwtExpiresIn : option string.
Variable dateToString : Z -> string.
Variable jwtSign : Z -> JsObject -> ExpiresIn -> option string.
Variable hashPassword : string -> string.
Variable comparePasswords : string -> string -> bool.

Local Abbreviation login :=
  (Auth.login envJwtExpiresIn dateToString jwtSign comparePasswords).
Local Abbreviation payload := (Auth.payload dateToString).
Local Abbreviation expiresIn := (Auth.expiresIn envJwtExpiresIn).

(** X21: a password reset opens the account again.  Whatever the status
    of the account and its count of failed logins were (locked, suspended
    or inactive included), once its token has been used to set a new
    password, a login with the new password passes the status and the
    password check: it is answered with the user and the token that
    [jwt.sign] delivers, and with the error if [jwt.sign] delivers none.
    A login with a password that does not match the new hash is answered
    as a first failure, with four attempts left. *)
Theorem reset_then_login (now later : Z) (db : Db) (token newPassword : string)
  (u : User) (expiry : Z) (body : LoginBody) :
  token <> "" -> newPassword <> "" ->
  getUserByResetToken db token = Some u ->
  passwordResetExpires u = Some expiry -> now <= expiry ->
  accountIs db (orDefault (bodyUsername body) "") u ->
  let result :=
    resetPasswordRoute hashPassword now db
      (mkResetBody (Some token) (Some newPassword)) in
  snd result = PasswordReset /\
  (comparePasswords (bodyPassword body) (hashPassword newPassword) = true ->
   (forall sessionToken,
      jwtSign later (payload u) expiresIn = Some sessionToken ->
      exists db2 user,
        login later (fst result) body = (db2, LoggedIn user sessionToken) /\
        field "accountStatus" user = Some (JString "active") /\
        field "password" user = None) /\
   (jwtSign later (payload u) expiresIn = None ->
      snd (login later (fst result) body) = InternalError)) /\
  (comparePasswords (bodyPassword body) (hashPassword newPassword) = false ->
   snd (login later (fst result) body) = InvalidCredentials (Some 4)).
Proof.
  intros Htoken Hpw Hfound Hexp Hle Hacc result.
  apply String.eqb_neq in Htoken, Hpw.
  assert (Hrun : result =
            (resetPassword now (id u) (hashPassword newPassword) db,
             PasswordReset)).
  { unfold result, resetPasswordRoute, missing.
    cbn [bodyToken bodyNewPassword]. rewrite Htoken, Hpw, Hfound, Hexp.
    cbn [orb]. destruct (Z.ltb_spec expiry now); [lia | reflexivity]. }
  rewrite Hrun. cbn [fst snd]. split; [reflexivity|].
  set (u1 := passwordReplaced (hashPassword newPassword) now u).
  assert (Hacc1 : accountIs
                    (resetPassword now (id u) (hashPassword newPassword) db)
                    (orDefault (bodyUsername body) "") u1).
  { apply accountIs_update; [apply keepsIdentity_passwordReplaced | exact Hacc]. }
  assert (Hlogin : login later
                     (resetPassword now (id u) (hashPassword newPassword) db)
                     body =
                   Auth.checkPassword envJwtExpiresIn dateToString jwtSign
                     comparePasswords later
                     (resetPassword now (id u) (hashPassword newPassword) db)
                     u1 body).
  { unfold Auth.login. destruct Hacc1 as [Hfind1 _]. now rewrite Hfind1. }
  rewrite Hlogin. split.
  - intros Hright.
    destruct (checkPassword_right envJwtExpiresIn dateToString jwtSign
                comparePasswords later _ _ u1 body Hacc1 Hright)
      as (db2 & Hcp & _).
    change (payload u1) with (payload u) in Hcp.
    rewrite Hcp. split.
    + intros sessionToken ->. exists db2. eexists.
      split; [reflexivity|]. split; reflexivity.
    + now intros ->.
  - intros Hwrong. unfold Auth.checkPassword.
    change (password u1) with (hashPassword newPassword). rewrite Hwrong.
    reflexivity.
Qed.

End ResetLogin.

Lemma reset_then_login_witness :
  exists db2 user,
    Auth.login None Samples.printDate Samples.signStub Samples.verifyStub
      (30 * Samples.minute)
      (fst (resetPasswordRoute Samples.hashStub (20 * Samples.minute)
              Samples.resetTable
              (mkResetBody (Some "5f2a9c") (Some "Tr0ub4dor&3x"))))
      (mkLoginBody (Some "nuno") "Tr0ub4dor&3x") =
    (db2, LoggedIn user "eyJhbGciOiJIUzI1NiJ9.e30.c2lnbmVk") /\
    field "accountStatus" user = Some (JString "active") /\
    field "password" user = None.
Proof.
  destruct (reset_then_login None Samples.printDate Samples.signStub
              Samples.hashStub Samples.verifyStub (20 * Samples.minute)
              (30 * Samples.minute) Samples.resetTable "5f2a9c"
              "Tr0ub4dor&3x" Samples.resetUser (60 * Samples.minute)
              (mkLoginBody (Some "nuno") "Tr0ub4dor&3x"))
    as (_ & Hright & _).
  - discriminate.
  - discriminate.
  - reflexivity.
  - reflexivity.
  - vm_compute. discriminate.
  - split; reflexivity.
  - destruct (Hright eq_refl) as (Hsigned & _). apply Hsigned. reflexivity.
Defined.

End ResetLoginProps.


(** ** The CSRF store over time *)

Module CsrfStoreProps.
Import Security SecurityProps.

(** X22: a CSRF token is neither used up nor tied to a user.  When a
    guarded request passes with the token [t], the token stays in the
    store, and every later guarded request that presents [t], from the
    same user or from any other, passes as well, as long as no timer tick
    comes in between. *)
Theorem csrf_token_not_consumed (now : Z) (fresh : string)
  (tokens : TokenStore) (req : Request) (t : string) :
  guarded req ->
  firstTruthy (headerCsrfToken req) (bodyCsrf req) = Some t ->
  snd (csrfMiddleware now fresh tokens req) = Next fresh ->
  let tokens1 := fst (csrfMiddleware now fresh tokens req) in
  is_Some (tokens1 !! t) /\
  forall now2 fresh2 req2,
    guarded req2 ->
    firstTruthy (headerCsrfToken req2) (bodyCsrf req2) = Some t ->
    snd (csrfMiddleware now2 fresh2 tokens1 req2) = Next fresh2.
Proof.
  intros Hg Hsup Hpass tokens1.
  assert (Hrun := csrfMiddleware_guarded now fresh tokens req Hg).
  rewrite Hsup in Hrun.
  destruct (tokenRefused tokens (Some t)) eqn:Href.
  { rewrite Hrun in Hpass. discriminate. }
  apply tokenRefused_false in Href as (t' & entry & [= <-] & Hne & Hlook).
  assert (Hkept : is_Some (tokens1 !! t)).
  { unfold tokens1. rewrite Hrun. cbn [fst].
    destruct (decide (fresh = t)) as [-> | Hdiff].
    - rewrite lookup_insert_eq. eauto.
    - rewrite lookup_insert_ne by assumption. eauto. }
  split; [exact Hkept|].
  intros now2 fresh2 req2 Hg2 Hsup2.
  rewrite (csrfMiddleware_guarded _ _ _ _ Hg2), Hsup2.
  destruct Hkept as [entry1 Hentry1].
  assert (Hok : tokenRefused tokens1 (Some t) = false).
  { apply tokenRefused_false. now exists t, entry1. }
  now rewrite Hok.
Qed.

Lemma csrf_token_not_consumed_witness :
  snd (csrfMiddleware 2000 "beef02"
         (fst (csrfMiddleware 1000 "beef01"
                 (fst (csrfMiddleware 0 "c0ffee" ∅ Samples.pageLoad))
                 (Samples.writeWith "c0ffee")))
         (mkRequest "DELETE" "/api/games/7" None (Some "c0ffee") (Some 9)))
  = Next "beef02".
Proof.
  destruct (csrf_token_not_consumed 1000 "beef01"
              (fst (csrfMiddleware 0 "c0ffee" ∅ Samples.pageLoad))
              (Samples.writeWith "c0ffee") "c0ffee") as (_ & Hagain).
  - repeat split. simpl. intuition discriminate.
  - reflexivity.
  - reflexivity.
  - apply Hagain.
    + repeat split. simpl. intuition discriminate.
    + reflexivity.
Defined.

Lemma step_absent (t : string) (tokens : TokenStore) (ev : Event) :
  match ev with
  | Incoming _ fresh _ => fresh <> t
  | SweepTick _ => True
  end ->
  tokens !! t = None -> step tokens ev !! t = None.
Proof.
  intros Hev Hnone. destruct ev as [now fresh req | now]; cbn [step].
  - unfold csrfMiddleware. destruct (_ && _ && _); cbn [fst]; [exact Hnone|].
    now rewrite lookup_insert_ne.
  - unfold sweep. apply map_lookup_filter_None. now left.
Qed.

(** X23: a timer tick ends an expired token.  Once the timer has run at
    a moment later than the expiry of a token, the token is gone, and
    whatever requests and ticks follow, a guarded request that presents it
    is answered with the CSRF error and leaves the store alone - unless
    the generator has handed out the very same value again. *)
Theorem csrf_swept_token_refused (tokens : TokenStore) (t : string)
  (entry : CsrfEntry) (tick : Z) (events : list Event) (now : Z)
  (fresh : string) (req : Request) :
  tokens !! t = Some entry ->
  expires entry < tick ->
  Forall (fun ev => match ev with
                    | Incoming _ issued _ => issued <> t
                    | SweepTick _ => True
                    end) events ->
  guarded req ->
  firstTruthy (headerCsrfToken req) (bodyCsrf req) = Some t ->
  let tokens1 := run events (sweep tick tokens) in
  csrfMiddleware now fresh tokens1 req = (tokens1, CsrfError).
Proof.
  intros Hlook Hexp Hevents Hg Hsup tokens1.
  assert (Hgone : sweep tick tokens !! t = None).
  { destruct (sweep tick tokens !! t) as [e|] eqn:He; [|reflexivity].
    apply sweep_lookup in He as [He Hle]. rewrite Hlook in He.
    injection He as <-. lia. }
  assert (Hstill : tokens1 !! t = None).
  { unfold tokens1, run. revert Hgone. generalize (sweep tick tokens).
    induction events as [|ev events IH]; intros store Hstore; [exact Hstore|].
    apply Forall_cons_iff in Hevents as [Hev Hevents]. cbn [fold_left].
    apply IH; [exact Hevents|]. now apply step_absent. }
  rewrite (csrfMiddleware_guarded _ _ _ _ Hg), Hsup.
  unfold tokenRefused. rewrite Hstill. now rewrite orb_true_r.
Qed.

Lemma csrf_swept_token_refused_witness :
  csrfMiddleware (Samples.day + 60001) "beef01"
    (run [] (sweep (Samples.day + 60000)
               (fst (csrfMiddleware 0 "c0ffee" ∅ Samples.pageLoad))))
    (Samples.writeWith "c0ffee") =
  (run [] (sweep (Samples.day + 60000)
             (fst (csrfMiddleware 0 "c0ffee" ∅ Samples.pageLoad))),
   CsrfError).
Proof.
  apply (csrf_swept_token_refused
           (fst (csrfMiddleware 0 "c0ffee" ∅ Samples.pageLoad)) "c0ffee"
           (mkCsrfEntry Samples.day None) (Samples.day + 60000) []
           (Samples.day + 60001) "beef01" (Samples.writeWith "c0ffee")).
  - reflexivity.
  - reflexivity.
  - constructor.
  - repeat split. simpl. intuition discriminate.
  - reflexivity.
Defined.

End CsrfStoreProps.

(** ** The strength meter *)

Module StrengthProps.
Import PasswordPolicy PolicyProps.

Lemma distinct_le (s : list ascii) : (distinct s <= length s)%nat.
Proof.
  induction s as [|c s IH]; [reflexivity|].
  cbn [distinct length]. destruct (existsb (Ascii.eqb c) s); lia.
Qed.

(** X24: the strength meter never reaches its upper labels.  For every
    policy and every password the score lies between 0 and 70, so the
    label is one of the three lowest; the labels for 75 and more are never
    given. *)
Theorem measureStrength_at_most_70 (P : Policy) (password : list ascii) :
  0 <= measureStrength P password <= 70 /\
  In (getStrengthLabel P password) ["muito fraca"; "fraca"; "média"].
Proof.
  assert (Hscore : 0 <= measureStrength P password <= 70).
  { unfold measureStrength.
    destruct (negb (truthy password)); [lia|].
    pose proof (distinct_le password) as Hd.
    destruct (test isUpper password), (test isLower password),
      (test isDigit password), (test isSymbol password),
      (has (commonPasswords P) (toLowerCase password)),
      (hasSimplePatterns password); lia. }
  split; [exact Hscore|].
  unfold getStrengthLabel. cbv zeta.
  destruct (Z.ltb_spec (measureStrength P password) 30); [now left|].
  destruct (Z.ltb_spec (measureStrength P password) 50); [right; now left|].
  destruct (Z.ltb_spec (measureStrength P password) 75);
    [right; right; now left | lia].
Qed.

(** X25: what the meter says of a password that [validate] accepts.
    Under the default policy an accepted password scores at least 46,
    so it is never labelled [muito fraca]; one of twelve characters or
    more is always labelled [média]. *)
Theorem valid_password_strength (password : list ascii) :
  isValid (validate passwordPolicy password) = true ->
  46 <= measureStrength passwordPolicy password /\
  getStrengthLabel passwordPolicy password <> "muito fraca" /\
  ((12 <= length password)%nat ->
   getStrengthLabel passwordPolicy password = "média").
Proof.
  intros Hvalid.
  apply validate_accepts in Hvalid as [Hbasic Hpattern].
  destruct Hbasic as (Hlen & Hu & Hl & Hd & Hs & Hcommon).
  cbn [minLength maxLength passwordPolicy newPolicy] in Hlen.
  assert (Hne : truthy password = true).
  { destruct password; [simpl in Hlen; lia | reflexivity]. }
  assert (Hscore :
    measureStrength passwordPolicy password =
    Z.min 30 (Z.of_nat (length password) * 2) + 40 -
    Z.min 10 ((Z.of_nat (length password) - Z.of_nat (distinct password)) * 2)).
  { unfold measureStrength. rewrite Hne. cbn [negb]. cbv zeta.
    rewrite (proj2 (test_exists isUpper password) Hu).
    rewrite (proj2 (test_exists isLower password) Hl).
    rewrite (proj2 (test_exists isDigit password) Hd).
    rewrite (proj2 (test_exists isSymbol password) Hs).
    rewrite (proj2 (false_iff_not_true _ _
                      (has_In (commonPasswords passwordPolicy)
                         (toLowerCase password))) Hcommon).
    rewrite (proj2 (false_iff_not_true _ _ (hasSimplePatterns_spec password))
               Hpattern).
    pose proof (distinct_le password). lia. }
  pose proof (distinct_le password) as Hdist.
  assert (Hlow : 46 <= measureStrength passwordPolicy password)
    by (rewrite Hscore; lia).
  split; [exact Hlow|].
  unfold getStrengthLabel. cbv zeta.
  destruct (Z.ltb_spec (measureStrength passwordPolicy password) 30); [lia|].
  split.
  - destruct (Z.ltb_spec (measureStrength passwordPolicy password) 50);
      [discriminate|].
    destruct (Z.ltb_spec (measureStrength passwordPolicy password) 75);
      [discriminate|].
    destruct (Z.ltb_spec (measureStrength passwordPolicy password) 90);
      discriminate.
  - intros Hlong.
    destruct (Z.ltb_spec (measureStrength passwordPolicy password) 50);
      [rewrite Hscore in *; lia|].
    destruct (Z.ltb_spec (measureStrength passwordPolicy password) 75);
      [reflexivity|].
    rewrite Hscore in *. lia.
Qed.

Lemma valid_password_strength_witness :
  getStrengthLabel passwordPolicy (chars "Tr0ub4dor&3x") = "média".
Proof.
  destruct (valid_password_strength (chars "Tr0ub4dor&3x") eq_refl)
    as (_ & _ & Hlong).
  apply Hlong. vm_compute. lia.
Defined.

(** X26: words added to a policy are refused in every capitalisation.  A
    policy built with additional common passwords keeps the built-in list,
    and [validate] reports the common-password message for every
    non-empty password that equals a built-in or an added word up to the
    case of its letters. *)
Theorem added_common_password_refused (options : Options)
  (extra : list (list ascii)) (word password : list ascii) :
  additionalCommonPasswords options = Some extra ->
  In word extra \/ In word defaultCommonPasswords ->
  password <> [] ->
  toLowerCase password = toLowerCase word ->
  In msgCommon (errors (validate (newPolicy (Some options)) password)) /\
  isValid (validate (newPolicy (Some options)) password) = false.
Proof.
  intros Hextra Hword Hne Hsame.
  assert (Hlisted : In (toLowerCase password)
                      (commonPasswords (newPolicy (Some options)))).
  { cbn [newPolicy commonPasswords]. rewrite Hextra. apply in_or_app.
    destruct Hword as [Hin | Hin].
    - right. rewrite Hsame. now apply in_map.
    - left. rewrite Hsame.
      assert (Hfixed : forallb (fun w => strEqb (toLowerCase w) w)
                         defaultCommonPasswords = true) by reflexivity.
      rewrite forallb_forall in Hfixed.
      now rewrite (proj1 (strEqb_eq _ _) (Hfixed word Hin)). }
  assert (Hmsg : In msgCommon
                   (errors (validate (newPolicy (Some options)) password))).
  { apply validate_errors; [exact Hne|]. unfold violated.
    do 6 right. left. split; [reflexivity | exact Hlisted]. }
  split; [exact Hmsg|].
  destruct (isValid _) eqn:Hvalid; [|reflexivity].
  apply isValid_errors in Hvalid. rewrite Hvalid in Hmsg. destruct Hmsg.
Qed.

Lemma added_common_password_refused_witness :
  isValid
    (validate
       (newPolicy (Some (mkOptions None None (Some [chars "EternalPortal"]))))
       (chars "eternalPORTAL")) = false.
Proof.
  apply (added_common_password_refused
           (mkOptions None None (Some [chars "EternalPortal"]))
           [chars "EternalPortal"] (chars "EternalPortal")
           (chars "eternalPORTAL")).
  - reflexivity.
  - left. now left.
  - discriminate.
  - reflexivity.
Defined.

End StrengthProps.


(** ** The origin test of the reset request *)

Module OriginProps.
Import Schema Storage ForgotPassword PasswordPolicy PolicyProps.

Lemma text_nonempty (l : list ascii) :
  l <> [] -> String.eqb (string_of_list_ascii l) "" = false.
Proof.
  intros Hl. apply String.eqb_neq. intros Hempty. apply Hl.
  rewrite <- (list_ascii_of_string_of_list_ascii l). now rewrite Hempty.
Qed.

(** X27: the edges of the origin test.  In production without [APP_URL]
    no reset request is ever served: one without origin is refused, every
    other one ends in the error answer, and nothing is recorded.  In
    production with [APP_URL] a request gets past the test exactly when
    its [Origin] header, or its [Referer] when that header is missing or
    empty, is that very text.  Outside production every origin that
    merely contains [replit.dev] or [127.0.0.1] gets past.  (In the first
    case the answer is the refusal exactly when both headers are missing
    or empty.) *)
Theorem origin_check_edges (now checkTime issueTime : Z) (fresh : string)
  (db : Db) (limits : RateLimitMap) (req : ForgotRequest) :
  (let result :=
     forgotPassword true None now checkTime issueTime fresh db limits req in
   fst result = (db, limits) /\
   (snd result = OriginForbidden \/ snd result = ProcessingError)) /\
  (forall appUrl,
     checkOrigin true (Some appUrl) req = OriginAccepted <->
     (AuthRoutes.present (originHeader req) = Some appUrl \/
      (AuthRoutes.present (originHeader req) = None /\
       AuthRoutes.present (refererHeader req) = Some appUrl))) /\
  (forall pre post mark referer ip mail appUrl,
     mark = chars "replit.dev" \/ mark = chars "127.0.0.1" ->
     checkOrigin false appUrl
       (mkForgotRequest (Some (string_of_list_ascii (pre ++ mark ++ post)))
          referer ip mail) = OriginAccepted) /\
  (snd (forgotPassword true None now checkTime issueTime fresh db limits req)
     = OriginForbidden <->
   AuthRoutes.present (originHeader req) = None /\
   AuthRoutes.present (refererHeader req) = None).
Proof.
  split; [|split; [|split]].
  - cbv zeta. unfold forgotPassword, checkOrigin.
    destruct (AuthRoutes.present (originHeader req)),
             (AuthRoutes.present (refererHeader req));
      cbn [fst snd]; split; auto.
  - intros appUrl. unfold checkOrigin.
    destruct (AuthRoutes.present (originHeader req)) as [origin|],
             (AuthRoutes.present (refererHeader req)) as [referer|];
      try destruct (String.eqb_spec origin appUrl);
      try destruct (String.eqb_spec referer appUrl);
      split; intros H; try discriminate; try reflexivity;
      try (subst; tauto);
      try (destruct H as [[= H] | [H1 [= H2]]]; congruence);
      try (destruct H as [[= H] | [[= H1] H2]]; congruence);
      try (destruct H as [H | [_ H]]; discriminate).
  - intros pre post mark referer ip mail appUrl Hmark.
    assert (Hne : pre ++ mark ++ post <> []).
    { destruct Hmark as [-> | ->]; destruct pre; discriminate. }
    assert (Hdev : developmentOrigin
                     (string_of_list_ascii (pre ++ mark ++ post)) = true).
    { assert (Hocc : strIncludes (pre ++ mark ++ post) mark = true)
        by (apply strIncludes_occursIn; now exists pre, post).
      unfold developmentOrigin. cbv zeta.
      replace (chars (string_of_list_ascii (pre ++ mark ++ post)))
        with (pre ++ mark ++ post)
        by (unfold chars; now rewrite list_ascii_of_string_of_list_ascii).
      destruct Hmark as [-> | ->]; rewrite Hocc; now rewrite ?orb_true_r. }
    unfold checkOrigin. cbn [originHeader refererHeader AuthRoutes.present].
    rewrite (text_nonempty _ Hne). rewrite Hdev.
    now destruct (AuthRoutes.present referer).
  - unfold forgotPassword, checkOrigin.
    destruct (AuthRoutes.present (originHeader req)),
             (AuthRoutes.present (refererHeader req));
      cbn [snd]; split; try discriminate; try tauto;
      intros [H1 H2]; discriminate.
Qed.

End OriginProps.
